(** * Legal vocabulary trainer: the store, the vocabulary and the quiz session

    Shallow embedding of [legal-neuro-trainer/app.py].  The handlers are
    modelled over an explicit world: the durable file [data/legal_words.json]
    (absent, or present with some text) and the per-browser session.

    Modelling conventions.
    - A Python [str] is a list of code points ([N]); the durable file is
      modelled by its decoded text.  Writing goes through the strict UTF-8
      codec, which refuses a string that holds a lone surrogate: the write
      raises and the file keeps what was written before.  The disk itself does
      not fail (no permission errors), and the directory [data] is there.
    - A Python [dict] is an association list in insertion order.
    - [json.load] is a parser over the whole JSON grammar that Python accepts;
      [json.dump(..., ensure_ascii=False, indent=2)] is the printer for the
      values the program writes.  Interpreter resource limits (recursion depth,
      the cap on integer digits) are not modelled.
    - [str.lower] is the one library function left abstract: it is taken
      through the class [CaseMap]; an instance for the Latin and Cyrillic
      alphabets of the application's data is provided for evaluation. *)

From Stdlib Require Import List NArith ZArith Bool Lia Ascii String.
From Stdlib Require Import PrimFloat FloatOps SpecFloat.
Import ListNotations.

Set Implicit Arguments.
Set Warnings "-register-all".

(* ------------------------------------------------------------------ *)
(** ** Python strings *)

Module PyStr.

Definition char := N.
Definition pystr := list char.

Fixpoint eqb (a b : pystr) : bool :=
  match a, b with
  | [], [] => true
  | x :: a', y :: b' => N.eqb x y && eqb a' b'
  | _, _ => false
  end.

(** Decoding of a UTF-8 byte sequence; used to write the literals of the
    source ([py "договор"]) as code points. *)
Fixpoint utf8_decode (bs : list N) : pystr :=
  match bs with
  | [] => []
  | b :: r =>
    if (b <? 192)%N then b :: utf8_decode r
    else match r with
    | [] => [b]
    | b2 :: r2 =>
      if (b <? 224)%N then ((b - 192) * 64 + (b2 - 128))%N :: utf8_decode r2
      else match r2 with
      | [] => [b; b2]
      | b3 :: r3 =>
        if (b <? 240)%N
        then ((b - 224) * 4096 + (b2 - 128) * 64 + (b3 - 128))%N :: utf8_decode r3
        else match r3 with
        | [] => [b; b2; b3]
        | b4 :: r4 =>
          ((b - 240) * 262144 + (b2 - 128) * 4096 + (b3 - 128) * 64 + (b4 - 128))%N
            :: utf8_decode r4
        end
      end
    end
  end.

Definition py (s : string) : pystr :=
  utf8_decode (map N_of_ascii (list_ascii_of_string s)).

(** [str.isspace] for one character: the code points Python strips. *)
Definition isspace (c : char) : bool :=
  ((9 <=? c) && (c <=? 13) || (28 <=? c) && (c <=? 32)
   || (c =? 133) || (c =? 160) || (c =? 5760)
   || (8192 <=? c) && (c <=? 8202)
   || (c =? 8232) || (c =? 8233) || (c =? 8239) || (c =? 8287)
   || (c =? 12288))%N.

Fixpoint lstrip (s : pystr) : pystr :=
  match s with
  | [] => []
  | c :: r => if isspace c then lstrip r else s
  end.

Definition rstrip (s : pystr) : pystr := rev (lstrip (rev s)).

(** [s.strip()] *)
Definition strip (s : pystr) : pystr := rstrip (lstrip s).

(** [s.encode('utf-8')] succeeds: the strict codec refuses the surrogate code
    points [U+D800] to [U+DFFF] and nothing else. *)
Definition is_surrogate (c : char) : bool :=
  ((55296 <=? c) && (c <=? 57343))%N.

Definition encodable (s : pystr) : bool :=
  forallb (fun c => negb (is_surrogate c)) s.

(** [s.lower()].  Python maps every character to a non-empty sequence, so the
    result is empty exactly when the argument is. *)
Class CaseMap := {
  lower : pystr -> pystr;
  lower_nil : forall s, lower s = [] <-> s = []
}.

(** Case mapping of the Basic Latin, Latin-1 and Cyrillic blocks. *)
Definition lower_char (c : char) : char :=
  if ((65 <=? c) && (c <=? 90))%N then (c + 32)%N
  else if ((192 <=? c) && (c <=? 222) && negb (c =? 215))%N then (c + 32)%N
  else if ((1024 <=? c) && (c <=? 1039))%N then (c + 80)%N
  else if ((1040 <=? c) && (c <=? 1071))%N then (c + 32)%N
  else c.

#[export] Instance latin_cyrillic : CaseMap.
Proof.
  refine {| lower := map lower_char |}.
  intros [|c s]; split; intro H; try reflexivity; discriminate H.
Defined.

End PyStr.
Import PyStr.

(* ------------------------------------------------------------------ *)
(** ** Python dictionaries (insertion ordered) *)

Module Dict.

Definition dict (V : Type) := list (pystr * V).

Fixpoint get {V} (k : pystr) (d : dict V) : option V :=
  match d with
  | [] => None
  | (k', v) :: r => if PyStr.eqb k k' then Some v else get k r
  end.

(** [k in d] *)
Definition mem {V} (k : pystr) (d : dict V) : bool :=
  match get k d with Some _ => true | None => false end.

(** [d[k] = v]: an existing key keeps its place, a new key goes last. *)
Fixpoint set {V} (k : pystr) (v : V) (d : dict V) : dict V :=
  match d with
  | [] => [(k, v)]
  | (k', v') :: r =>
    if PyStr.eqb k k' then (k', v) :: r else (k', v') :: set k v r
  end.

(** [del d[k]] (for a key that is present). *)
Fixpoint del {V} (k : pystr) (d : dict V) : dict V :=
  match d with
  | [] => []
  | (k', v') :: r => if PyStr.eqb k k' then r else (k', v') :: del k r
  end.

Definition keys {V} (d : dict V) : list pystr := map fst d.

(** [not d] *)
Definition is_empty {V} (d : dict V) : bool :=
  match d with [] => true | _ => false end.

End Dict.

(* ------------------------------------------------------------------ *)
(** ** Exceptions *)

Inductive exc := IndexError | UnicodeEncodeError.

Inductive result (A : Type) :=
| Ok (a : A)
| Raise (e : exc).
Arguments Ok {A} a.
Arguments Raise {A} e.

(* ------------------------------------------------------------------ *)
(** ** JSON, as the [json] module reads and writes it *)

Module Json.

Definition text := pystr.

Inductive jval :=
| JNull
| JBool (b : bool)
| JInt (z : Z)
| JFloat (lexeme : text)
| JStr (s : pystr)
| JArr (l : list jval)
| JObj (d : list (pystr * jval)).

(** *** Printer: [json.dump(data, f, ensure_ascii=False, indent=2)] *)

Definition hexdigit (n : N) : char :=
  if (n <? 10)%N then (48 + n)%N else (87 + n)%N.

(** [ESCAPE_DCT]: the replacement of one character matched by [ESCAPE]. *)
Definition escape_char (c : char) : text :=
  if (c =? 92)%N then [92; 92]%N
  else if (c =? 34)%N then [92; 34]%N
  else if (c =? 8)%N then [92; 98]%N
  else if (c =? 12)%N then [92; 102]%N
  else if (c =? 10)%N then [92; 110]%N
  else if (c =? 13)%N then [92; 114]%N
  else if (c =? 9)%N then [92; 116]%N
  else if (c <? 32)%N
       then [92; 117; 48; 48; hexdigit (c / 16); hexdigit (c mod 16)]%N
  else [c].

Fixpoint escape (s : pystr) : text :=
  match s with
  | [] => []
  | c :: r => escape_char c ++ escape r
  end.

(** [encode_basestring] *)
Definition encode_basestring (s : pystr) : text := 34%N :: escape s ++ [34%N].

Definition newline_indent (level : nat) : text :=
  10%N :: repeat 32%N (2 * level).

Definition item_separator (level : nat) : text := 44%N :: newline_indent level.

Definition key_separator : text := [58; 32]%N.

(** Items of a dictionary joined by the item separator. *)
Fixpoint join_items (sep : text) (items : list text) : text :=
  match items with
  | [] => []
  | [x] => x
  | x :: r => x ++ sep ++ join_items sep r
  end.

(** [_iterencode_dict] at indent level [level], the values printed by
    [enc_value]. *)
Definition iterencode_dict {V} (enc_value : V -> text) (level : nat)
    (d : list (pystr * V)) : text :=
  match d with
  | [] => [123; 125]%N
  | _ =>
    123%N :: newline_indent (S level)
      ++ join_items (item_separator (S level))
           (map (fun kv => encode_basestring (fst kv) ++ key_separator
                             ++ enc_value (snd kv)) d)
      ++ newline_indent level ++ [125%N]
  end.

(** The same document as the chunks [_iterencode_dict] yields; [json.dump]
    hands them to [fp.write] one by one.  [first] is the flag of the loop:
    every item but the first is preceded by the item separator. *)
Fixpoint item_chunks {V} (enc_value : V -> list text) (level : nat)
    (first : bool) (d : list (pystr * V)) : list text :=
  match d with
  | [] => []
  | (key, value) :: r =>
    (if first then [] else [item_separator level])
      ++ encode_basestring key :: key_separator
      :: enc_value value ++ item_chunks enc_value level false r
  end.

Definition iterencode_dict_chunks {V} (enc_value : V -> list text)
    (level : nat) (d : list (pystr * V)) : list text :=
  match d with
  | [] => [[123; 125]%N]
  | _ =>
    [123%N] :: newline_indent (S level)
      :: item_chunks enc_value (S level) true d
      ++ [newline_indent level; [125%N]]
  end.

(** [for chunk in iterable: fp.write(chunk)] on a file opened with
    [encoding='utf-8']: the text that reaches the file, and whether a write
    raised.  A chunk is encoded as a whole when it is written; the chunks
    written before the one that fails stay in the file. *)
Fixpoint write_chunks (chunks : list text) : result unit * text :=
  match chunks with
  | [] => (Ok tt, [])
  | chunk :: rest =>
    if encodable chunk then
      let (r, written) := write_chunks rest in (r, chunk ++ written)
    else (Raise UnicodeEncodeError, [])
  end.

(** *** Parser: [json.load] *)

Definition is_ws (c : char) : bool :=
  ((c =? 32) || (c =? 9) || (c =? 10) || (c =? 13))%N.

Fixpoint skip_ws (s : text) : text :=
  match s with
  | [] => []
  | c :: r => if is_ws c then skip_ws r else s
  end.

Definition hexval (c : char) : option N :=
  if ((48 <=? c) && (c <=? 57))%N then Some (c - 48)%N
  else if ((97 <=? c) && (c <=? 102))%N then Some (c - 87)%N
  else if ((65 <=? c) && (c <=? 70))%N then Some (c - 55)%N
  else None.

(** [_decode_uXXXX] *)
Definition hex4 (a b c d : char) : option N :=
  match hexval a, hexval b, hexval c, hexval d with
  | Some x, Some y, Some z, Some w => Some (x * 4096 + y * 256 + z * 16 + w)%N
  | _, _, _, _ => None
  end.

(** [BACKSLASH]: the one-character escapes. *)
Definition backslash (e : char) : option char :=
  if (e =? 34)%N then Some 34%N
  else if (e =? 92)%N then Some 92%N
  else if (e =? 47)%N then Some 47%N
  else if (e =? 98)%N then Some 8%N
  else if (e =? 102)%N then Some 12%N
  else if (e =? 110)%N then Some 10%N
  else if (e =? 114)%N then Some 13%N
  else if (e =? 116)%N then Some 9%N
  else None.

Definition is_high (u : N) : bool := ((55296 <=? u) && (u <=? 56319))%N.
Definition is_low (u : N) : bool := ((56320 <=? u) && (u <=? 57343))%N.

Definition cons_char (c : char) (r : option (pystr * text))
    : option (pystr * text) :=
  match r with
  | Some (s, rest) => Some (c :: s, rest)
  | None => None
  end.

(** [scanstring] with [strict=True], from the character after the opening
    quote; returns the string and the text after the closing quote. *)
Fixpoint scanstring (s : text) : option (pystr * text) :=
  match s with
  | [] => None
  | c :: r =>
    if (c =? 34)%N then Some ([], r)
    else if (c =? 92)%N then
      match r with
      | [] => None
      | e :: r1 =>
        if (e =? 117)%N then
          match r1 with
          | h1 :: h2 :: h3 :: h4 :: r2 =>
            match hex4 h1 h2 h3 h4 with
            | None => None
            | Some uni =>
              if is_high uni then
                match r2 with
                | b1 :: b2 :: g1 :: g2 :: g3 :: g4 :: r3 =>
                  if ((b1 =? 92) && (b2 =? 117))%N then
                    match hex4 g1 g2 g3 g4 with
                    | None => None
                    | Some uni2 =>
                      if is_low uni2
                      then cons_char
                             (65536 + ((uni - 55296) * 1024 + (uni2 - 56320)))%N
                             (scanstring r3)
                      else cons_char uni (scanstring r2)
                    end
                  else cons_char uni (scanstring r2)
                | _ => cons_char uni (scanstring r2)
                end
              else cons_char uni (scanstring r2)
            end
          | _ => None
          end
        else
          match backslash e with
          | Some c' => cons_char c' (scanstring r1)
          | None => None
          end
      end
    else if (c <? 32)%N then None
    else cons_char c (scanstring r)
  end.

Definition is_digit (c : char) : bool := ((48 <=? c) && (c <=? 57))%N.

(** The longest prefix of digits, and the rest. *)
Fixpoint span_digits (s : text) : text * text :=
  match s with
  | [] => ([], [])
  | c :: r =>
    if is_digit c then let (ds, rest) := span_digits r in (c :: ds, rest)
    else ([], s)
  end.

Definition digits_value (ds : text) : Z :=
  fold_left (fun acc c => (acc * 10 + Z.of_N (c - 48))%Z) ds 0%Z.

(** Does [s] start with [p]?  Returns the rest. *)
Fixpoint strip_prefix (p s : text) : option text :=
  match p, s with
  | [], _ => Some s
  | a :: p', b :: s' => if (a =? b)%N then strip_prefix p' s' else None
  | _ :: _, [] => None
  end.

(** [NUMBER_RE]: an optional minus sign, then a zero or a digit string without
    leading zero; an optional fraction (a dot and digits); an optional exponent
    (e or E, an optional sign, digits).  A fraction or an exponent makes the
    number a float, kept here as its lexeme. *)
Definition scan_sign (s : text) : bool * text :=
  match s with
  | c :: r => if (c =? 45)%N then (true, r) else (false, s)
  | [] => (false, s)
  end.

Definition scan_int (s : text) : option (text * text) :=
  match s with
  | c :: r =>
    if (c =? 48)%N then Some ([c], r)
    else if is_digit c then Some (span_digits s)
    else None
  | [] => None
  end.

Definition scan_frac (s : text) : text * text :=
  match s with
  | c :: r =>
    if (c =? 46)%N then
      match span_digits r with
      | ([], _) => ([], s)
      | (fs, r') => (c :: fs, r')
      end
    else ([], s)
  | [] => ([], s)
  end.

Definition scan_exp (s : text) : text * text :=
  match s with
  | c :: r =>
    if ((c =? 101) || (c =? 69))%N then
      let (sign, r1) :=
        match r with
        | g :: r' => if ((g =? 43) || (g =? 45))%N then ([g], r') else ([], r)
        | [] => ([], r)
        end in
      match span_digits r1 with
      | ([], _) => ([], s)
      | (es, r') => (c :: sign ++ es, r')
      end
    else ([], s)
  | [] => ([], s)
  end.

Definition scan_number (s : text) : option (jval * text) :=
  let (neg, s1) := scan_sign s in
  match scan_int s1 with
  | None => None
  | Some (ds, s2) =>
    let (frac, s3) := scan_frac s2 in
    let (exp, s4) := scan_exp s3 in
    match frac, exp with
    | [], [] =>
      Some (JInt (if neg then - digits_value ds else digits_value ds)%Z, s4)
    | _, _ =>
      Some (JFloat ((if neg then [45%N] else []) ++ ds ++ frac ++ exp), s4)
    end
  end.

Definition lit_null : text := [110; 117; 108; 108]%N.
Definition lit_true : text := [116; 114; 117; 101]%N.
Definition lit_false : text := [102; 97; 108; 115; 101]%N.
Definition lit_nan : text := [78; 97; 78]%N.
Definition lit_inf : text := [73; 110; 102; 105; 110; 105; 116; 121]%N.
Definition lit_neg_inf : text := 45%N :: lit_inf.

(** The constants and numbers of [_scan_once], in its order of attempts. *)
Definition scan_atom (s : text) : option (jval * text) :=
  match strip_prefix lit_null s with
  | Some r => Some (JNull, r)
  | None =>
  match strip_prefix lit_true s with
  | Some r => Some (JBool true, r)
  | None =>
  match strip_prefix lit_false s with
  | Some r => Some (JBool false, r)
  | None =>
  match scan_number s with
  | Some res => Some res
  | None =>
  match strip_prefix lit_nan s with
  | Some r => Some (JFloat lit_nan, r)
  | None =>
  match strip_prefix lit_inf s with
  | Some r => Some (JFloat lit_inf, r)
  | None =>
  match strip_prefix lit_neg_inf s with
  | Some r => Some (JFloat lit_neg_inf, r)
  | None => None
  end end end end end end end.

(** [_scan_once], [JSONObject] and [JSONArray].  The pairs of an object are
    collected into a dictionary as [dict(pairs)] does: a repeated key keeps its
    first place and takes the last value.  [fuel] bounds the number of nested
    calls; the length of the text plus one is always enough. *)
Fixpoint scan_once (fuel : nat) (s : text) {struct fuel}
    : option (jval * text) :=
  match fuel with
  | O => None
  | S f =>
    match s with
    | [] => None
    | c :: r =>
      if (c =? 34)%N then
        match scanstring r with
        | Some (str, rest) => Some (JStr str, rest)
        | None => None
        end
      else if (c =? 123)%N then
        match skip_ws r with
        | c1 :: r1 =>
          if (c1 =? 125)%N then Some (JObj [], r1)
          else if (c1 =? 34)%N then object_loop f [] r1
          else None
        | [] => None
        end
      else if (c =? 91)%N then
        match skip_ws r with
        | c1 :: r1 =>
          if (c1 =? 93)%N then Some (JArr [], r1)
          else array_loop f [] (c1 :: r1)
        | [] => None
        end
      else scan_atom s
    end
  end

with object_loop (fuel : nat) (acc : list (pystr * jval)) (s : text)
    {struct fuel} : option (jval * text) :=
  match fuel with
  | O => None
  | S f =>
    match scanstring s with
    | None => None
    | Some (key, r1) =>
      match skip_ws r1 with
      | c :: r3 =>
        if (c =? 58)%N then
          match scan_once f (skip_ws r3) with
          | None => None
          | Some (v, r5) =>
            let acc' := Dict.set key v acc in
            match skip_ws r5 with
            | c2 :: r7 =>
              if (c2 =? 125)%N then Some (JObj acc', r7)
              else if (c2 =? 44)%N then
                match skip_ws r7 with
                | c3 :: r8 =>
                  if (c3 =? 34)%N then object_loop f acc' r8 else None
                | [] => None
                end
              else None
            | [] => None
            end
          end
        else None
      | [] => None
      end
    end
  end

with array_loop (fuel : nat) (acc : list jval) (s : text) {struct fuel}
    : option (jval * text) :=
  match fuel with
  | O => None
  | S f =>
    match scan_once f s with
    | None => None
    | Some (v, r1) =>
      match skip_ws r1 with
      | c :: r2 =>
        if (c =? 93)%N then Some (JArr (acc ++ [v]), r2)
        else if (c =? 44)%N then array_loop f (acc ++ [v]) (skip_ws r2)
        else None
      | [] => None
      end
    end
  end.

(** [json.loads]: one value between optional white space, and nothing else. *)
Definition loads (s : text) : option jval :=
  match scan_once (S (List.length s)) (skip_ws s) with
  | Some (v, r) =>
    match skip_ws r with
    | [] => Some v
    | _ :: _ => None
    end
  | None => None
  end.

End Json.

Import Json.

(* ------------------------------------------------------------------ *)
(** ** Python numbers: the arithmetic of the results page *)

Module PyNum.

(** An [int] seen as an unrounded binary float. *)
Definition Z2SF (z : Z) : spec_float :=
  match z with
  | Z0 => S754_zero false
  | Zpos p => S754_finite false p 0
  | Zneg p => S754_finite true p 0
  end.

(** [a / b] on integers: the correctly rounded quotient (for [b <> 0] and a
    quotient within the range of floats). *)
Definition truediv (a b : Z) : float :=
  SF2Prim (SFdiv prec emax (Z2SF a) (Z2SF b)).

(** [m / 2^k] rounded to the nearest integer, ties to even. *)
Definition round_half_even (m : Z) (k : Z) : Z :=
  let q := Z.shiftr m k in
  let r := (m - Z.shiftl q k)%Z in
  let half := Z.shiftl 1 (k - 1) in
  if (half <? r)%Z then (q + 1)%Z
  else if (r =? half)%Z && Z.odd q then (q + 1)%Z
  else q.

(** [round(x, 1)] on a float: the exact value is rounded to one decimal,
    ties to even, and the decimal is read back as the nearest float. *)
Definition round1 (x : float) : float :=
  match Prim2SF x with
  | S754_finite s m e =>
    if (0 <=? e)%Z then x
    else
      let q := round_half_even (Zpos m * 10) (- e) in
      let mag := match q with
                 | Zpos p => S754_finite s p 0
                 | _ => S754_zero s
                 end in
      SF2Prim (SFdiv prec emax mag (Z2SF 10))
  | _ => x
  end.

Inductive pynum :=
| PyInt (z : Z)
| PyFloat (f : float).

End PyNum.

(* ------------------------------------------------------------------ *)
(** ** The store: [load_data], [save_data], [get_default_data] *)

Module Store.

(** [term -> translation] of one category, and the whole dataset. *)
Definition Words := Dict.dict pystr.
Definition Dataset := Dict.dict Words.

(** The state of the durable file: absent, or present with its text. *)
Definition FS := option text.

Definition get_default_data : Dataset :=
  [ (py "Гражданское право",
      [ (py "contract", py "договор");
        (py "obligation", py "обязательство");
        (py "property", py "собственность");
        (py "liability", py "ответственность") ]);
    (py "Уголовное право",
      [ (py "crime", py "преступление");
        (py "penalty", py "наказание");
        (py "evidence", py "доказательство");
        (py "suspect", py "подозреваемый") ]);
    (py "Международное право",
      [ (py "treaty", py "договор");
        (py "sovereignty", py "суверенитет");
        (py "diplomacy", py "дипломатия");
        (py "sanction", py "санкция") ]) ].

(** The JSON value a dataset is. *)
Definition words_to_json (ws : Words) : jval :=
  JObj (map (fun kv => (fst kv, JStr (snd kv))) ws).

Definition to_json (d : Dataset) : jval :=
  JObj (map (fun kv => (fst kv, words_to_json (snd kv))) d).

(** The dataset a JSON value is, when it has the layout of the durable
    file: an object of objects of strings. *)
Fixpoint as_words (l : list (pystr * jval)) : option Words :=
  match l with
  | [] => Some []
  | (k, JStr v) :: r =>
    match as_words r with
    | Some ws => Some ((k, v) :: ws)
    | None => None
    end
  | _ :: _ => None
  end.

Fixpoint as_categories (l : list (pystr * jval)) : option Dataset :=
  match l with
  | [] => Some []
  | (k, JObj o) :: r =>
    match as_words o, as_categories r with
    | Some ws, Some d => Some ((k, ws) :: d)
    | _, _ => None
    end
  | _ :: _ => None
  end.

Definition as_dataset (v : jval) : option Dataset :=
  match v with
  | JObj l => as_categories l
  | _ => None
  end.

(** [json.dump(data, f, ensure_ascii=False, indent=2)] on a dataset. *)
Definition dump_words (level : nat) (ws : Words) : text :=
  iterencode_dict encode_basestring level ws.

Definition dump (d : Dataset) : text :=
  iterencode_dict (dump_words 1) 0 d.

(** The chunks of the document: a string is yielded as one chunk. *)
Definition string_chunks (s : pystr) : list text := [encode_basestring s].

Definition dump_chunks (d : Dataset) : list text :=
  iterencode_dict_chunks (iterencode_dict_chunks string_chunks 1) 0 d.

(** [save_data(data)]: [open(..., 'w')] empties the file and [json.dump]
    writes the document chunk by chunk.  When every chunk can be encoded the
    file holds the whole document, [dump data].  Otherwise the write of the
    first string with a lone surrogate raises [UnicodeEncodeError], which
    [save_data] does not catch, and the file is left with the chunks before
    it. *)
Definition save_data (data : Dataset) (fs : FS) : result unit * FS :=
  let (r, written) := write_chunks (dump_chunks data) in (r, Some written).

(** [load_data()]: the value read, and the file afterwards.  An absent file
    is created with the default data; an unreadable one is left as it is.
    The default data has no surrogate, so the [save_data] of the branch for
    an absent file does not raise ([StoreFacts.save_default_data]) and
    [load_data] always returns. *)
Definition load_data (fs : FS) : jval * FS :=
  match fs with
  | Some t =>
    match loads t with
    | Some v => (v, fs)
    | None => (to_json get_default_data, fs)
    end
  | None =>
    let data := get_default_data in
    (to_json data, snd (save_data data fs))
  end.

(** The data of a request, when the stored document has the layout of a
    dataset.  A valid JSON document of another layout is outside the model of
    the handlers that use the data ([None]). *)
Definition load_dataset (fs : FS) : option (Dataset * FS) :=
  let (v, fs') := load_data fs in
  match as_dataset v with
  | Some d => Some (d, fs')
  | None => None
  end.

End Store.
Import Store.

(* ------------------------------------------------------------------ *)
(** ** The session *)

Module Session.

(** The keys of the Flask session; a key that was never set is [None]. *)
Record state := {
  test_words : option (list (pystr * pystr));
  current_index : option Z;
  score : option Z;
  category : option pystr
}.

(** The session of a browser that never started a quiz. *)
Definition empty : state :=
  {| test_words := None; current_index := None; score := None;
     category := None |}.

(** [session.get(key, default)] *)
Definition get {A} (field : state -> option A) (default : A) (s : state) : A :=
  match field s with
  | Some a => a
  | None => default
  end.

Definition set_score (z : Z) (s : state) : state :=
  {| test_words := test_words s; current_index := current_index s;
     score := Some z; category := category s |}.

Definition set_current_index (z : Z) (s : state) : state :=
  {| test_words := test_words s; current_index := Some z;
     score := score s; category := category s |}.

(** The fields as the specification names them. *)
Definition items (s : state) : list (pystr * pystr) := get test_words [] s.
Definition position (s : state) : Z := get current_index 0%Z s.
Definition points (s : state) : Z := get score 0%Z s.

End Session.

(* ------------------------------------------------------------------ *)
(** ** The handlers *)

(** [l[i]] with Python's negative indices. *)
Definition py_index {A} (l : list A) (i : Z) : option A :=
  let n := Z.of_nat (List.length l) in
  if (0 <=? i)%Z then nth_error l (Z.to_nat i)
  else if (- n <=? i)%Z then nth_error l (Z.to_nat (n + i))
  else None.

Definition is_empty_str (s : pystr) : bool :=
  match s with [] => true | _ => false end.

(** [data[category][english] = russian], for a category that is there (the
    handlers create it first). *)
Definition set_word (category english russian : pystr) (data : Dataset)
    : Dataset :=
  match Dict.get category data with
  | Some ws => Dict.set category (Dict.set english russian ws) data
  | None => data
  end.

(** [if category not in data: data[category] = {}] *)
Definition ensure_category (category : pystr) (data : Dataset) : Dataset :=
  if negb (Dict.mem category data) then Dict.set category [] data else data.

(** The word branch of DELETE: the entry is removed when it is there, and
    the category with it when it becomes empty. *)
Definition delete_word (category english : pystr) (data : Dataset) : Dataset :=
  match Dict.get category data with
  | Some ws =>
    if Dict.mem english ws then
      let ws' := Dict.del english ws in
      if Dict.is_empty ws' then Dict.del category data
      else Dict.set category ws' data
    else data
  | None => data
  end.

(** The category branch of DELETE. *)
Definition delete_category (category : pystr) (data : Dataset) : Dataset :=
  if Dict.mem category data then Dict.del category data else data.

Inductive TestResponse :=
| RedirectTesting
| RenderTest (category : pystr) (total : nat) (current : nat).

(** What the URL map does with a request: no rule matches (404), or the view
    function runs. *)
Inductive Routed (A : Type) :=
| NotFound
| Handled (a : A).
Arguments NotFound {A}.
Arguments Handled {A} a.

Inductive CheckResponse :=
| Finished
| Answered (correct : bool) (correct_answer : pystr) (finished : bool).

Record ResultsPage := {
  page_score : Z;
  page_total : Z;
  page_category : pystr;
  page_percentage : PyNum.pynum
}.

Record AddWordForm := {
  form_english : option pystr;
  form_russian : option pystr;
  form_category : option pystr;
  form_new_category : option pystr
}.

Record AddWordPage := {
  categories : list pystr;
  error : option pystr;
  success : option pystr
}.

Inductive ApiRequest :=
| GET
| POST (english russian category : pystr)
| DELETE (category : pystr) (english : option pystr).

Inductive ApiResponse :=
| JsonData (data : Dataset)
| JsonSuccess.

(** [request.form.get(key, '')] and [request.json.get('answer', '')] *)
Definition field (f : option pystr) : pystr :=
  match f with Some s => s | None => [] end.

Section Handlers.

Context {CM : CaseMap}.

(** The view function [test(category)].  Flask calls it with the names that
    the URL rule lets through, see [route_test] below. *)
Definition test (category : pystr) (fs : FS) (s : Session.state)
    : option (TestResponse * FS * Session.state) :=
  match load_dataset fs with
  | None => None
  | Some (data, fs1) =>
    match Dict.get category data with
    | None => Some (RedirectTesting, fs1, s)
    | Some ws =>
      let words := ws in
      if Dict.is_empty words then Some (RedirectTesting, fs1, s)
      else
        Some (RenderTest category (List.length words) 1, fs1,
              {| Session.test_words := Some words;
                 Session.current_index := Some 0%Z;
                 Session.score := Some 0%Z;
                 Session.category := Some category |})
    end
  end.

(** [/check_answer] *)
Definition check_answer (answer : option pystr) (fs : FS) (s : Session.state)
    : result CheckResponse * FS * Session.state :=
  let (data, fs1) := load_data fs in
  let user_answer := lower (strip (field answer)) in
  let words := Session.get Session.test_words [] s in
  let current_index := Session.get Session.current_index 0%Z s in
  if (Z.of_nat (List.length words) <=? current_index)%Z
  then (Ok Finished, fs1, s)
  else
    match py_index words current_index with
    | None => (Raise IndexError, fs1, s)
    | Some (current_word, correct_translation) =>
      let is_correct := PyStr.eqb user_answer (lower correct_translation) in
      let s1 :=
        if is_correct
        then Session.set_score (Session.get Session.score 0%Z s + 1)%Z s
        else s in
      let s2 := Session.set_current_index (current_index + 1)%Z s1 in
      (Ok (Answered is_correct correct_translation
             (Z.of_nat (List.length words)
                <=? Session.get Session.current_index 0%Z s2)%Z),
       fs1, s2)
    end.

(** [/results] *)
Definition results (s : Session.state) : ResultsPage * Session.state :=
  let score := Session.get Session.score 0%Z s in
  let total := Z.of_nat (List.length (Session.get Session.test_words [] s)) in
  let category := Session.get Session.category [] s in
  ({| page_score := score;
      page_total := total;
      page_category := category;
      page_percentage :=
        if (0 <? total)%Z
        then PyNum.PyFloat
               (PyNum.round1 (PrimFloat.mul (PyNum.truediv score total) 100%float))
        else PyNum.PyInt 0 |}, s).

Definition msg_fields_required : pystr :=
  py "Все поля обязательны для заполнения".

Definition msg_category_required : pystr :=
  py "Необходимо выбрать или создать категорию".

Definition msg_added (english final_category : pystr) : pystr :=
  py "Слово '" ++ english ++ py "' добавлено в категорию '"
    ++ final_category ++ py "'".

(** [/add_word]: the form of a POST request, or no form for GET. *)
Definition add_word (request_form : option AddWordForm) (fs : FS)
    : option (result AddWordPage * FS) :=
  match load_dataset fs with
  | None => None
  | Some (data, fs1) =>
    match request_form with
    | Some form =>
      let english := lower (strip (field (form_english form))) in
      let russian := strip (field (form_russian form)) in
      let category := strip (field (form_category form)) in
      let new_category := strip (field (form_new_category form)) in
      if is_empty_str english || is_empty_str russian then
        Some (Ok {| categories := Dict.keys data;
                    error := Some msg_fields_required; success := None |},
              fs1)
      else
        let final_category :=
          if negb (is_empty_str new_category) then new_category
          else category in
        if is_empty_str final_category then
          Some (Ok {| categories := Dict.keys data;
                      error := Some msg_category_required; success := None |},
                fs1)
        else
          let data1 := ensure_category final_category data in
          let data2 := set_word final_category english russian data1 in
          match save_data data2 fs1 with
          | (Ok _, fs2) =>
            Some (Ok {| categories := Dict.keys data2; error := None;
                        success := Some (msg_added english final_category) |},
                  fs2)
          | (Raise e, fs2) => Some (Raise e, fs2)
          end
    | None =>
      Some (Ok {| categories := Dict.keys data; error := None;
                  success := None |}, fs1)
    end
  end.

(** [/api/words] *)
Definition api_words (req : ApiRequest) (fs : FS)
    : option (result ApiResponse * FS) :=
  match load_dataset fs with
  | None => None
  | Some (data, fs1) =>
    match req with
    | GET => Some (Ok (JsonData data), fs1)
    | POST english russian category =>
      let data1 := ensure_category category data in
      let data2 := set_word category english russian data1 in
      match save_data data2 fs1 with
      | (Ok _, fs2) => Some (Ok JsonSuccess, fs2)
      | (Raise e, fs2) => Some (Raise e, fs2)
      end
    | DELETE category english =>
      let data1 :=
        if negb (is_empty_str (field english))
        then delete_word category (field english) data
        else delete_category category data in
      match save_data data1 fs1 with
      | (Ok _, fs2) => Some (Ok JsonSuccess, fs2)
      | (Raise e, fs2) => Some (Raise e, fs2)
      end
    end
  end.

(** The URL rule [/test/<category>]: the converter of a plain variable
    matches one path segment, at least one character and no slash.  A path
    that matches no rule is answered with 404 and no view function runs. *)
Definition is_segment (name : pystr) : bool :=
  negb (is_empty_str name) && negb (existsb (N.eqb 47) name).

Definition route_test (category : pystr) (fs : FS) (s : Session.state)
    : option (Routed TestResponse * FS * Session.state) :=
  if is_segment category then
    match test category fs s with
    | Some (r, fs', s') => Some (Handled r, fs', s')
    | None => None
    end
  else Some (NotFound, fs, s).

End Handlers.

(** The pages that only show the data. *)


(** [/encyclopedia]: the page shows the whole dataset. *)
Definition encyclopedia (fs : FS) : option (Dataset * FS) := load_dataset fs.

(** [/testing]: the page lists [list(data.keys())]. *)
Definition testing (fs : FS) : option (list pystr * FS) :=
  match load_dataset fs with
  | Some (data, fs1) => Some (Dict.keys data, fs1)
  | None => None
  end.

(** [/edit_words]: the page shows the whole dataset. *)
Definition edit_words (fs : FS) : option (Dataset * FS) := load_dataset fs.

(* ------------------------------------------------------------------ *)
(** ** The vocabulary of the statements *)

(** A dataset is a mapping: no category name and no term is repeated. *)
Definition is_mapping (d : Dataset) : Prop :=
  NoDup (Dict.keys d) /\ Forall (fun kv => NoDup (Dict.keys (snd kv))) d.

(** No category maps to an empty word mapping. *)
Definition no_empty_category (d : Dataset) : Prop :=
  Forall (fun kv => snd kv <> []) d.

(** A well-formed dataset: a mapping without empty categories. *)
Definition well_formed (d : Dataset) : Prop :=
  is_mapping d /\ no_empty_category d.

(** The same, as a test that computes. *)
Fixpoint nodupb (l : list pystr) : bool :=
  match l with
  | [] => true
  | x :: r => negb (existsb (PyStr.eqb x) r) && nodupb r
  end.

Definition well_formedb (d : Dataset) : bool :=
  nodupb (Dict.keys d)
  && forallb (fun kv => nodupb (Dict.keys (snd kv))
                        && negb (Dict.is_empty (snd kv))) d.

(** The dataset after an upsert of [english -> russian] under [category]. *)
Definition upserted (category english russian : pystr) (d : Dataset)
    : Dataset :=
  set_word category english russian (ensure_category category d).

(** The dataset after one DELETE request. *)
Definition after_delete (category : pystr) (english : option pystr)
    (d : Dataset) : Dataset :=
  if negb (is_empty_str (field english))
  then delete_word category (field english) d
  else delete_category category d.

(** The file after [save_data(d)]. *)
Definition saved (d : Dataset) (fs : FS) : FS := snd (save_data d fs).

(** Every category name, term and translation of the dataset can be encoded
    in UTF-8: none holds a lone surrogate. *)
Definition encodable_words (ws : Words) : bool :=
  forallb (fun kv => encodable (fst kv) && encodable (snd kv)) ws.

Definition encodable_data (d : Dataset) : bool :=
  forallb (fun kv => encodable (fst kv) && encodable_words (snd kv)) d.

(** The dataset after a sequence of DELETE requests. *)
Definition after_deletes (reqs : list (pystr * option pystr)) (d : Dataset)
    : Dataset :=
  fold_left (fun data req => after_delete (fst req) (snd req) data) reqs d.

(** A run of DELETE requests on [/api/words], each given by its category and
    its optional term. *)
Fixpoint run_deletes (reqs : list (pystr * option pystr)) (fs : FS)
    : option FS :=
  match reqs with
  | [] => Some fs
  | (category, english) :: rest =>
    match api_words (DELETE category english) fs with
    | Some (_, fs') => run_deletes rest fs'
    | None => None
    end
  end.

(** The invariant of the quiz session. *)
Definition session_invariant (s : Session.state) : Prop :=
  (0 <= Session.position s <= Z.of_nat (List.length (Session.items s)))%Z
  /\ (0 <= Session.points s <= Session.position s)%Z.

(** The session after an answer to the word at the cursor. *)
Definition answered (is_correct : bool) (s : Session.state) : Session.state :=
  Session.set_current_index (Session.position s + 1)%Z
    (if is_correct then Session.set_score (Session.points s + 1)%Z s else s).

Section Reachable.

Context {CM : CaseMap}.

(** The sessions a browser can hold: it starts with none of the keys, and
    every request to [/test/<category>] or [/check_answer] is served against
    whatever the durable file holds at that moment.  The view function [test]
    is taken at every name, which covers the names that the URL rule lets
    through. *)
Inductive reachable : Session.state -> Prop :=
| reach_empty : reachable Session.empty
| reach_test (s : Session.state) (category : pystr) (fs : FS)
    (r : TestResponse) (fs' : FS) (s' : Session.state) :
    reachable s -> test category fs s = Some (r, fs', s') -> reachable s'
| reach_check (s : Session.state) (answer : option pystr) (fs : FS)
    (r : result CheckResponse) (fs' : FS) (s' : Session.state) :
    reachable s -> check_answer answer fs s = (r, fs', s') -> reachable s'.

End Reachable.

(** A session in the middle of a two-word quiz, used in the examples. *)
Definition two_words : list (pystr * pystr) :=
  [(py "crime", py "преступление"); (py "penalty", py "наказание")].

Definition quiz_at (i score : Z) : Session.state :=
  {| Session.test_words := Some two_words;
     Session.current_index := Some i;
     Session.score := Some score;
     Session.category := Some (py "Уголовное право") |}.

(** A form with padding and capitals, used in the examples. *)
Definition padded_form : AddWordForm :=
  {| form_english := Some (py "  Tort ");
     form_russian := Some (py " деликт  ");
     form_category := Some (py "Гражданское право");
     form_new_category := Some (py " Деликты ") |}.

(** A file that holds an unfinished document. *)
Definition corrupt_file : FS := Some (py "{").

(** A string that does not start with white space. *)
Definition starts_clean (s : pystr) : Prop :=
  match s with
  | [] => True
  | c :: _ => isspace c = false
  end.

(** The dataset the next request sees, when the stored document has the
    layout of a dataset. *)
Definition stored (fs : FS) : option Dataset :=
  option_map fst (load_dataset fs).

(** A request that was answered with status 500 because its write raised:
    the file is left with the start of a document, which does not parse, so
    that the next request reads the default data. *)
Definition write_failed {A} (answer : option (result A * FS)) : Prop :=
  exists written,
    answer = Some (Raise UnicodeEncodeError, Some written)
    /\ loads written = None
    /\ stored (Some written) = Some get_default_data.

(** The words of a category, none when the category is not there. *)
Definition words_of (category : pystr) (d : Dataset) : Words :=
  match Dict.get category d with
  | Some ws => ws
  | None => []
  end.

(** The translation stored for a term of a category. *)
Definition translation_of (category english : pystr) (d : Dataset)
    : option pystr :=
  match Dict.get category d with
  | Some ws => Dict.get english ws
  | None => None
  end.

(** No object of a JSON value repeats a key. *)
Inductive keys_unique : jval -> Prop :=
| ku_null : keys_unique JNull
| ku_bool (b : bool) : keys_unique (JBool b)
| ku_int (z : Z) : keys_unique (JInt z)
| ku_float (lexeme : text) : keys_unique (JFloat lexeme)
| ku_str (s : pystr) : keys_unique (JStr s)
| ku_arr (l : list jval) : Forall keys_unique l -> keys_unique (JArr l)
| ku_obj (d : list (pystr * jval)) :
    NoDup (map fst d) ->
    Forall (fun kv => keys_unique (snd kv)) d ->
    keys_unique (JObj d).


Section Runs.

Context {CM : CaseMap}.






(** Is the answer right for the word?  The test of [check_answer]. *)
Definition is_right (answer : option pystr) (word : pystr * pystr) : bool :=
  PyStr.eqb (lower (strip (field answer))) (lower (snd word)).

(** The number of right answers, the answers taken against the words in
    order. *)
Fixpoint count_right (answers : list (option pystr))
    (words : list (pystr * pystr)) : Z :=
  match answers, words with
  | a :: answers', w :: words' =>
    ((if is_right a w then 1 else 0) + count_right answers' words')%Z
  | _, _ => 0%Z
  end.

(** The session after a run of answers. *)
Fixpoint submit_all (answers : list (option pystr)) (fs : FS)
    (s : Session.state) : Session.state :=
  match answers with
  | [] => s
  | a :: rest =>
    let '(_, fs', s') := check_answer a fs s in submit_all rest fs' s'
  end.

End Runs.

(** *** Auxiliary definitions of the round trip *)

Section Members.

Variables (V : Type) (enc : V -> text) (tojson : V -> jval).
Variables (need level : nat).

(** What the printer writes for a value is read back as the value, whatever
    follows, and it does not start with white space. *)
Definition reads_back (v : V) : Prop :=
  (forall X, skip_ws (enc v ++ X) = enc v ++ X)
  /\ (forall f X, need <= f -> scan_once f (enc v ++ X) = Some (tojson v, X)).

Definition item (kv : pystr * V) : text :=
  encode_basestring (fst kv) ++ key_separator ++ enc (snd kv).

(** The items of a dictionary after the opening quote of the first key. *)
Fixpoint members (items : list (pystr * V)) : text :=
  match items with
  | [] => []
  | kv :: r =>
    escape (fst kv) ++ 34%N :: key_separator ++ enc (snd kv)
      ++ match r with
         | [] => []
         | _ :: _ => item_separator (S level) ++ 34%N :: members r
         end
  end.

Definition collect (items : list (pystr * V)) (acc : list (pystr * jval))
    : list (pystr * jval) :=
  fold_left (fun a kv => Dict.set (fst kv) (tojson (snd kv)) a) items acc.

End Members.

(* ------------------------------------------------------------------ *)
(** * Properties *)

(** ** Strings and dictionaries *)

Module PyStrFacts.

Lemma eqb_eq (a b : pystr) : PyStr.eqb a b = true <-> a = b.
Proof.
  revert b; induction a as [|x a IH]; intros [|y b]; simpl;
    try (split; [discriminate | discriminate]); try tauto.
  rewrite andb_true_iff, N.eqb_eq, IH.
  split; [intros [-> ->]; reflexivity | intros H; inversion H; auto].
Qed.

Lemma eqb_refl (a : pystr) : PyStr.eqb a a = true.
Proof. apply eqb_eq; reflexivity. Qed.

Lemma eqb_neq (a b : pystr) : PyStr.eqb a b = false <-> a <> b.
Proof.
  split.
  - intros H E. apply eqb_eq in E. congruence.
  - intros H. destruct (PyStr.eqb a b) eqn:E; [|reflexivity].
    apply eqb_eq in E. contradiction.
Qed.

End PyStrFacts.

Module DictFacts.
Import PyStrFacts.

Lemma get_none_not_in {V} (k : pystr) (d : Dict.dict V) :
  Dict.get k d = None <-> ~ In k (Dict.keys d).
Proof.
  induction d as [|[k' v] d IH]; simpl.
  - tauto.
  - destruct (PyStr.eqb k k') eqn:E.
    + apply eqb_eq in E. subst. split; [discriminate | intros H; tauto].
    + apply eqb_neq in E. rewrite IH. split.
      * intros H [H1 | H1]; [congruence | tauto].
      * tauto.
Qed.

Lemma set_fresh {V} (k : pystr) (v : V) (d : Dict.dict V) :
  ~ In k (Dict.keys d) -> Dict.set k v d = d ++ [(k, v)].
Proof.
  induction d as [|[k' v'] d IH]; simpl; intros H.
  - reflexivity.
  - destruct (PyStr.eqb k k') eqn:E.
    + apply eqb_eq in E. subst. tauto.
    + rewrite IH by tauto. reflexivity.
Qed.

Lemma keys_set {V} (k : pystr) (v : V) (d : Dict.dict V) :
  Dict.keys (Dict.set k v d)
  = if Dict.mem k d then Dict.keys d else Dict.keys d ++ [k].
Proof.
  unfold Dict.mem.
  induction d as [|[k' v'] d IH]; simpl.
  - reflexivity.
  - destruct (PyStr.eqb k k') eqn:E; simpl.
    + reflexivity.
    + rewrite IH. destruct (Dict.get k d); reflexivity.
Qed.

Lemma get_set_same {V} (k : pystr) (v : V) (d : Dict.dict V) :
  Dict.get k (Dict.set k v d) = Some v.
Proof.
  induction d as [|[k' v'] d IH]; simpl.
  - rewrite eqb_refl. reflexivity.
  - destruct (PyStr.eqb k k') eqn:E; simpl; rewrite E; auto.
Qed.

Lemma get_set_other {V} (k k0 : pystr) (v : V) (d : Dict.dict V) :
  k0 <> k -> Dict.get k0 (Dict.set k v d) = Dict.get k0 d.
Proof.
  intros N. induction d as [|[k' v'] d IH]; simpl.
  - apply eqb_neq in N. rewrite N. reflexivity.
  - destruct (PyStr.eqb k k') eqn:E; simpl.
    + apply eqb_eq in E. subst k'.
      apply eqb_neq in N. rewrite N. reflexivity.
    + rewrite IH. reflexivity.
Qed.

Lemma in_del {V} (k : pystr) (kv : pystr * V) (d : Dict.dict V) :
  In kv (Dict.del k d) -> In kv d.
Proof.
  induction d as [|[k' v'] d IH]; simpl; [tauto|].
  destruct (PyStr.eqb k k'); simpl; tauto.
Qed.

Lemma in_set {V} (k : pystr) (v : V) (kv : pystr * V) (d : Dict.dict V) :
  In kv (Dict.set k v d) -> In kv d \/ snd kv = v.
Proof.
  induction d as [|[k' v'] d IH]; simpl.
  - intros [<- | []]. right; reflexivity.
  - destruct (PyStr.eqb k k'); simpl.
    + intros [<- | H]; [right; reflexivity | left; right; exact H].
    + intros [<- | H]; [left; left; reflexivity | ].
      destruct (IH H); [left; right; assumption | right; assumption].
Qed.

Lemma keys_del_nodup {V} (k : pystr) (d : Dict.dict V) :
  NoDup (Dict.keys d) -> NoDup (Dict.keys (Dict.del k d)).
Proof.
  induction d as [|[k' v'] d IH]; simpl; intros H; [constructor|].
  inversion H as [|? ? Hn Hd]; subst.
  destruct (PyStr.eqb k k'); simpl; [assumption|].
  constructor; [|auto].
  intros Hin. apply Hn.
  unfold Dict.keys in *. apply in_map_iff in Hin.
  destruct Hin as [kv [E Hin]]. apply in_del in Hin.
  apply in_map_iff. exists kv. auto.
Qed.

Lemma keys_set_nodup {V} (k : pystr) (v : V) (d : Dict.dict V) :
  NoDup (Dict.keys d) -> NoDup (Dict.keys (Dict.set k v d)).
Proof.
  intros H. rewrite keys_set. unfold Dict.mem.
  destruct (Dict.get k d) eqn:E; [assumption|].
  apply get_none_not_in in E.
  apply NoDup_app; [assumption | repeat constructor; simpl; tauto | ].
  intros x Hx [<- | []]. contradiction.
Qed.

End DictFacts.

(** ** The printer and the parser are inverse on what the program writes *)

Module JsonFacts.
Import PyStrFacts DictFacts.

Lemma hex4_hexdigit (c : N) :
  (c < 32)%N ->
  hex4 48%N 48%N (hexdigit (c / 16)) (hexdigit (c mod 16)) = Some c.
Proof.
  intros H.
  destruct c as [|p]; [reflexivity|].
  do 5 (destruct p as [p|p|]; try reflexivity); lia.
Qed.

Lemma small_not_high (c : N) : (c < 32)%N -> is_high c = false.
Proof.
  intros H. unfold is_high.
  destruct (N.leb_spec 55296%N c); [lia | reflexivity].
Qed.

(** One escaped character is read back as the character. *)
Lemma scanstring_escape_char (c : char) (t : text) :
  scanstring (escape_char c ++ t) = cons_char c (scanstring t).
Proof.
  unfold escape_char.
  destruct (N.eqb_spec c 92%N) as [->|N92]; [reflexivity|].
  destruct (N.eqb_spec c 34%N) as [->|N34]; [reflexivity|].
  destruct (N.eqb_spec c 8%N) as [->|N8]; [reflexivity|].
  destruct (N.eqb_spec c 12%N) as [->|N12]; [reflexivity|].
  destruct (N.eqb_spec c 10%N) as [->|N10]; [reflexivity|].
  destruct (N.eqb_spec c 13%N) as [->|N13]; [reflexivity|].
  destruct (N.eqb_spec c 9%N) as [->|N9]; [reflexivity|].
  destruct (N.ltb_spec c 32%N) as [L|L].
  - cbn [app scanstring N.eqb Pos.eqb].
    rewrite (hex4_hexdigit L), (small_not_high L). reflexivity.
  - cbn [app scanstring].
    rewrite (proj2 (N.eqb_neq c 34%N) N34), (proj2 (N.eqb_neq c 92%N) N92).
    rewrite (proj2 (N.ltb_ge c 32%N) L). reflexivity.
Qed.

(** An escaped string up to its closing quote is read back as the string. *)
Lemma scanstring_escape (s : pystr) (rest : text) :
  scanstring (escape s ++ 34%N :: rest) = Some (s, rest).
Proof.
  induction s as [|c s IH]; [reflexivity|].
  simpl escape. rewrite <- app_assoc, scanstring_escape_char, IH.
  reflexivity.
Qed.

Lemma skip_ws_spaces (n : nat) (t : text) :
  skip_ws (repeat 32%N n ++ t) = skip_ws t.
Proof. induction n; simpl; auto. Qed.

Lemma skip_ws_newline_indent (level : nat) (t : text) :
  skip_ws (newline_indent level ++ t) = skip_ws t.
Proof. unfold newline_indent. simpl. apply skip_ws_spaces. Qed.

Lemma skip_ws_nonspace (c : char) (t : text) :
  is_ws c = false -> skip_ws (c :: t) = c :: t.
Proof. intros H. simpl. rewrite H. reflexivity. Qed.

(** *** The fuel of the parser is never the reason of a failure *)

Lemma skip_ws_length (s : text) : List.length (skip_ws s) <= List.length s.
Proof.
  induction s as [|c r IH]; simpl; [lia|].
  destruct (is_ws c); simpl; lia.
Qed.

Lemma cons_char_some (c : char) (o : option (pystr * text)) (k : pystr)
    (r : text) :
  cons_char c o = Some (k, r) -> exists k', o = Some (k', r).
Proof.
  destruct o as [[k' r']|]; simpl; [|discriminate].
  intros H. inversion H; subst. eauto.
Qed.

Lemma scanstring_length (s : text) (k : pystr) (r : text) :
  scanstring s = Some (k, r) -> List.length r < List.length s.
Proof.
  assert (Hle : List.length s <= List.length s) by lia.
  revert Hle. generalize (List.length s) at 2. intros n. revert s k r.
  induction n as [|n IH]; intros s k r Hle H.
  - destruct s; [discriminate H | simpl in Hle; lia].
  - assert (Hrec : forall (c : char) (t : text) (k' : pystr),
               List.length t <= n ->
               cons_char c (scanstring t) = Some (k', r) ->
               List.length r < List.length t).
    { intros c t k' Ht Hc. apply cons_char_some in Hc.
      destruct Hc as [k0 Hc]. eapply IH; eassumption. }
    destruct s as [|c s]; [discriminate H|].
    cbn [scanstring] in H. cbn [List.length] in *.
    destruct (c =? 34)%N; [inversion H; subst; lia|].
    destruct (c =? 92)%N.
    + destruct s as [|e r1]; [discriminate H|]. cbn [List.length] in *.
      destruct (e =? 117)%N.
      * destruct r1 as [|h1 [|h2 [|h3 [|h4 r2]]]]; try discriminate H.
        cbn [List.length] in *.
        destruct (hex4 h1 h2 h3 h4) as [uni|]; [|discriminate H].
        destruct (is_high uni).
        -- destruct r2 as [|b1 [|b2 [|g1 [|g2 [|g3 [|g4 r3]]]]]];
             cbn [List.length] in *;
             try (apply Hrec in H; cbn [List.length] in *; lia).
           destruct ((b1 =? 92) && (b2 =? 117))%N.
           ++ destruct (hex4 g1 g2 g3 g4) as [uni2|]; [|discriminate H].
              destruct (is_low uni2);
                apply Hrec in H; cbn [List.length] in *; lia.
           ++ apply Hrec in H; cbn [List.length] in *; lia.
        -- apply Hrec in H; lia.
      * destruct (backslash e); [|discriminate H].
        apply Hrec in H; lia.
    + destruct (c <? 32)%N; [discriminate H|].
      apply Hrec in H; lia.
Qed.

Lemma strip_prefix_length (p s r : text) :
  strip_prefix p s = Some r -> List.length s = List.length p + List.length r.
Proof.
  revert s. induction p as [|a p IH]; intros s H; simpl in H.
  - inversion H; subst. reflexivity.
  - destruct s as [|b s]; [discriminate H|].
    destruct (a =? b)%N; [|discriminate H].
    simpl. rewrite (IH _ H). reflexivity.
Qed.

Lemma span_digits_length (s ds r : text) :
  span_digits s = (ds, r) -> List.length r <= List.length s.
Proof.
  revert ds r. induction s as [|c s IH]; intros ds r H; simpl in H.
  - inversion H; subst. simpl. lia.
  - destruct (is_digit c).
    + destruct (span_digits s) as [ds' r'] eqn:E.
      inversion H; subst. specialize (IH _ _ eq_refl). simpl. lia.
    + inversion H; subst. lia.
Qed.

Lemma span_digits_cons (c : char) (s ds r : text) :
  span_digits (c :: s) = (ds, r) -> is_digit c = true ->
  List.length r <= List.length s.
Proof.
  simpl. intros H D. rewrite D in H.
  destruct (span_digits s) as [ds' r'] eqn:E.
  inversion H; subst. eapply span_digits_length; eassumption.
Qed.

Lemma scan_sign_length (s : text) (neg : bool) (r : text) :
  scan_sign s = (neg, r) -> List.length r <= List.length s.
Proof.
  unfold scan_sign. destruct s as [|c s]; [|destruct (c =? 45)%N];
    intros H; inversion H; subst; simpl; lia.
Qed.

Lemma scan_int_length (s ds r : text) :
  scan_int s = Some (ds, r) -> List.length r < List.length s.
Proof.
  unfold scan_int. destruct s as [|c s]; [discriminate|].
  destruct (c =? 48)%N.
  - intros H. inversion H; subst. simpl. lia.
  - destruct (is_digit c) eqn:D; [|discriminate].
    intros H. inversion H as [E]. apply span_digits_cons in E; [|exact D].
    simpl. lia.
Qed.

Lemma scan_frac_length (s fs r : text) :
  scan_frac s = (fs, r) -> List.length r <= List.length s.
Proof.
  unfold scan_frac. destruct s as [|c s]; [intros H; inversion H; subst; lia|].
  destruct (c =? 46)%N; [|intros H; inversion H; subst; lia].
  destruct (span_digits s) as [[|d ds] r'] eqn:E; intros H;
    inversion H; subst; [lia|].
  apply span_digits_length in E. simpl. lia.
Qed.

Lemma scan_exp_length (s es r : text) :
  scan_exp s = (es, r) -> List.length r <= List.length s.
Proof.
  unfold scan_exp. destruct s as [|c s]; [intros H; inversion H; subst; lia|].
  destruct ((c =? 101) || (c =? 69))%N; [|intros H; inversion H; subst; lia].
  destruct (match s with
            | [] => ([], s)
            | g :: r' =>
              if ((g =? 43) || (g =? 45))%N then ([g], r') else ([], s)
            end) as [sign r1] eqn:Esign.
  assert (Hr1 : List.length r1 <= List.length s).
  { destruct s as [|g s']; [inversion Esign; subst; lia|].
    destruct ((g =? 43) || (g =? 45))%N; inversion Esign; subst; simpl; lia. }
  destruct (span_digits r1) as [[|d ds] r'] eqn:E; intros H;
    inversion H; subst; [lia|].
  apply span_digits_length in E. simpl. lia.
Qed.

Lemma scan_number_length (s : text) (v : jval) (r : text) :
  scan_number s = Some (v, r) -> List.length r < List.length s.
Proof.
  unfold scan_number.
  destruct (scan_sign s) as [neg s1] eqn:E1.
  destruct (scan_int s1) as [[ds s2]|] eqn:E2; [|discriminate].
  destruct (scan_frac s2) as [frac s3] eqn:E3.
  destruct (scan_exp s3) as [exp s4] eqn:E4.
  apply scan_sign_length in E1. apply scan_int_length in E2.
  apply scan_frac_length in E3. apply scan_exp_length in E4.
  destruct frac, exp; intros H; inversion H; subst; lia.
Qed.

Lemma scan_atom_length (s : text) (v : jval) (r : text) :
  scan_atom s = Some (v, r) -> List.length r < List.length s.
Proof.
  unfold scan_atom.
  destruct (strip_prefix lit_null s) eqn:E1;
    [apply strip_prefix_length in E1; intros H; inversion H; subst;
     simpl in E1; lia|].
  destruct (strip_prefix lit_true s) eqn:E2;
    [apply strip_prefix_length in E2; intros H; inversion H; subst;
     simpl in E2; lia|].
  destruct (strip_prefix lit_false s) eqn:E3;
    [apply strip_prefix_length in E3; intros H; inversion H; subst;
     simpl in E3; lia|].
  destruct (scan_number s) as [[v' r']|] eqn:E4;
    [apply scan_number_length in E4; intros H; inversion H; subst; lia|].
  destruct (strip_prefix lit_nan s) eqn:E5;
    [apply strip_prefix_length in E5; intros H; inversion H; subst;
     simpl in E5; lia|].
  destruct (strip_prefix lit_inf s) eqn:E6;
    [apply strip_prefix_length in E6; intros H; inversion H; subst;
     simpl in E6; lia|].
  destruct (strip_prefix lit_neg_inf s) eqn:E7;
    [apply strip_prefix_length in E7; intros H; inversion H; subst;
     simpl in E7; lia|].
  discriminate.
Qed.

Lemma object_loop_eq (f : nat) (acc : list (pystr * jval)) (s : text) :
  object_loop (S f) acc s =
  match scanstring s with
  | None => None
  | Some (key, r1) =>
    match skip_ws r1 with
    | c :: r3 =>
      if (c =? 58)%N then
        match scan_once f (skip_ws r3) with
        | None => None
        | Some (v, r5) =>
          match skip_ws r5 with
          | c2 :: r7 =>
            if (c2 =? 125)%N then Some (JObj (Dict.set key v acc), r7)
            else if (c2 =? 44)%N then
              match skip_ws r7 with
              | c3 :: r8 =>
                if (c3 =? 34)%N
                then object_loop f (Dict.set key v acc) r8 else None
              | [] => None
              end
            else None
          | [] => None
          end
        end
      else None
    | [] => None
    end
  end.
Proof. reflexivity. Qed.

Lemma array_loop_eq (f : nat) (acc : list jval) (s : text) :
  array_loop (S f) acc s =
  match scan_once f s with
  | None => None
  | Some (v, r1) =>
    match skip_ws r1 with
    | c :: r2 =>
      if (c =? 93)%N then Some (JArr (acc ++ [v]), r2)
      else if (c =? 44)%N then array_loop f (acc ++ [v]) (skip_ws r2)
      else None
    | [] => None
    end
  end.
Proof. reflexivity. Qed.

Lemma scan_once_eq (f : nat) (s : text) :
  scan_once (S f) s =
  match s with
  | [] => None
  | c :: r =>
    if (c =? 34)%N then
      match scanstring r with
      | Some (str, rest) => Some (JStr str, rest)
      | None => None
      end
    else if (c =? 123)%N then
      match skip_ws r with
      | c1 :: r1 =>
        if (c1 =? 125)%N then Some (JObj [], r1)
        else if (c1 =? 34)%N then object_loop f [] r1
        else None
      | [] => None
      end
    else if (c =? 91)%N then
      match skip_ws r with
      | c1 :: r1 =>
        if (c1 =? 93)%N then Some (JArr [], r1)
        else array_loop f [] (c1 :: r1)
      | [] => None
      end
    else scan_atom s
  end.
Proof. reflexivity. Qed.

(** More fuel does not change a result. *)
Lemma fuel_step (f : nat) :
  (forall s x, scan_once f s = Some x -> scan_once (S f) s = Some x)
  /\ (forall acc s x,
        object_loop f acc s = Some x -> object_loop (S f) acc s = Some x)
  /\ (forall acc s x,
        array_loop f acc s = Some x -> array_loop (S f) acc s = Some x).
Proof.
  induction f as [|f [IHs [IHo IHa]]].
  - repeat split; intros; discriminate.
  - repeat split.
    + intros s x. rewrite !scan_once_eq.
      destruct s as [|c r]; [discriminate|].
      destruct (c =? 34)%N; [auto|].
      destruct (c =? 123)%N.
      { destruct (skip_ws r) as [|c1 r1]; [discriminate|].
        destruct (c1 =? 125)%N; [auto|].
        destruct (c1 =? 34)%N; [apply IHo | discriminate]. }
      destruct (c =? 91)%N; [|auto].
      destruct (skip_ws r) as [|c1 r1]; [discriminate|].
      destruct (c1 =? 93)%N; [auto | apply IHa].
    + intros acc s x. rewrite !object_loop_eq.
      destruct (scanstring s) as [[key r1]|]; [|discriminate].
      destruct (skip_ws r1) as [|c r3]; [discriminate|].
      destruct (c =? 58)%N; [|discriminate].
      destruct (scan_once f (skip_ws r3)) as [[v r5]|] eqn:E; [|discriminate].
      rewrite (IHs _ _ E).
      destruct (skip_ws r5) as [|c2 r7]; [discriminate|].
      destruct (c2 =? 125)%N; [auto|].
      destruct (c2 =? 44)%N; [|discriminate].
      destruct (skip_ws r7) as [|c3 r8]; [discriminate|].
      destruct (c3 =? 34)%N; [apply IHo | discriminate].
    + intros acc s x. rewrite !array_loop_eq.
      destruct (scan_once f s) as [[v r1]|] eqn:E; [|discriminate].
      rewrite (IHs _ _ E).
      destruct (skip_ws r1) as [|c r2]; [discriminate|].
      destruct (c =? 93)%N; [auto|].
      destruct (c =? 44)%N; [apply IHa | discriminate].
Qed.

Lemma scan_once_mono (f f' : nat) (s : text) (x : jval * text) :
  f <= f' -> scan_once f s = Some x -> scan_once f' s = Some x.
Proof.
  induction 1 as [|f' Hle IH]; [auto|].
  intros H. apply fuel_step. auto.
Qed.

Lemma object_loop_mono (f f' : nat) (acc : list (pystr * jval)) (s : text)
    (x : jval * text) :
  f <= f' -> object_loop f acc s = Some x -> object_loop f' acc s = Some x.
Proof.
  induction 1 as [|f' Hle IH]; [auto|].
  intros H. apply fuel_step. auto.
Qed.

Lemma array_loop_mono (f f' : nat) (acc : list jval) (s : text)
    (x : jval * text) :
  f <= f' -> array_loop f acc s = Some x -> array_loop f' acc s = Some x.
Proof.
  induction 1 as [|f' Hle IH]; [auto|].
  intros H. apply fuel_step. auto.
Qed.

Ltac ws_length r :=
  let H := fresh "Hws" in
  pose proof (skip_ws_length r) as H;
  match goal with
  | E : skip_ws r = _ |- _ => rewrite E in H; cbn [List.length] in H
  end.

Ltac replay_tests :=
  repeat match goal with
         | E : ?x = _ |- context [?x] => rewrite E
         end.

(** A result is reached with as much fuel as characters were read. *)
Lemma fuel_consumed (f : nat) :
  (forall s v r,
      scan_once f s = Some (v, r) ->
      List.length r < List.length s
      /\ scan_once (List.length s - List.length r) s = Some (v, r))
  /\ (forall acc s v r,
        object_loop f acc s = Some (v, r) ->
        List.length r < List.length s
        /\ object_loop (List.length s - List.length r) acc s = Some (v, r))
  /\ (forall acc s v r,
        array_loop f acc s = Some (v, r) ->
        List.length r < List.length s
        /\ array_loop (List.length s - List.length r) acc s = Some (v, r)).
Proof.
  induction f as [|f [IHs [IHo IHa]]].
  - repeat split; intros; discriminate.
  - split; [|split].
    + intros s v r H. rewrite scan_once_eq in H.
      destruct s as [|c t]; [discriminate|].
      destruct (c =? 34)%N eqn:E34.
      { destruct (scanstring t) as [[str rest]|] eqn:Es; [|discriminate].
        inversion H; subst. apply scanstring_length in Es as Hl.
        split; [cbn [List.length]; lia|].
        destruct (List.length (c :: t) - List.length r) as [|m] eqn:Em;
          [cbn [List.length] in Em; lia|].
        rewrite scan_once_eq. replay_tests. reflexivity. }
      destruct (c =? 123)%N eqn:E123.
      { destruct (skip_ws t) as [|c1 r1] eqn:Et; [discriminate|].
        ws_length t.
        destruct (c1 =? 125)%N eqn:E125.
        { inversion H; subst.
          split; [cbn [List.length]; lia|].
          destruct (List.length (c :: t) - List.length r) as [|m] eqn:Em;
            [cbn [List.length] in Em; lia|].
          rewrite scan_once_eq. replay_tests. reflexivity. }
        destruct (c1 =? 34)%N eqn:E34'; [|discriminate].
        destruct (IHo _ _ _ _ H) as [Hl Ho].
        split; [cbn [List.length]; lia|].
        destruct (List.length (c :: t) - List.length r) as [|m] eqn:Em;
          [cbn [List.length] in Em; lia|].
        rewrite scan_once_eq. replay_tests.
        eapply object_loop_mono; [|exact Ho].
        cbn [List.length] in Em. lia. }
      destruct (c =? 91)%N eqn:E91.
      { destruct (skip_ws t) as [|c1 r1] eqn:Et; [discriminate|].
        ws_length t.
        destruct (c1 =? 93)%N eqn:E93.
        { inversion H; subst.
          split; [cbn [List.length]; lia|].
          destruct (List.length (c :: t) - List.length r) as [|m] eqn:Em;
            [cbn [List.length] in Em; lia|].
          rewrite scan_once_eq. replay_tests. reflexivity. }
        destruct (IHa _ _ _ _ H) as [Hl Ha].
        cbn [List.length] in Hl.
        split; [cbn [List.length]; lia|].
        destruct (List.length (c :: t) - List.length r) as [|m] eqn:Em;
          [cbn [List.length] in Em; lia|].
        rewrite scan_once_eq. replay_tests.
        eapply array_loop_mono; [|exact Ha].
        cbn [List.length] in *. lia. }
      apply scan_atom_length in H as Hl.
      split; [exact Hl|].
      destruct (List.length (c :: t) - List.length r) as [|m] eqn:Em; [lia|].
      rewrite scan_once_eq. replay_tests. reflexivity.
    + intros acc s v r H. rewrite object_loop_eq in H.
      destruct (scanstring s) as [[key r1]|] eqn:Es; [|discriminate].
      apply scanstring_length in Es as Hl1.
      destruct (skip_ws r1) as [|c r3] eqn:E1; [discriminate|].
      ws_length r1.
      destruct (c =? 58)%N eqn:E58; [|discriminate].
      destruct (scan_once f (skip_ws r3)) as [[v1 r5]|] eqn:Ev; [|discriminate].
      destruct (IHs _ _ _ Ev) as [Hl5 Hv].
      pose proof (skip_ws_length r3) as Hws3.
      destruct (skip_ws r5) as [|c2 r7] eqn:E5; [discriminate|].
      ws_length r5.
      destruct (c2 =? 125)%N eqn:E125.
      { inversion H; subst.
        split; [lia|].
        destruct (List.length s - List.length r) as [|m] eqn:Em; [lia|].
        rewrite object_loop_eq. rewrite Es, E1, E58.
        assert (Hm : List.length (skip_ws r3) - List.length r5 <= m) by lia.
        rewrite (@scan_once_mono _ _ _ _ Hm Hv).
        rewrite E5, E125. reflexivity. }
      destruct (c2 =? 44)%N eqn:E44; [|discriminate].
      destruct (skip_ws r7) as [|c3 r8] eqn:E7; [discriminate|].
      ws_length r7.
      destruct (c3 =? 34)%N eqn:E34; [|discriminate].
      destruct (IHo _ _ _ _ H) as [Hl Ho].
      split; [lia|].
      destruct (List.length s - List.length r) as [|m] eqn:Em; [lia|].
      rewrite object_loop_eq. rewrite Es, E1, E58.
      assert (Hm : List.length (skip_ws r3) - List.length r5 <= m) by lia.
      rewrite (@scan_once_mono _ _ _ _ Hm Hv).
      rewrite E5, E125, E44, E7, E34.
      eapply object_loop_mono; [|exact Ho]. lia.
    + intros acc s v r H. rewrite array_loop_eq in H.
      destruct (scan_once f s) as [[v1 r1]|] eqn:Ev; [|discriminate].
      destruct (IHs _ _ _ Ev) as [Hl1 Hv].
      destruct (skip_ws r1) as [|c r2] eqn:E1; [discriminate|].
      ws_length r1.
      destruct (c =? 93)%N eqn:E93.
      { inversion H; subst.
        split; [lia|].
        destruct (List.length s - List.length r) as [|m] eqn:Em; [lia|].
        rewrite array_loop_eq.
        assert (Hm : List.length s - List.length r1 <= m) by lia.
        rewrite (@scan_once_mono _ _ _ _ Hm Hv).
        rewrite E1, E93. reflexivity. }
      destruct (c =? 44)%N eqn:E44; [|discriminate].
      destruct (IHa _ _ _ _ H) as [Hl Ha].
      pose proof (skip_ws_length r2) as Hws2.
      split; [lia|].
      destruct (List.length s - List.length r) as [|m] eqn:Em; [lia|].
      rewrite array_loop_eq.
      assert (Hm : List.length s - List.length r1 <= m) by lia.
      rewrite (@scan_once_mono _ _ _ _ Hm Hv).
      rewrite E1, E93, E44.
      eapply array_loop_mono; [|exact Ha]. lia.
Qed.

(** [loads] gives the value whenever some amount of fuel does. *)
Lemma loads_complete (s : text) (f : nat) (v : jval) (r : text) :
  scan_once f (skip_ws s) = Some (v, r) -> skip_ws r = [] ->
  loads s = Some v.
Proof.
  intros H Hr. unfold loads.
  destruct (proj1 (fuel_consumed f) _ _ _ H) as [Hl Hc].
  pose proof (skip_ws_length s) as Hs.
  assert (Hm : List.length (skip_ws s) - List.length r <= S (List.length s))
    by lia.
  rewrite (@scan_once_mono _ _ _ _ Hm Hc).
  rewrite Hr. reflexivity.
Qed.

Lemma scan_once_brace (f : nat) (r : text) :
  scan_once (S f) (123%N :: r) =
  match skip_ws r with
  | c1 :: r1 =>
    if (c1 =? 125)%N then Some (JObj [], r1)
    else if (c1 =? 34)%N then object_loop f [] r1
    else None
  | [] => None
  end.
Proof. reflexivity. Qed.

Section Members.

Variables (V : Type) (enc : V -> text) (tojson : V -> jval).
Variables (need level : nat).

Lemma join_items_members (kv : pystr * V) (r : list (pystr * V)) :
  join_items (item_separator (S level)) (map (item enc) (kv :: r))
  = 34%N :: members enc level (kv :: r).
Proof.
  revert kv. induction r as [|kv' r IH]; intros kv.
  - simpl. unfold item, encode_basestring. simpl.
    rewrite <- !app_assoc, app_nil_r. reflexivity.
  - change (map (item enc) (kv :: kv' :: r)) with (item enc kv :: map (item enc) (kv' :: r)).
    change (join_items (item_separator (S level)) (item enc kv :: map (item enc) (kv' :: r)))
      with (item enc kv ++ item_separator (S level)
              ++ join_items (item_separator (S level)) (map (item enc) (kv' :: r))).
    rewrite IH. unfold item, encode_basestring.
    cbn [members]. simpl. rewrite <- !app_assoc. reflexivity.
Qed.

Lemma object_loop_members (items : list (pystr * V)) :
  items <> [] ->
  Forall (fun kv => reads_back enc tojson need (snd kv)) items ->
  forall f acc rest,
    List.length items + need <= f ->
    object_loop f acc (members enc level items ++ newline_indent level ++ 125%N :: rest)
    = Some (JObj (collect tojson items acc), rest).
Proof.
  induction items as [|[k v] r IH]; [congruence|].
  intros _ HF f acc rest Hf.
  inversion HF as [|? ? [Hws Hrb] HF']; subst. simpl in Hws, Hrb.
  destruct f as [|f]; [simpl in Hf; lia|].
  rewrite object_loop_eq.
  cbn [members fst snd]. unfold key_separator.
  rewrite <- app_assoc. cbn [app]. rewrite <- !app_assoc.
  rewrite scanstring_escape.
  rewrite skip_ws_nonspace by reflexivity.
  change ((58 =? 58)%N) with true. cbv iota.
  change (skip_ws (32%N :: ?t)) with (skip_ws t).
  rewrite Hws, Hrb by (simpl in Hf; lia).
  destruct r as [|kv' r'].
  - cbn [app]. rewrite skip_ws_newline_indent.
    rewrite skip_ws_nonspace by reflexivity.
    reflexivity.
  - unfold item_separator at 1. cbn [app].
    rewrite skip_ws_nonspace by reflexivity.
    change ((44 =? 125)%N) with false. change ((44 =? 44)%N) with true.
    cbv iota.
    rewrite <- app_assoc, skip_ws_newline_indent.
    cbn [app]. rewrite skip_ws_nonspace by reflexivity.
    change ((34 =? 34)%N) with true. cbv iota.
    rewrite IH; [reflexivity | discriminate | assumption | simpl in *; lia].
Qed.

(** A printed dictionary is read back as the dictionary of its items. *)
Lemma scan_once_dict (items : list (pystr * V)) (f : nat) (rest : text) :
  Forall (fun kv => reads_back enc tojson need (snd kv)) items ->
  List.length items + need + 1 <= f ->
  scan_once f (iterencode_dict enc level items ++ rest)
  = Some (JObj (collect tojson items []), rest).
Proof.
  intros HF Hf.
  destruct f as [|f]; [lia|].
  destruct items as [|kv r].
  - reflexivity.
  - unfold iterencode_dict.
    change (map (fun kv0 => encode_basestring (fst kv0) ++ key_separator
                              ++ enc (snd kv0)) (kv :: r))
      with (map (item enc) (kv :: r)).
    rewrite join_items_members.
    cbn [app]. rewrite scan_once_brace.
    rewrite <- !app_assoc.
    rewrite skip_ws_newline_indent. cbn [app].
    rewrite skip_ws_nonspace by reflexivity.
    change ((34 =? 125)%N) with false. change ((34 =? 34)%N) with true.
    cbv iota.
    rewrite <- !app_assoc. cbn [app].
    apply object_loop_members; [discriminate | assumption | simpl in *; lia].
Qed.

(** The printed dictionary does not start with white space. *)
Lemma skip_ws_dict (items : list (pystr * V)) (X : text) :
  skip_ws (iterencode_dict enc level items ++ X)
  = iterencode_dict enc level items ++ X.
Proof. destruct items; reflexivity. Qed.

End Members.

Lemma collect_nodup {V} (tojson : V -> jval) (items : list (pystr * V)) :
  NoDup (Dict.keys items) ->
  forall acc,
    (forall k, In k (Dict.keys items) -> ~ In k (Dict.keys acc)) ->
    collect tojson items acc
    = acc ++ map (fun kv => (fst kv, tojson (snd kv))) items.
Proof.
  induction items as [|[k v] r IH]; intros ND acc Hacc.
  - simpl. rewrite app_nil_r. reflexivity.
  - inversion ND as [|? ? Hk ND']; subst.
    change (collect tojson ((k, v) :: r) acc)
      with (collect tojson r (Dict.set k (tojson v) acc)).
    rewrite set_fresh by (apply Hacc; left; reflexivity).
    rewrite IH; [rewrite <- app_assoc; reflexivity | assumption | ].
    intros k0 Hk0. unfold Dict.keys. rewrite map_app, in_app_iff.
    intros [H | [<- | []]].
    + apply (Hacc k0); [right; assumption | assumption].
    + contradiction.
Qed.

End JsonFacts.

(** ** The store *)

Module StoreFacts.
Import PyStrFacts DictFacts JsonFacts.

Lemma nodupb_sound (l : list pystr) : nodupb l = true -> NoDup l.
Proof.
  induction l as [|x r IH]; simpl; intros H; [constructor|].
  apply andb_true_iff in H. destruct H as [H1 H2].
  constructor; [|auto].
  intros Hin. apply negb_true_iff in H1.
  assert (existsb (PyStr.eqb x) r = true); [|congruence].
  apply existsb_exists. exists x. split; [exact Hin | apply eqb_refl].
Qed.

Lemma well_formedb_sound (d : Dataset) :
  well_formedb d = true -> well_formed d.
Proof.
  unfold well_formedb, well_formed, is_mapping, no_empty_category.
  intros H. apply andb_true_iff in H. destruct H as [H1 H2].
  rewrite forallb_forall in H2.
  repeat split.
  - apply nodupb_sound. exact H1.
  - apply Forall_forall. intros kv Hin. specialize (H2 kv Hin).
    apply andb_true_iff in H2. apply nodupb_sound. apply H2.
  - apply Forall_forall. intros kv Hin. specialize (H2 kv Hin).
    apply andb_true_iff in H2. destruct H2 as [_ H2].
    intros E. unfold Dict.is_empty in H2. cbv beta in *.
    change (@snd pystr (Dict.dict pystr) kv) with (snd kv) in H2.
    rewrite E in H2. discriminate H2.
Qed.

Lemma as_words_to_json (ws : Words) :
  as_words (map (fun kv => (fst kv, JStr (snd kv))) ws) = Some ws.
Proof.
  induction ws as [|[k v] ws IH]; simpl; [reflexivity|].
  rewrite IH. reflexivity.
Qed.

Lemma as_dataset_to_json (d : Dataset) : as_dataset (to_json d) = Some d.
Proof.
  unfold as_dataset, to_json.
  induction d as [|[k ws] d IH]; simpl; [reflexivity|].
  rewrite as_words_to_json, IH. reflexivity.
Qed.

(** A printed string is read back as the string. *)
Lemma string_reads_back (v : pystr) :
  reads_back encode_basestring JStr 1 v.
Proof.
  split.
  - intros X. reflexivity.
  - intros f X Hf. destruct f as [|f]; [lia|].
    unfold encode_basestring. cbn [app]. rewrite <- app_assoc.
    cbn [scan_once]. change ((34 =? 34)%N) with true. cbv iota.
    cbn [app]. rewrite scanstring_escape. reflexivity.
Qed.

(** A printed word mapping is read back as the mapping. *)
Lemma words_reads_back (need : nat) (ws : Words) :
  NoDup (Dict.keys ws) ->
  List.length ws + 2 <= need ->
  reads_back (dump_words 1) words_to_json need ws.
Proof.
  intros ND Hn. split.
  - intros X. apply skip_ws_dict.
  - intros f X Hf. unfold dump_words.
    rewrite (@scan_once_dict _ encode_basestring JStr 1).
    + rewrite collect_nodup; [reflexivity | assumption | simpl; tauto].
    + apply Forall_forall. intros kv _. apply string_reads_back.
    + lia.
Qed.

Lemma in_list_sum (l : list nat) (n : nat) : In n l -> n <= list_sum l.
Proof.
  induction l as [|m l IH]; simpl; [tauto|].
  intros [-> | H]; [lia | specialize (IH H); lia].
Qed.

(** [json.load] reads what [json.dump] wrote. *)
Lemma loads_dump (d : Dataset) :
  is_mapping d -> loads (dump d) = Some (to_json d).
Proof.
  intros [ND NDw].
  pose (need := list_sum (map (fun kv : pystr * Words =>
                                 List.length (snd kv) + 2) d)).
  apply loads_complete with (f := List.length d + need + 1) (r := []);
    [|reflexivity].
  unfold dump.
  rewrite <- (app_nil_r (iterencode_dict (dump_words 1) 0 d)).
  rewrite skip_ws_dict.
  rewrite (@scan_once_dict _ (dump_words 1) words_to_json need).
  - rewrite collect_nodup; [reflexivity | assumption | simpl; tauto].
  - apply Forall_forall. intros kv Hin.
    apply words_reads_back.
    + rewrite Forall_forall in NDw. apply NDw. assumption.
    + apply in_list_sum.
      apply (in_map (fun kv : pystr * Words => List.length (snd kv) + 2)).
      exact Hin.
  - lia.
Qed.

(** *** Writing through the UTF-8 codec *)

Lemma encodable_app (a b : pystr) :
  encodable (a ++ b) = encodable a && encodable b.
Proof. apply forallb_app. Qed.

Lemma below_surrogates (c : char) : (c < 55296)%N -> is_surrogate c = false.
Proof.
  intros H. unfold is_surrogate.
  destruct (N.leb_spec 55296 c) as [L|L]; [lia | reflexivity].
Qed.

Lemma hexdigit_encodable (n : N) :
  (n < 16)%N -> is_surrogate (hexdigit n) = false.
Proof.
  intros H. apply below_surrogates. unfold hexdigit.
  destruct (n <? 10)%N; lia.
Qed.

Lemma escape_char_encodable (c : char) :
  encodable (escape_char c) = negb (is_surrogate c).
Proof.
  unfold escape_char.
  repeat match goal with
  | |- context [(c =? ?k)%N] =>
    destruct (N.eqb_spec c k) as [->|_]; [reflexivity|]
  end.
  destruct (N.ltb_spec c 32) as [L|L].
  - cbn [encodable forallb is_surrogate].
    rewrite (@below_surrogates c) by lia.
    rewrite !hexdigit_encodable by
      (try (apply N.mod_lt; lia); apply N.Div0.div_lt_upper_bound; lia).
    reflexivity.
  - cbn [encodable forallb]. apply andb_true_r.
Qed.

Lemma escape_encodable (s : pystr) : encodable (escape s) = encodable s.
Proof.
  induction s as [|c s IH]; [reflexivity|].
  cbn [escape]. rewrite encodable_app, escape_char_encodable, IH.
  reflexivity.
Qed.

(** A quoted string can be written exactly when the string can be encoded. *)
Lemma encode_basestring_encodable (s : pystr) :
  encodable (encode_basestring s) = encodable s.
Proof.
  unfold encode_basestring.
  change (34%N :: escape s ++ [34%N]) with ([34%N] ++ escape s ++ [34%N]).
  rewrite !encodable_app, escape_encodable.
  cbn [encodable forallb]. apply andb_true_r.
Qed.

Lemma newline_indent_encodable (level : nat) :
  encodable (newline_indent level) = true.
Proof.
  unfold newline_indent. cbn [encodable forallb].
  change (negb (is_surrogate 10%N)) with true. cbn [andb].
  induction (2 * level) as [|n IH]; [reflexivity|].
  cbn [repeat forallb]. exact IH.
Qed.

Lemma item_separator_encodable (level : nat) :
  encodable (item_separator level) = true.
Proof. apply (newline_indent_encodable level). Qed.

Section Chunks.

Variables (V : Type) (enc_chunks : V -> list text).

Let enc (v : V) : text := List.concat (enc_chunks v).

Let item_text (kv : pystr * V) : text :=
  encode_basestring (fst kv) ++ key_separator ++ enc (snd kv).

Lemma concat_item_chunks_rest (level : nat) (d : list (pystr * V)) :
  List.concat (item_chunks enc_chunks level false d)
  = match d with
    | [] => []
    | _ :: _ =>
      item_separator level ++ join_items (item_separator level) (map item_text d)
    end.
Proof.
  induction d as [|[k v] r IH]; [reflexivity|].
  cbn [item_chunks app List.concat]. rewrite concat_app, IH.
  destruct r as [|kv r]; cbn [map join_items]; unfold item_text, enc;
    cbn [fst snd]; rewrite ?app_nil_r, <- ?app_assoc; reflexivity.
Qed.

Lemma concat_item_chunks (level : nat) (d : list (pystr * V)) :
  List.concat (item_chunks enc_chunks level true d)
  = join_items (item_separator level) (map item_text d).
Proof.
  destruct d as [|[k v] r]; [reflexivity|].
  cbn [item_chunks app List.concat].
  rewrite concat_app, concat_item_chunks_rest.
  destruct r as [|kv r]; cbn [map join_items]; unfold item_text, enc;
    cbn [fst snd]; rewrite ?app_nil_r, <- ?app_assoc; reflexivity.
Qed.

(** The chunks of a dictionary, put together, are its document. *)
Lemma concat_iterencode_dict_chunks (level : nat) (d : list (pystr * V)) :
  List.concat (iterencode_dict_chunks enc_chunks level d)
  = iterencode_dict enc level d.
Proof.
  destruct d as [|kv r]; [reflexivity|].
  unfold iterencode_dict_chunks, iterencode_dict.
  cbn [List.concat app]. rewrite concat_app, concat_item_chunks.
  cbn [List.concat]. rewrite app_nil_r. reflexivity.
Qed.

Lemma item_chunks_encodable (level : nat) (first : bool)
    (d : list (pystr * V)) :
  forallb encodable (item_chunks enc_chunks level first d)
  = forallb (fun kv => encodable (fst kv)
                       && forallb encodable (enc_chunks (snd kv))) d.
Proof.
  revert first. induction d as [|[k v] r IH]; intros first; [reflexivity|].
  cbn [item_chunks forallb fst snd].
  rewrite forallb_app. cbn [forallb]. rewrite forallb_app, IH.
  rewrite encode_basestring_encodable.
  change (encodable key_separator) with true. cbn [andb].
  destruct first; cbn [forallb]; rewrite ?item_separator_encodable;
    cbn [andb]; rewrite ?andb_assoc; reflexivity.
Qed.

(** The chunks of a dictionary can all be written exactly when its keys and
    the chunks of its values can. *)
Lemma iterencode_dict_chunks_encodable (level : nat) (d : list (pystr * V)) :
  forallb encodable (iterencode_dict_chunks enc_chunks level d)
  = forallb (fun kv => encodable (fst kv)
                       && forallb encodable (enc_chunks (snd kv))) d.
Proof.
  destruct d as [|kv r]; [reflexivity|].
  unfold iterencode_dict_chunks.
  cbn [forallb]. rewrite forallb_app, item_chunks_encodable.
  cbn [forallb]. rewrite !newline_indent_encodable.
  change (encodable [123%N]) with true.
  change (encodable [125%N]) with true.
  cbn [andb]. rewrite andb_true_r. reflexivity.
Qed.

End Chunks.

Lemma iterencode_dict_ext (V : Type) (f g : V -> text) (level : nat)
    (d : list (pystr * V)) :
  (forall v, f v = g v) -> iterencode_dict f level d = iterencode_dict g level d.
Proof.
  intros E. unfold iterencode_dict. destruct d as [|kv r]; [reflexivity|].
  do 4 f_equal. apply map_ext. intros x. rewrite E. reflexivity.
Qed.

Lemma concat_dump_chunks (d : Dataset) : List.concat (dump_chunks d) = dump d.
Proof.
  unfold dump_chunks, dump. rewrite concat_iterencode_dict_chunks.
  apply iterencode_dict_ext. intros ws. unfold dump_words.
  rewrite concat_iterencode_dict_chunks.
  apply iterencode_dict_ext. intros s. unfold string_chunks.
  cbn [List.concat]. apply app_nil_r.
Qed.

Lemma forallb_pointwise (A : Type) (f g : A -> bool) (l : list A) :
  (forall x, f x = g x) -> forallb f l = forallb g l.
Proof.
  intros E. induction l as [|x l IH]; [reflexivity|].
  cbn [forallb]. rewrite E, IH. reflexivity.
Qed.

Lemma dump_chunks_encodable (d : Dataset) :
  forallb encodable (dump_chunks d) = encodable_data d.
Proof.
  unfold dump_chunks, encodable_data.
  rewrite iterencode_dict_chunks_encodable.
  apply forallb_pointwise. intros [k ws]. cbn [fst snd]. f_equal.
  rewrite iterencode_dict_chunks_encodable. unfold encodable_words.
  apply forallb_pointwise. intros [e r]. unfold string_chunks.
  cbn [fst snd forallb].
  rewrite encode_basestring_encodable, andb_true_r. reflexivity.
Qed.

Lemma write_chunks_ok (chunks : list text) :
  forallb encodable chunks = true ->
  write_chunks chunks = (Ok tt, List.concat chunks).
Proof.
  induction chunks as [|c r IH]; [reflexivity|].
  cbn [forallb write_chunks List.concat]. intros H.
  apply andb_true_iff in H. destruct H as [Hc Hr].
  rewrite Hc, (IH Hr). reflexivity.
Qed.

(** When a chunk cannot be encoded the write raises, and what is in the file
    is shorter than the document. *)
Lemma write_chunks_raise (chunks : list text) :
  forallb encodable chunks = false ->
  exists written,
    write_chunks chunks = (Raise UnicodeEncodeError, written)
    /\ List.length written < List.length (List.concat chunks).
Proof.
  induction chunks as [|c r IH]; [discriminate|].
  cbn [forallb write_chunks List.concat]. intros H.
  destruct (encodable c) eqn:Hc.
  - cbn [andb] in H. destruct (IH H) as [w [E L]].
    exists (c ++ w). rewrite E. split; [reflexivity|].
    rewrite !length_app. lia.
  - exists []. split; [reflexivity|].
    destruct c as [|x c]; [discriminate Hc|].
    cbn [app List.length]. lia.
Qed.

(** [save_data] writes the whole document of a dataset whose strings can all
    be encoded. *)
Lemma save_data_ok (d : Dataset) (fs : FS) :
  encodable_data d = true -> save_data d fs = (Ok tt, Some (dump d)).
Proof.
  intros H. unfold save_data.
  rewrite write_chunks_ok by (rewrite dump_chunks_encodable; exact H).
  rewrite concat_dump_chunks. reflexivity.
Qed.

Lemma saved_ok (d : Dataset) (fs : FS) :
  encodable_data d = true -> saved d fs = Some (dump d).
Proof. intros H. unfold saved. rewrite (@save_data_ok d fs H). reflexivity. Qed.

(** *** What a failed write leaves *)

Lemma written_cons (c : text) (r : list text) :
  snd (write_chunks (c :: r))
  = if encodable c then c ++ snd (write_chunks r) else [].
Proof.
  cbn [write_chunks]. destruct (encodable c); [|reflexivity].
  destruct (write_chunks r). reflexivity.
Qed.

Lemma written_app (a b : list text) :
  snd (write_chunks (a ++ b))
  = if forallb encodable a then List.concat a ++ snd (write_chunks b)
    else snd (write_chunks a).
Proof.
  induction a as [|c a IH]; [reflexivity|].
  cbn [app forallb List.concat]. rewrite !written_cons.
  destruct (encodable c); [|reflexivity].
  cbn [andb]. rewrite IH.
  destruct (forallb encodable a); [rewrite app_assoc|]; reflexivity.
Qed.

Lemma scan_once_nil (f : nat) : scan_once f [] = None.
Proof. destruct f; reflexivity. Qed.

Lemma skip_ws_only_indent (level : nat) : skip_ws (newline_indent level) = [].
Proof.
  rewrite <- (app_nil_r (newline_indent level)).
  apply skip_ws_newline_indent.
Qed.

Lemma scan_once_same (f f' : nat) (s : text) (x y : jval * text) :
  scan_once f s = Some x -> scan_once f' s = Some y -> x = y.
Proof.
  intros Hx Hy.
  assert (A : scan_once (Nat.max f f') s = Some x)
    by (apply (@scan_once_mono f _ s x); [lia | exact Hx]).
  assert (B : scan_once (Nat.max f f') s = Some y)
    by (apply (@scan_once_mono f' _ s y); [lia | exact Hy]).
  congruence.
Qed.

Section Cut.

Variables (V : Type) (enc_chunks : V -> list text).

Let enc (v : V) : text := List.concat (enc_chunks v).

Let unfinished (t : text) : Prop := forall f, scan_once f (skip_ws t) = None.

Let value_ok (v : V) : Prop :=
  (forall X, skip_ws (enc v ++ X) = enc v ++ X)
  /\ (forall f X x, scan_once f (enc v ++ X) = Some x -> snd x = X)
  /\ (forallb encodable (enc_chunks v) = false ->
      unfinished (snd (write_chunks (enc_chunks v)))).

Lemma object_loop_cut (lvl : nat) (tail : list text)
    (items : list (pystr * V)) :
  Forall (fun kv => value_ok (snd kv)) items ->
  forall (k : pystr) (v : V) (f : nat) (acc : list (pystr * jval)),
    value_ok v ->
    forallb encodable (enc_chunks v ++ item_chunks enc_chunks lvl false items)
    = false ->
    object_loop f acc
      (escape k ++ 34%N :: key_separator
         ++ snd (write_chunks
                   (enc_chunks v ++ item_chunks enc_chunks lvl false items
                      ++ tail)))
    = None.
Proof.
  induction items as [|[k' v'] items IH]; intros HF k v f acc [Hws [Hrb Hcut]] E;
    (destruct f as [|f]; [reflexivity|]);
    rewrite object_loop_eq, scanstring_escape;
    unfold key_separator; cbn [app];
    rewrite skip_ws_nonspace by reflexivity;
    change ((58 =? 58)%N) with true; cbv iota;
    change (skip_ws (32%N :: ?t)) with (skip_ws t);
    rewrite written_app; rewrite forallb_app in E;
    change (@forallb text) with (@forallb pystr) in *.
  - cbn [item_chunks forallb] in E. rewrite andb_true_r in E.
    rewrite E. rewrite (Hcut E). reflexivity.
  - destruct (forallb encodable (enc_chunks v)) eqn:Ev;
      [|rewrite (Hcut eq_refl); reflexivity].
    cbn [andb] in E. fold (enc v). rewrite Hws.
    destruct (scan_once f (enc v ++ _)) as [[j r5]|] eqn:Sc; [|reflexivity].
    apply Hrb in Sc. cbn [snd] in Sc. subst r5.
    inversion HF as [|? ? Hv' HF']; subst. cbn [snd] in Hv'.
    cbn [item_chunks app] in E |- *.
    rewrite written_cons, item_separator_encodable.
    unfold item_separator at 1. cbn [app].
    rewrite skip_ws_nonspace by reflexivity.
    change ((44 =? 125)%N) with false. change ((44 =? 44)%N) with true.
    cbv iota.
    rewrite written_cons.
    cbn [forallb] in E. rewrite item_separator_encodable in E.
    cbn [andb] in E.
    destruct (encodable (encode_basestring k')) eqn:Ek.
    + rewrite skip_ws_newline_indent.
      unfold encode_basestring at 1. cbn [app].
      rewrite skip_ws_nonspace by reflexivity.
      change ((34 =? 34)%N) with true. cbv iota.
      rewrite written_cons. change (encodable key_separator) with true.
      cbv iota. rewrite <- app_assoc. cbn [app].
      cbn [andb] in E. change (encodable key_separator) with true in E.
      cbn [andb] in E.
      rewrite <- (app_assoc (enc_chunks v')).
      apply (IH HF' k' v' f _ Hv' E).
    + rewrite app_nil_r, skip_ws_only_indent. reflexivity.
Qed.

End Cut.

Section CutDict.

Variables (V : Type) (enc_chunks : V -> list text).

Let enc (v : V) : text := List.concat (enc_chunks v).

Let unfinished (t : text) : Prop := forall f, scan_once f (skip_ws t) = None.

Let value_ok (v : V) : Prop :=
  (forall X, skip_ws (enc v ++ X) = enc v ++ X)
  /\ (forall f X x, scan_once f (enc v ++ X) = Some x -> snd x = X)
  /\ (forallb encodable (enc_chunks v) = false ->
      unfinished (snd (write_chunks (enc_chunks v)))).

(** What is written of a dictionary when a chunk cannot be encoded is not
    read as a value, whatever the fuel. *)
Lemma dict_cut (level : nat) (items : list (pystr * V)) :
  Forall (fun kv => value_ok (snd kv)) items ->
  forallb encodable (iterencode_dict_chunks enc_chunks level items) = false ->
  forall f,
    scan_once f
      (skip_ws (snd (write_chunks
                      (iterencode_dict_chunks enc_chunks level items))))
    = None.
Proof.
  intros HF E f. destruct items as [|[k v] items]; [discriminate E|].
  inversion HF as [|? ? Hv HF']; subst. cbn [snd] in Hv.
  unfold iterencode_dict_chunks in *.
  cbn [forallb] in E. rewrite newline_indent_encodable in E.
  change (encodable [123%N]) with true in E. cbn [andb] in E.
  rewrite forallb_app in E.
  cbn [forallb] in E. rewrite newline_indent_encodable in E.
  change (encodable [125%N]) with true in E. cbn [andb] in E.
  rewrite andb_true_r in E.
  rewrite !written_cons, newline_indent_encodable.
  change (encodable [123%N]) with true. cbv iota. cbn [app].
  rewrite skip_ws_nonspace by reflexivity.
  destruct f as [|f]; [reflexivity|].
  rewrite scan_once_brace, skip_ws_newline_indent.
  cbn [item_chunks app] in E |- *.
  rewrite written_cons. cbn [forallb] in E.
  destruct (encodable (encode_basestring k)) eqn:Ek; [|reflexivity].
  unfold encode_basestring at 1. cbn [app].
  rewrite skip_ws_nonspace by reflexivity.
  change ((34 =? 125)%N) with false. change ((34 =? 34)%N) with true.
  cbv iota.
  rewrite written_cons. change (encodable key_separator) with true.
  cbv iota. rewrite <- app_assoc. cbn [app].
  cbn [andb] in E. change (encodable key_separator) with true in E.
  cbn [andb] in E.
  rewrite <- (app_assoc (enc_chunks v)).
  apply (@object_loop_cut V enc_chunks (S level) _ items HF' k v f [] Hv E).
Qed.

End CutDict.

Lemma string_chunks_reads_back (s : pystr) :
  reads_back (fun v => List.concat (string_chunks v)) JStr 1 s.
Proof.
  destruct (string_reads_back s) as [Hws Hrb].
  split.
  - intros X. unfold string_chunks. cbn [List.concat].
    rewrite app_nil_r. apply Hws.
  - intros f X Hf. unfold string_chunks. cbn [List.concat].
    rewrite app_nil_r. apply Hrb. exact Hf.
Qed.

Lemma string_cut (s : pystr) :
  (forall X, skip_ws (List.concat (string_chunks s) ++ X)
             = List.concat (string_chunks s) ++ X)
  /\ (forall f X x,
        scan_once f (List.concat (string_chunks s) ++ X) = Some x ->
        snd x = X)
  /\ (forallb encodable (string_chunks s) = false ->
      forall f,
        scan_once f (skip_ws (snd (write_chunks (string_chunks s)))) = None).
Proof.
  destruct (string_chunks_reads_back s) as [Hws Hrb].
  split; [exact Hws|]. split.
  - intros f X x Sc.
    rewrite (@scan_once_same f 1 _ x _ Sc (Hrb 1 X (le_n 1))). reflexivity.
  - unfold string_chunks. cbn [forallb]. rewrite andb_true_r. intros E f.
    rewrite written_cons, E. apply scan_once_nil.
Qed.

Lemma words_cut (ws : Words) :
  let chunks := iterencode_dict_chunks string_chunks 1 in
  (forall X, skip_ws (List.concat (chunks ws) ++ X)
             = List.concat (chunks ws) ++ X)
  /\ (forall f X x,
        scan_once f (List.concat (chunks ws) ++ X) = Some x -> snd x = X)
  /\ (forallb encodable (chunks ws) = false ->
      forall f, scan_once f (skip_ws (snd (write_chunks (chunks ws)))) = None).
Proof.
  intros chunks. unfold chunks.
  rewrite concat_iterencode_dict_chunks.
  split; [intros X; apply skip_ws_dict|]. split.
  - intros f X x Sc.
    assert (R : Forall (fun kv => reads_back
                                    (fun v => List.concat (string_chunks v))
                                    JStr 1 (snd kv)) ws).
    { apply Forall_forall. intros kv _. apply string_chunks_reads_back. }
    pose proof (@scan_once_dict _ _ JStr 1 1 ws (List.length ws + 1 + 1) X R
                  (le_n _)) as Sd.
    rewrite (@scan_once_same _ _ _ x _ Sc Sd). reflexivity.
  - intros E f. apply dict_cut; [|exact E].
    apply Forall_forall. intros kv _. apply string_cut.
Qed.

(** [save_data] raises on a dataset with a lone surrogate, and leaves a file
    that is shorter than the document and is not read as a document. *)
Lemma save_data_raises (d : Dataset) (fs : FS) :
  encodable_data d = false ->
  exists written,
    save_data d fs = (Raise UnicodeEncodeError, Some written)
    /\ List.length written < List.length (dump d)
    /\ loads written = None.
Proof.
  intros H. unfold save_data.
  destruct (@write_chunks_raise (dump_chunks d)) as [w [E L]].
  - rewrite dump_chunks_encodable. exact H.
  - exists w. rewrite E. split; [reflexivity|].
    rewrite concat_dump_chunks in L. split; [exact L|].
    change w with (snd (Raise (A:=unit) UnicodeEncodeError, w)).
    rewrite <- E. unfold loads.
    rewrite (@dict_cut _ (iterencode_dict_chunks string_chunks 1) 0 d).
    + reflexivity.
    + apply Forall_forall. intros kv _. apply words_cut.
    + rewrite <- H. apply dump_chunks_encodable.
Qed.

Lemma default_data_encodable : encodable_data get_default_data = true.
Proof. vm_compute. reflexivity. Qed.

(** The default data is written whole. *)
Lemma save_default_data (fs : FS) :
  save_data get_default_data fs = (Ok tt, Some (dump get_default_data)).
Proof. apply save_data_ok. exact default_data_encodable. Qed.

Lemma load_data_save_data (d : Dataset) (fs : FS) :
  is_mapping d -> encodable_data d = true ->
  load_data (saved d fs) = (to_json d, saved d fs).
Proof.
  intros H E. rewrite (@saved_ok d fs E). unfold load_data.
  rewrite (loads_dump H). reflexivity.
Qed.

Lemma load_dataset_save_data (d : Dataset) (fs : FS) :
  is_mapping d -> encodable_data d = true ->
  load_dataset (saved d fs) = Some (d, saved d fs).
Proof.
  intros H E. unfold load_dataset.
  rewrite (@load_data_save_data d fs H E), as_dataset_to_json. reflexivity.
Qed.

(** What [save_data] leaves does not depend on the file it overwrites. *)
Lemma save_data_saved (d : Dataset) (fs fs' : FS) :
  encodable_data d = true -> save_data d fs' = (Ok tt, saved d fs).
Proof.
  intros E. rewrite (@save_data_ok d fs' E), (@saved_ok d fs E). reflexivity.
Qed.

(** *** The strings of a dataset after an update *)

Section Entries.

Variables (V : Type) (p : pystr * V -> bool).

Lemma forallb_get (k : pystr) (v : V) (d : Dict.dict V) :
  forallb p d = true -> Dict.get k d = Some v -> p (k, v) = true.
Proof.
  induction d as [|[k' v'] r IH]; [discriminate 2|].
  cbn [forallb Dict.get]. intros H G.
  apply andb_true_iff in H. destruct H as [Hp Hr].
  destruct (PyStr.eqb k k') eqn:E.
  - apply eqb_eq in E. inversion G; subst. exact Hp.
  - apply IH; assumption.
Qed.

Lemma forallb_del (k : pystr) (d : Dict.dict V) :
  forallb p d = true -> forallb p (Dict.del k d) = true.
Proof.
  induction d as [|[k' v'] r IH]; [reflexivity|].
  cbn [forallb Dict.del]. intros H.
  apply andb_true_iff in H. destruct H as [Hp Hr].
  destruct (PyStr.eqb k k'); [exact Hr|].
  cbn [forallb]. rewrite Hp, (IH Hr). reflexivity.
Qed.

Lemma forallb_set (k : pystr) (v : V) (d : Dict.dict V) :
  forallb p d = true -> p (k, v) = true ->
  forallb p (Dict.set k v d) = true.
Proof.
  intros H Hv. induction d as [|[k' v'] r IH].
  - cbn [Dict.set forallb]. rewrite Hv. reflexivity.
  - cbn [forallb Dict.set] in *.
    apply andb_true_iff in H. destruct H as [Hp Hr].
    destruct (PyStr.eqb k k') eqn:E.
    + apply eqb_eq in E. subst k'. cbn [forallb]. rewrite Hv, Hr. reflexivity.
    + cbn [forallb]. rewrite Hp, (IH Hr). reflexivity.
Qed.

End Entries.

Lemma encodable_data_get (category : pystr) (ws : Words) (d : Dataset) :
  encodable_data d = true -> Dict.get category d = Some ws ->
  encodable category = true /\ encodable_words ws = true.
Proof.
  intros E G. apply andb_true_iff.
  exact (forallb_get _ category d E G).
Qed.

(** A deletion leaves strings that were there. *)
Lemma encodable_after_delete (category : pystr) (english : option pystr)
    (d : Dataset) :
  encodable_data d = true ->
  encodable_data (after_delete category english d) = true.
Proof.
  intros E. unfold after_delete, delete_word, delete_category.
  destruct (negb (is_empty_str (field english))).
  - destruct (Dict.get category d) as [ws|] eqn:G; [|exact E].
    destruct (encodable_data_get category d E G) as [Ec Ew].
    destruct (Dict.mem (field english) ws); [|exact E].
    destruct (Dict.is_empty _).
    + apply forallb_del. exact E.
    + apply forallb_set; [exact E|]. cbn [fst snd]. rewrite Ec.
      apply forallb_del. exact Ew.
  - destruct (Dict.mem category d); [apply forallb_del|]; exact E.
Qed.

(** An upsert adds the three strings of the request and no other. *)
Lemma encodable_upserted (category english russian : pystr) (d : Dataset) :
  encodable_data d = true ->
  encodable category = true -> encodable english = true ->
  encodable russian = true ->
  encodable_data (upserted category english russian d) = true.
Proof.
  intros E Ec Ee Er. unfold upserted, set_word.
  assert (E1 : encodable_data (ensure_category category d) = true).
  { unfold ensure_category. destruct (negb _); [|exact E].
    apply forallb_set; [exact E|]. cbn [fst snd]. rewrite Ec. reflexivity. }
  destruct (Dict.get category (ensure_category category d)) as [ws|] eqn:G;
    [|exact E1].
  destruct (encodable_data_get category _ E1 G) as [_ Ew].
  apply forallb_set; [exact E1|]. cbn [fst snd]. rewrite Ec.
  apply forallb_set; [exact Ew|]. cbn [fst snd]. rewrite Ee, Er. reflexivity.
Qed.

End StoreFacts.

(** ** The quiz session *)

Module QuizFacts.
Import PyStrFacts.

Section Quiz.

Context {CM : CaseMap}.

Lemma py_index_in_range {A} (l : list A) (i : Z) :
  (0 <= i < Z.of_nat (List.length l))%Z ->
  exists a, py_index l i = Some a /\ nth_error l (Z.to_nat i) = Some a.
Proof.
  intros H. unfold py_index.
  destruct (Z.leb_spec 0 i); [|lia].
  destruct (nth_error l (Z.to_nat i)) eqn:E.
  - eauto.
  - apply nth_error_None in E. lia.
Qed.

Lemma py_index_past_end {A} (l : list A) (i : Z) :
  (Z.of_nat (List.length l) <= i)%Z -> py_index l i = None.
Proof.
  intros H. unfold py_index.
  destruct (Z.leb_spec 0 i); [|lia].
  apply nth_error_None. lia.
Qed.

Lemma check_answer_in_progress (answer : option pystr) (fs : FS)
    (s : Session.state) (term translation : pystr) :
  (Session.position s < Z.of_nat (List.length (Session.items s)))%Z ->
  py_index (Session.items s) (Session.position s) = Some (term, translation) ->
  let is_correct :=
    PyStr.eqb (lower (strip (field answer))) (lower translation) in
  check_answer answer fs s
  = (Ok (Answered is_correct translation
           (Z.of_nat (List.length (Session.items s))
              <=? Session.position s + 1)%Z),
     snd (load_data fs), answered is_correct s).
Proof.
  intros Hlt Hidx is_correct.
  unfold check_answer.
  destruct (load_data fs) as [data fs1]. cbn [snd].
  fold (Session.items s). fold (Session.position s). fold (Session.points s).
  destruct (Z.leb_spec (Z.of_nat (List.length (Session.items s)))
              (Session.position s)); [lia|].
  rewrite Hidx. fold is_correct.
  destruct is_correct; reflexivity.
Qed.

Lemma check_answer_finished (answer : option pystr) (fs : FS)
    (s : Session.state) :
  (Z.of_nat (List.length (Session.items s)) <= Session.position s)%Z ->
  check_answer answer fs s = (Ok Finished, snd (load_data fs), s).
Proof.
  intros H. unfold check_answer.
  destruct (load_data fs) as [data fs1]. cbn [snd].
  fold (Session.items s). fold (Session.position s).
  destruct (Z.leb_spec (Z.of_nat (List.length (Session.items s)))
              (Session.position s)); [reflexivity | lia].
Qed.

Lemma answered_fields (b : bool) (s : Session.state) :
  Session.items (answered b s) = Session.items s
  /\ Session.position (answered b s) = (Session.position s + 1)%Z
  /\ Session.points (answered b s)
     = (if b then Session.points s + 1 else Session.points s)%Z
  /\ Session.category (answered b s) = Session.category s.
Proof. destruct b; repeat split; reflexivity. Qed.

End Quiz.

End QuizFacts.

(* ------------------------------------------------------------------ *)
(** * The quiz: answers, the end of the quiz, the invariant *)

Import PyStrFacts DictFacts JsonFacts StoreFacts QuizFacts.

Ltac session_fields :=
  unfold Session.position, Session.points, Session.items, Session.get;
  simpl.

(** C4: while the cursor is inside the list, [/check_answer] compares the
    trimmed, lower-cased answer with the lower-cased translation of the word
    at the cursor by plain string equality, adds one to the score exactly when
    they are equal, moves the cursor by one, and reports [finished] exactly
    when the new cursor equals the number of words. *)
Theorem check_answer_compares_and_advances {CM : CaseMap}
    (answer : option pystr) (fs : FS) (s : Session.state) :
  (0 <= Session.position s < Z.of_nat (List.length (Session.items s)))%Z ->
  exists term translation is_correct finished s',
    nth_error (Session.items s) (Z.to_nat (Session.position s))
      = Some (term, translation)
    /\ check_answer answer fs s
       = (Ok (Answered is_correct translation finished),
          snd (load_data fs), s')
    /\ (is_correct = true
        <-> lower (strip (field answer)) = lower translation)
    /\ Session.points s'
       = (if is_correct then Session.points s + 1 else Session.points s)%Z
    /\ Session.position s' = (Session.position s + 1)%Z
    /\ Session.items s' = Session.items s
    /\ (finished = true
        <-> Session.position s' = Z.of_nat (List.length (Session.items s'))).
Proof.
  intros H.
  destruct (py_index_in_range (Session.items s) H) as [[term translation] [Hi Hn]].
  pose (b := PyStr.eqb (lower (strip (field answer))) (lower translation)).
  destruct (answered_fields b s) as [Hitems [Hpos [Hpts _]]].
  exists term, translation, b,
    (Z.of_nat (List.length (Session.items s)) <=? Session.position s + 1)%Z,
    (answered b s).
  split; [exact Hn|].
  split; [eapply check_answer_in_progress; [lia | exact Hi]|].
  split; [apply eqb_eq|].
  split; [exact Hpts|].
  split; [exact Hpos|].
  split; [exact Hitems|].
  rewrite Hpos, Hitems, Z.leb_le. lia.
Qed.

Lemma check_answer_compares_and_advances_witness :
  exists term translation is_correct finished s',
    nth_error (Session.items (quiz_at 1 1))
      (Z.to_nat (Session.position (quiz_at 1 1)))
      = Some (term, translation)
    /\ check_answer (Some (py " НАКАЗАНИЕ ")) None (quiz_at 1 1)
       = (Ok (Answered is_correct translation finished),
          snd (load_data None), s')
    /\ (is_correct = true
        <-> lower (strip (field (Some (py " НАКАЗАНИЕ ")))) = lower translation)
    /\ Session.points s'
       = (if is_correct then Session.points (quiz_at 1 1) + 1
          else Session.points (quiz_at 1 1))%Z
    /\ Session.position s' = (Session.position (quiz_at 1 1) + 1)%Z
    /\ Session.items s' = Session.items (quiz_at 1 1)
    /\ (finished = true
        <-> Session.position s' = Z.of_nat (List.length (Session.items s'))).
Proof.
  apply (@check_answer_compares_and_advances latin_cyrillic).
  session_fields. lia.
Defined.

(** C5: when the cursor is at or past the end of the list (also when no
    quiz was ever started), [/check_answer] answers [{finished: true}] and
    leaves the session as it is; no word is looked up.  Whenever the cursor is
    not negative the handler raises no [IndexError]. *)
Theorem check_answer_after_the_end {CM : CaseMap}
    (answer : option pystr) (fs : FS) (s : Session.state) :
  ((Z.of_nat (List.length (Session.items s)) <= Session.position s)%Z ->
     check_answer answer fs s = (Ok Finished, snd (load_data fs), s)
     /\ py_index (Session.items s) (Session.position s) = None)
  /\ ((0 <= Session.position s)%Z ->
      exists r s', check_answer answer fs s = (Ok r, snd (load_data fs), s')).
Proof.
  split.
  - intros H. split.
    + apply check_answer_finished. exact H.
    + apply py_index_past_end. exact H.
  - intros H0.
    destruct (Z.le_gt_cases (Z.of_nat (List.length (Session.items s)))
                (Session.position s)) as [H | H].
    + exists Finished, s. apply check_answer_finished. exact H.
    + destruct (py_index_in_range (Session.items s) (conj H0 H))
        as [[term translation] [Hi _]].
      eexists _, _. eapply check_answer_in_progress; [exact H | exact Hi].
Qed.

Lemma check_answer_after_the_end_witness :
  check_answer (Some (py "договор")) None Session.empty
  = (Ok Finished, snd (load_data None), Session.empty)
  /\ check_answer None None (quiz_at 2 1)
     = (Ok Finished, snd (load_data None), quiz_at 2 1).
Proof.
  split.
  - apply (proj1 (@check_answer_after_the_end latin_cyrillic
                    (Some (py "договор")) None Session.empty)).
    session_fields. lia.
  - apply (proj1 (@check_answer_after_the_end latin_cyrillic
                    None None (quiz_at 2 1))).
    session_fields. lia.
Defined.

(** C6: every session reachable from the empty one by quiz starts and answer
    submissions, against any contents of the durable file, satisfies
    [0 <= position <= len(items)] and [0 <= score <= position]. *)
Theorem reachable_session_invariant {CM : CaseMap} (s : Session.state) :
  reachable s -> session_invariant s.
Proof.
  induction 1 as [| s category fs r fs' s' Hs IH Ht
                  | s answer fs r fs' s' Hs IH Hc].
  - unfold session_invariant. session_fields. lia.
  - unfold test in Ht.
    destruct (load_dataset fs) as [[data fs1]|]; [|discriminate].
    destruct (Dict.get category data) as [ws|].
    + destruct (Dict.is_empty ws) eqn:E.
      * inversion Ht; subst. exact IH.
      * inversion Ht; subst. unfold session_invariant. session_fields.
        lia.
    + inversion Ht; subst. exact IH.
  - destruct IH as [[Hp0 Hp1] [Hs0 Hs1]].
    destruct (Z.le_gt_cases (Z.of_nat (List.length (Session.items s)))
                (Session.position s)) as [H | H].
    + rewrite (check_answer_finished answer fs s H) in Hc.
      inversion Hc; subst. repeat split; assumption.
    + destruct (py_index_in_range (Session.items s) (conj Hp0 H))
        as [[term translation] [Hi _]].
      rewrite (check_answer_in_progress answer fs s H Hi) in Hc.
      inversion Hc; subst.
      set (b := PyStr.eqb _ _).
      destruct (answered_fields b s) as [Hitems [Hpos [Hpts _]]].
      unfold session_invariant. rewrite Hitems, Hpos, Hpts.
      destruct b; lia.
Qed.

Lemma reachable_session_invariant_witness :
  session_invariant (quiz_at 1 1).
Proof.
  apply (@reachable_session_invariant latin_cyrillic).
  apply (@reach_check latin_cyrillic (quiz_at 0 0)
           (Some (py "Преступление")) None
           (Ok (Answered true (py "преступление") false))
           (Some (dump get_default_data))).
  - apply (@reach_test latin_cyrillic Session.empty (py "Уголовное право")
             (saved [(py "Уголовное право", two_words)] None)
             (RenderTest (py "Уголовное право") 2 1)
             (saved [(py "Уголовное право", two_words)] None)).
    + apply reach_empty.
    + vm_compute. reflexivity.
  - vm_compute. reflexivity.
Defined.

(** The scenario of a two-word quiz: a right answer, then a wrong one. *)
Example quiz_scoring :
  let '(r1, fs1, s1) := check_answer (Some (py "преступление")) None
                          (quiz_at 0 0) in
  let '(r2, fs2, s2) := check_answer (Some (py "wrong")) fs1 s1 in
  r1 = Ok (Answered true (py "преступление") false)
  /\ r2 = Ok (Answered false (py "наказание") true)
  /\ page_score (fst (results s2)) = 1%Z
  /\ page_total (fst (results s2)) = 2%Z
  /\ page_percentage (fst (results s2)) = PyNum.PyFloat 50%float.
Proof. vm_compute. repeat split. Qed.

(** C10: the response of [/check_answer] and the session it leaves depend
    on the session and the answer only: they are the same whatever the durable
    file holds. *)
Theorem check_answer_ignores_the_dataset {CM : CaseMap}
    (answer : option pystr) (s : Session.state) (fs1 fs2 : FS) :
  fst (fst (check_answer answer fs1 s)) = fst (fst (check_answer answer fs2 s))
  /\ snd (check_answer answer fs1 s) = snd (check_answer answer fs2 s).
Proof.
  unfold check_answer.
  destruct (load_data fs1) as [d1 f1], (load_data fs2) as [d2 f2].
  destruct (Z.of_nat _ <=? _)%Z; [split; reflexivity|].
  destruct (py_index _ _) as [[w t]|]; split; reflexivity.
Qed.

(* ------------------------------------------------------------------ *)
(** * The vocabulary: deletions *)

Module VocabularyFacts.

Lemma get_in {V} (k : pystr) (v : V) (d : Dict.dict V) :
  Dict.get k d = Some v -> exists k', In (k', v) d.
Proof.
  induction d as [|[k' v'] d IH]; simpl; [discriminate|].
  destruct (PyStr.eqb k k').
  - intros E. inversion E; subst. exists k'. left. reflexivity.
  - intros E. destruct (IH E) as [k0 H]. exists k0. right. exact H.
Qed.

Lemma get_del_same {V} (k : pystr) (d : Dict.dict V) :
  NoDup (Dict.keys d) -> Dict.get k (Dict.del k d) = None.
Proof.
  induction d as [|[k' v'] d IH]; simpl; intros ND; [reflexivity|].
  inversion ND as [|? ? Hn ND']; subst.
  destruct (PyStr.eqb k k') eqn:E.
  - apply eqb_eq in E. subst. apply get_none_not_in. exact Hn.
  - simpl. rewrite E. apply IH. exact ND'.
Qed.

Lemma is_empty_nil {V} (d : Dict.dict V) : Dict.is_empty d = true <-> d = [].
Proof. destruct d; simpl; split; congruence. Qed.

Lemma del_preserves (k : pystr) (d : Dataset) :
  well_formed d -> well_formed (Dict.del k d).
Proof.
  intros [[ND NDw] NE]. unfold well_formed, is_mapping, no_empty_category in *.
  rewrite Forall_forall in *.
  repeat split.
  - apply keys_del_nodup. exact ND.
  - intros kv H. apply NDw. eapply in_del. exact H.
  - apply Forall_forall. intros kv H. apply NE. eapply in_del. exact H.
Qed.

Lemma set_preserves (k : pystr) (ws : Words) (d : Dataset) :
  NoDup (Dict.keys ws) -> ws <> [] ->
  well_formed d -> well_formed (Dict.set k ws d).
Proof.
  intros NDk NEk [[ND NDw] NE].
  unfold well_formed, is_mapping, no_empty_category in *.
  rewrite Forall_forall in *.
  repeat split.
  - apply keys_set_nodup. exact ND.
  - intros kv H. destruct (in_set _ _ _ _ H) as [H1 | ->]; auto.
  - apply Forall_forall. intros kv H.
    destruct (in_set _ _ _ _ H) as [H1 | ->]; auto.
Qed.

Lemma delete_word_preserves (category english : pystr) (d : Dataset) :
  well_formed d -> well_formed (delete_word category english d).
Proof.
  intros WF. unfold delete_word.
  destruct (Dict.get category d) as [ws|] eqn:G; [|exact WF].
  destruct (Dict.mem english ws); [|exact WF].
  destruct (Dict.is_empty (Dict.del english ws)) eqn:E.
  - apply del_preserves. exact WF.
  - apply set_preserves; [| |exact WF].
    + apply keys_del_nodup.
      destruct (get_in _ _ G) as [k' Hin].
      destruct WF as [[_ NDw] _]. rewrite Forall_forall in NDw.
      apply (NDw _ Hin).
    + intros H. apply is_empty_nil in H. congruence.
Qed.

Lemma delete_category_preserves (category : pystr) (d : Dataset) :
  well_formed d -> well_formed (delete_category category d).
Proof.
  intros WF. unfold delete_category.
  destruct (Dict.mem category d); [apply del_preserves|]; exact WF.
Qed.

Lemma after_delete_preserves (category : pystr) (english : option pystr)
    (d : Dataset) :
  well_formed d -> well_formed (after_delete category english d).
Proof.
  intros WF. unfold after_delete.
  destruct (negb _);
    [apply delete_word_preserves | apply delete_category_preserves]; exact WF.
Qed.

Lemma api_words_delete (category : pystr) (english : option pystr)
    (d : Dataset) (fs : FS) :
  is_mapping d -> encodable_data d = true ->
  api_words (DELETE category english) (saved d fs)
  = Some (Ok JsonSuccess, saved (after_delete category english d) fs).
Proof.
  intros M E. unfold api_words.
  rewrite (@load_dataset_save_data d fs M E).
  change (if negb (is_empty_str (field english))
          then delete_word category (field english) d
          else delete_category category d)
    with (after_delete category english d).
  rewrite (@save_data_saved _ fs (saved d fs)
             (encodable_after_delete category english d E)).
  reflexivity.
Qed.

Lemma api_words_get (d : Dataset) (fs : FS) :
  is_mapping d -> encodable_data d = true ->
  api_words GET (saved d fs) = Some (Ok (JsonData d), saved d fs).
Proof.
  intros M E. unfold api_words.
  rewrite (@load_dataset_save_data d fs M E). reflexivity.
Qed.

(** The sole word of a category goes with the category, on either branch. *)
Lemma after_delete_sole_word (category english translation : pystr)
    (d : Dataset) :
  is_mapping d ->
  Dict.get category d = Some [(english, translation)] ->
  Dict.get category (after_delete category (Some english) d) = None.
Proof.
  intros [ND _] G. unfold after_delete, delete_word, delete_category.
  cbn [field].
  destruct (negb (is_empty_str english)).
  - rewrite G. unfold Dict.mem. cbn [Dict.get Dict.del].
    rewrite eqb_refl. cbn [Dict.is_empty].
    apply get_del_same. exact ND.
  - unfold Dict.mem. rewrite G. apply get_del_same. exact ND.
Qed.

End VocabularyFacts.
Import VocabularyFacts.

(* ------------------------------------------------------------------ *)
(** * The store: round trip and loading *)

(** C8, as stated, fails: a well-formed dataset with a lone surrogate in a
    translation is not written ([save_data] raises and the file keeps the
    start of the document), and the load that follows returns the default
    data. *)
Lemma save_then_load_lone_surrogate :
  let d : Dataset := [(py "Law", [(py "tort", [55296%N])])] in
  well_formed d
  /\ fst (save_data d None) = Raise UnicodeEncodeError
  /\ fst (load_data (saved d None)) = to_json get_default_data
  /\ fst (load_data (saved d None)) <> to_json d.
Proof.
  cbv zeta. split; [apply well_formedb_sound; vm_compute; reflexivity|].
  split; [vm_compute; reflexivity|].
  split; [vm_compute; reflexivity|].
  vm_compute. discriminate.
Qed.

(** C8, amended: for a well-formed dataset whose strings hold no lone
    surrogate, [save_data] writes the whole document and loading again gives
    the dataset back. *)
Theorem save_then_load (d : Dataset) (fs : FS) :
  well_formed d -> encodable_data d = true ->
  fst (save_data d fs) = Ok tt
  /\ fst (load_data (saved d fs)) = to_json d
  /\ load_dataset (saved d fs) = Some (d, saved d fs).
Proof.
  intros [M _] E. split; [|split].
  - rewrite (@save_data_ok d fs E). reflexivity.
  - rewrite (@load_data_save_data d fs M E). reflexivity.
  - apply load_dataset_save_data; assumption.
Qed.

Lemma save_then_load_witness :
  fst (save_data get_default_data None) = Ok tt
  /\ fst (load_data (saved get_default_data None)) = to_json get_default_data
  /\ load_dataset (saved get_default_data None)
     = Some (get_default_data, saved get_default_data None).
Proof.
  apply save_then_load.
  - apply well_formedb_sound. vm_compute. reflexivity.
  - vm_compute. reflexivity.
Defined.

(** C3, as stated, fails: after loading from a file that does not parse, the
    file does not hold the dataset that was returned. *)
Lemma load_data_corrupt_file_not_rewritten :
  ~ (forall fs : FS,
       exists t, snd (load_data fs) = Some t
                 /\ loads t = Some (fst (load_data fs))).
Proof.
  intros H. destruct (H corrupt_file) as [t [E1 E2]].
  vm_compute in E1. inversion E1; subst.
  vm_compute in E2. discriminate E2.
Qed.

(** C3, amended: [load_data] always returns.  From an absent file it returns
    the default data and writes it (the write does not raise), so that the
    file then reads back as the value returned; from a file that parses it
    returns the parsed value and from a file that does not parse the default
    data, leaving the file as it is in both cases. *)
Theorem load_data_cases (fs : FS) :
  exists v fs',
    load_data fs = (v, fs')
    /\ match fs with
       | None =>
         v = to_json get_default_data
         /\ save_data get_default_data None = (Ok tt, fs')
         /\ fs' = saved get_default_data None
         /\ load_data fs' = (v, fs')
       | Some t =>
         fs' = fs
         /\ v = match loads t with
                | Some parsed => parsed
                | None => to_json get_default_data
                end
       end.
Proof.
  destruct fs as [t|].
  - unfold load_data. destruct (loads t) as [parsed|]; eauto.
  - exists (to_json get_default_data), (saved get_default_data None).
    split; [reflexivity|].
    split; [reflexivity|].
    split; [apply save_data_saved; vm_compute; reflexivity|].
    split; [reflexivity|].
    apply load_data_save_data.
    + apply well_formedb_sound. vm_compute. reflexivity.
    + vm_compute. reflexivity.
Qed.

(** On an empty store the default data is what the first request sees. *)
Example first_load_gives_seed :
  load_dataset None = Some (get_default_data, saved get_default_data None)
  /\ Dict.keys get_default_data
     = [py "Гражданское право"; py "Уголовное право"; py "Международное право"]
  /\ map (fun kv => List.length (snd kv)) get_default_data = [4; 4; 4]
  /\ option_map (Dict.get (py "contract"))
       (Dict.get (py "Гражданское право") get_default_data)
     = Some (Some (py "договор")).
Proof. vm_compute. repeat split. Qed.

(* ------------------------------------------------------------------ *)
(** * The results page *)

(** C9: [/results] returns the score, the number of words, the category
    and the percentage [round(score / total * 100, 1)], or [0] when there is
    no word; it reads the session in any state and leaves it as it is. *)
Theorem results_page (s : Session.state) :
  exists page,
    results s = (page, s)
    /\ page_score page = Session.points s
    /\ page_total page = Z.of_nat (List.length (Session.items s))
    /\ page_category page = Session.get Session.category [] s
    /\ page_percentage page
       = (if (0 <? page_total page)%Z
          then PyNum.PyFloat
                 (PyNum.round1
                    (PrimFloat.mul
                       (PyNum.truediv (page_score page) (page_total page))
                       100%float))
          else PyNum.PyInt 0)
    /\ ((0 <? page_total page)%Z = false <-> Session.items s = []).
Proof.
  eexists. split; [reflexivity|]. cbn [fst page_score page_total
                                       page_category page_percentage].
  repeat split.
  - intros H. apply Z.ltb_ge in H.
    destruct (Session.items s) as [|w ws] eqn:E; [reflexivity|].
    fold (Session.items s) in H. rewrite E in H. simpl in H. lia.
  - intros E. fold (Session.items s). rewrite E. reflexivity.
Qed.

Example results_before_any_quiz :
  results Session.empty
  = ({| page_score := 0; page_total := 0; page_category := [];
        page_percentage := PyNum.PyInt 0 |}, Session.empty).
Proof. reflexivity. Qed.

Example results_one_of_two :
  page_percentage (fst (results (quiz_at 2 1))) = PyNum.PyFloat 50%float.
Proof. vm_compute. reflexivity. Qed.

Example results_one_of_three :
  page_percentage
    (fst (results
            {| Session.test_words :=
                 Some [(py "a", py "b"); (py "c", py "d"); (py "e", py "f")];
               Session.current_index := Some 1%Z;
               Session.score := Some 1%Z;
               Session.category := None |}))
  = PyNum.PyFloat (PrimFloat.div 333%float 10%float).
Proof. vm_compute. reflexivity. Qed.

(* ------------------------------------------------------------------ *)
(** * Adding words: the form and the JSON API *)

Module UpsertFacts.

Lemma get_ensure_category (category : pystr) (d : Dataset) :
  exists ws, Dict.get category (ensure_category category d) = Some ws.
Proof.
  unfold ensure_category, Dict.mem.
  destruct (Dict.get category d) as [ws|] eqn:G; simpl.
  - eauto.
  - exists []. apply get_set_same.
Qed.

(** After an upsert the entry is stored under the key that was passed. *)
Lemma upserted_get (category english russian : pystr) (d : Dataset) :
  exists ws,
    Dict.get category (upserted category english russian d) = Some ws
    /\ Dict.get english ws = Some russian.
Proof.
  unfold upserted, set_word.
  destruct (get_ensure_category category d) as [ws G].
  rewrite G. exists (Dict.set english russian ws).
  split; apply get_set_same.
Qed.

Lemma ensure_category_mapping (category : pystr) (d : Dataset) :
  is_mapping d -> is_mapping (ensure_category category d).
Proof.
  intros [ND NDw]. unfold ensure_category.
  destruct (negb (Dict.mem category d)); [|split; assumption].
  split; [apply keys_set_nodup; exact ND|].
  rewrite Forall_forall in *. intros kv H.
  destruct (in_set _ _ _ _ H) as [H1 | ->]; [auto | constructor].
Qed.

Lemma upserted_mapping (category english russian : pystr) (d : Dataset) :
  is_mapping d -> is_mapping (upserted category english russian d).
Proof.
  intros M. apply (ensure_category_mapping category) in M.
  unfold upserted, set_word.
  destruct (Dict.get category (ensure_category category d)) as [ws|] eqn:G;
    [|exact M].
  destruct M as [ND NDw]. split; [apply keys_set_nodup; exact ND|].
  rewrite Forall_forall in *. intros kv H.
  destruct (in_set _ _ _ _ H) as [H1 | ->]; [auto|].
  apply keys_set_nodup.
  destruct (get_in _ _ G) as [k' Hin]. apply (NDw _ Hin).
Qed.

(** POST [/api/words] stores the fields as they come: no trimming, no
    lower-casing, no check. *)
Lemma api_words_post (english russian category : pystr) (d : Dataset)
    (fs : FS) :
  is_mapping d -> encodable_data d = true ->
  encodable_data (upserted category english russian d) = true ->
  api_words (POST english russian category) (saved d fs)
  = Some (Ok JsonSuccess, saved (upserted category english russian d) fs).
Proof.
  intros M E E'. unfold api_words.
  rewrite (@load_dataset_save_data d fs M E).
  change (set_word category english russian (ensure_category category d))
    with (upserted category english russian d).
  rewrite (@save_data_saved _ fs (saved d fs) E'). reflexivity.
Qed.

Section Form.

Context {CM : CaseMap}.

Lemma lower_empty (s : pystr) : is_empty_str (lower s) = is_empty_str s.
Proof.
  destruct (lower s) as [|c' s'] eqn:E.
  - apply (proj1 (lower_nil s)) in E. subst s. reflexivity.
  - destruct s as [|c s]; [|reflexivity].
    rewrite (proj2 (lower_nil []) eq_refl) in E. discriminate E.
Qed.

(** The form handler rejects a request whose term or translation is empty
    after trimming, or for which no category is given: it answers with an
    error message and writes nothing. *)
Lemma add_word_rejects (form : AddWordForm) (d : Dataset) (fs : FS) :
  is_mapping d -> encodable_data d = true ->
  strip (field (form_english form)) = []
  \/ strip (field (form_russian form)) = []
  \/ (strip (field (form_new_category form)) = []
      /\ strip (field (form_category form)) = []) ->
  exists msg,
    add_word (Some form) (saved d fs)
    = Some (Ok {| categories := Dict.keys d; error := Some msg;
                  success := None |}, saved d fs).
Proof.
  intros M E H. unfold add_word.
  rewrite (@load_dataset_save_data d fs M E).
  rewrite lower_empty.
  destruct (strip (field (form_english form))) as [|c1 e] eqn:E1;
    [simpl; eauto|].
  destruct (strip (field (form_russian form))) as [|c2 r] eqn:E2;
    [simpl; eauto|].
  destruct H as [H | [H | [H1 H2]]]; try discriminate.
  rewrite H1, H2. simpl. eauto.
Qed.

(** The form handler stores an accepted word under its trimmed, lower-cased
    term, with the trimmed translation, in the new category when one is given
    and in the selected one otherwise. *)
Lemma add_word_accepts (form : AddWordForm) (d : Dataset) (fs : FS) :
  is_mapping d ->
  strip (field (form_english form)) <> [] ->
  strip (field (form_russian form)) <> [] ->
  let english := lower (strip (field (form_english form))) in
  let russian := strip (field (form_russian form)) in
  let final_category :=
    if is_empty_str (strip (field (form_new_category form)))
    then strip (field (form_category form))
    else strip (field (form_new_category form)) in
  final_category <> [] ->
  encodable_data d = true ->
  encodable_data (upserted final_category english russian d) = true ->
  exists page,
    add_word (Some form) (saved d fs)
    = Some (Ok page, saved (upserted final_category english russian d) fs)
    /\ error page = None.
Proof.
  intros M H1 H2 english russian final_category H3 E E'.
  unfold add_word.
  rewrite (@load_dataset_save_data d fs M E).
  revert E'. unfold upserted. subst english russian. intros E'.
  rewrite lower_empty.
  destruct (strip (field (form_english form))) as [|c1 e] eqn:E1;
    [congruence|].
  destruct (strip (field (form_russian form))) as [|c2 r] eqn:E2;
    [congruence|].
  cbn [is_empty_str orb].
  subst final_category.
  destruct (is_empty_str (strip (field (form_new_category form)))) eqn:E3;
    cbn [negb].
  - destruct (strip (field (form_category form))) eqn:E4; [congruence|].
    cbn [is_empty_str]. rewrite (@save_data_saved _ fs (saved d fs) E').
    eexists. split; reflexivity.
  - destruct (strip (field (form_new_category form))) eqn:E4;
      [discriminate E3|].
    cbn [is_empty_str]. rewrite (@save_data_saved _ fs (saved d fs) E').
    eexists. split; reflexivity.
Qed.

End Form.

End UpsertFacts.
Import UpsertFacts.

(** C1, on the code: POST [/api/words] with the term [Tort] on an empty
    store answers success, and the following GET shows the entry under [Tort],
    not under [tort]; the same term sent through the form is stored under
    [tort]. *)
Theorem api_post_keeps_the_case_of_the_term :
  let category := py "Гражданское право" in
  let d := upserted category (py "Tort") (py "деликт") get_default_data in
  let form := {| form_english := Some (py "Tort");
                 form_russian := Some (py "деликт");
                 form_category := Some category;
                 form_new_category := None |} in
  api_words (POST (py "Tort") (py "деликт") category) None
  = Some (Ok JsonSuccess, saved d None)
  /\ api_words GET (saved d None) = Some (Ok (JsonData d), saved d None)
  /\ option_map (Dict.get (py "Tort")) (Dict.get category d)
     = Some (Some (py "деликт"))
  /\ option_map (Dict.get (py "tort")) (Dict.get category d) = Some None
  /\ option_map snd (add_word (Some form) None)
     = Some (saved
               (upserted category (py "tort") (py "деликт") get_default_data)
               None).
Proof. vm_compute. repeat split. Qed.

(** C2, on the code: POST [/api/words] with a blank term and an empty
    translation is answered with success and the entry is written to the file;
    the form answers the same fields with an error and writes nothing more than
    the default data of the first load. *)
Theorem api_post_accepts_blank_fields :
  let category := py "Law" in
  let d := upserted category (py "   ") [] get_default_data in
  let form := {| form_english := Some (py "   ");
                 form_russian := Some [];
                 form_category := Some category;
                 form_new_category := None |} in
  api_words (POST (py "   ") [] category) None
  = Some (Ok JsonSuccess, saved d None)
  /\ api_words GET (saved d None) = Some (Ok (JsonData d), saved d None)
  /\ option_map (Dict.get (py "   ")) (Dict.get category d) = Some (Some [])
  /\ add_word (Some form) None
     = Some (Ok {| categories := Dict.keys get_default_data;
                   error := Some msg_fields_required;
                   success := None |},
             saved get_default_data None).
Proof. vm_compute. repeat split. Qed.

(* ------------------------------------------------------------------ *)
(** * What a request reads from the store *)

Module LoadFacts.

Lemma scan_number_keys (s : text) (v : jval) (r : text) :
  scan_number s = Some (v, r) -> keys_unique v.
Proof.
  unfold scan_number.
  destruct (scan_sign s) as [neg s1].
  destruct (scan_int s1) as [[ds s2]|]; [|discriminate].
  destruct (scan_frac s2) as [frac s3].
  destruct (scan_exp s3) as [exp s4].
  destruct frac, exp; intros H; inversion H; subst; constructor.
Qed.

Lemma scan_atom_keys (s : text) (v : jval) (r : text) :
  scan_atom s = Some (v, r) -> keys_unique v.
Proof.
  unfold scan_atom.
  destruct (strip_prefix lit_null s);
    [intros H; inversion H; subst; constructor|].
  destruct (strip_prefix lit_true s);
    [intros H; inversion H; subst; constructor|].
  destruct (strip_prefix lit_false s);
    [intros H; inversion H; subst; constructor|].
  destruct (scan_number s) as [[v' r']|] eqn:E;
    [intros H; inversion H; subst; eapply scan_number_keys; eassumption|].
  destruct (strip_prefix lit_nan s);
    [intros H; inversion H; subst; constructor|].
  destruct (strip_prefix lit_inf s);
    [intros H; inversion H; subst; constructor|].
  destruct (strip_prefix lit_neg_inf s);
    [intros H; inversion H; subst; constructor|].
  discriminate.
Qed.

Lemma set_values {V} (P : V -> Prop) (k : pystr) (v : V) (d : Dict.dict V) :
  P v -> Forall (fun kv => P (snd kv)) d ->
  Forall (fun kv => P (snd kv)) (Dict.set k v d).
Proof.
  intros Hv Hd. rewrite Forall_forall in *. intros kv Hin.
  destruct (in_set _ _ _ _ Hin) as [H | ->]; auto.
Qed.

(** The parser never builds an object with a repeated key: of the pairs of
    a repeated key the last value is kept. *)
Lemma parsed_keys_unique (f : nat) :
  (forall s v r, scan_once f s = Some (v, r) -> keys_unique v)
  /\ (forall acc s v r,
        NoDup (map fst acc) ->
        Forall (fun kv => keys_unique (snd kv)) acc ->
        object_loop f acc s = Some (v, r) -> keys_unique v)
  /\ (forall acc s v r,
        Forall keys_unique acc ->
        array_loop f acc s = Some (v, r) -> keys_unique v).
Proof.
  induction f as [|f [IHs [IHo IHa]]].
  - repeat split; intros; discriminate.
  - split; [|split].
    + intros s v r. rewrite scan_once_eq.
      destruct s as [|c t]; [discriminate|].
      destruct (c =? 34)%N.
      { destruct (scanstring t) as [[str rest]|]; [|discriminate].
        intros H; inversion H; subst; constructor. }
      destruct (c =? 123)%N.
      { destruct (skip_ws t) as [|c1 r1]; [discriminate|].
        destruct (c1 =? 125)%N.
        { intros H; inversion H; subst. constructor; constructor. }
        destruct (c1 =? 34)%N; [|discriminate].
        apply IHo; constructor. }
      destruct (c =? 91)%N; [|apply scan_atom_keys].
      destruct (skip_ws t) as [|c1 r1]; [discriminate|].
      destruct (c1 =? 93)%N.
      { intros H; inversion H; subst. constructor; constructor. }
      apply IHa; constructor.
    + intros acc s v r ND HF. rewrite object_loop_eq.
      destruct (scanstring s) as [[key r1]|]; [|discriminate].
      destruct (skip_ws r1) as [|c r3]; [discriminate|].
      destruct (c =? 58)%N; [|discriminate].
      destruct (scan_once f (skip_ws r3)) as [[v1 r5]|] eqn:Ev; [|discriminate].
      apply IHs in Ev.
      assert (ND' : NoDup (map fst (Dict.set key v1 acc)))
        by (apply (keys_set_nodup key v1 acc ND)).
      assert (HF' : Forall (fun kv => keys_unique (snd kv))
                      (Dict.set key v1 acc))
        by (apply set_values; assumption).
      destruct (skip_ws r5) as [|c2 r7]; [discriminate|].
      destruct (c2 =? 125)%N.
      { intros H; inversion H; subst. constructor; assumption. }
      destruct (c2 =? 44)%N; [|discriminate].
      destruct (skip_ws r7) as [|c3 r8]; [discriminate|].
      destruct (c3 =? 34)%N; [|discriminate].
      apply IHo; assumption.
    + intros acc s v r HF. rewrite array_loop_eq.
      destruct (scan_once f s) as [[v1 r1]|] eqn:Ev; [|discriminate].
      apply IHs in Ev.
      assert (HF' : Forall keys_unique (acc ++ [v1])).
      { apply Forall_app. split; [assumption | constructor; [assumption|constructor]]. }
      destruct (skip_ws r1) as [|c r2]; [discriminate|].
      destruct (c =? 93)%N.
      { intros H; inversion H; subst. constructor; assumption. }
      destruct (c =? 44)%N; [|discriminate].
      apply IHa; assumption.
Qed.

Lemma loads_keys_unique (t : text) (v : jval) :
  loads t = Some v -> keys_unique v.
Proof.
  unfold loads.
  destruct (scan_once (S (List.length t)) (skip_ws t)) as [[v' r]|] eqn:E;
    [|discriminate].
  destruct (skip_ws r); [|discriminate].
  intros H; inversion H; subst.
  eapply (proj1 (parsed_keys_unique _)); eassumption.
Qed.

Lemma as_words_keys (l : list (pystr * jval)) (ws : Words) :
  as_words l = Some ws -> Dict.keys ws = map fst l.
Proof.
  revert ws. induction l as [|[k v] l IH]; intros ws H; simpl in H.
  - inversion H; reflexivity.
  - destruct v; try discriminate.
    destruct (as_words l) as [ws'|]; [|discriminate].
    inversion H; subst. simpl. rewrite (IH _ eq_refl). reflexivity.
Qed.

Lemma as_categories_mapping (l : list (pystr * jval)) (d : Dataset) :
  as_categories l = Some d ->
  Forall (fun kv => keys_unique (snd kv)) l ->
  Dict.keys d = map fst l
  /\ Forall (fun kv => NoDup (Dict.keys (snd kv))) d.
Proof.
  revert d. induction l as [|[k v] l IH]; intros d H HF; simpl in H.
  - inversion H; subst. split; [reflexivity | constructor].
  - destruct v; try discriminate.
    destruct (as_words d0) as [ws|] eqn:Ew; [|discriminate].
    destruct (as_categories l) as [d'|]; [|discriminate].
    inversion H; subst. inversion HF as [|? ? Hv HF']; subst.
    destruct (IH _ eq_refl HF') as [Hk Hw].
    split; [simpl; rewrite Hk; reflexivity|].
    constructor; [|assumption].
    simpl in *. inversion Hv; subst.
    rewrite (as_words_keys _ Ew). assumption.
Qed.

Lemma as_dataset_mapping (v : jval) (d : Dataset) :
  as_dataset v = Some d -> keys_unique v -> is_mapping d.
Proof.
  destruct v; try discriminate. simpl. intros H K.
  inversion K; subst.
  destruct (@as_categories_mapping d0 d H) as [Hk Hw]; [assumption|].
  split; [rewrite Hk; assumption | assumption].
Qed.

Lemma default_data_well_formed : well_formed get_default_data.
Proof. apply well_formedb_sound. vm_compute. reflexivity. Qed.

Lemma load_data_keys_unique (fs : FS) : keys_unique (fst (load_data fs)).
Proof.
  assert (Hd : keys_unique (to_json get_default_data)).
  { apply loads_keys_unique with (t := dump get_default_data).
    apply loads_dump. apply default_data_well_formed. }
  unfold load_data. destruct fs as [t|]; [|exact Hd].
  destruct (loads t) as [v|] eqn:E; [|exact Hd].
  simpl. eapply loads_keys_unique. eassumption.
Qed.

Lemma load_dataset_mapping (fs fs' : FS) (d : Dataset) :
  load_dataset fs = Some (d, fs') -> is_mapping d.
Proof.
  unfold load_dataset. pose proof (load_data_keys_unique fs) as K.
  destruct (load_data fs) as [v fs1]. simpl in K.
  destruct (as_dataset v) as [d'|] eqn:E; [|discriminate].
  intros H; inversion H; subst. eapply as_dataset_mapping; eassumption.
Qed.

(** Loading is idempotent. *)
Lemma load_data_twice (fs : FS) :
  load_data (snd (load_data fs)) = (fst (load_data fs), snd (load_data fs)).
Proof.
  destruct fs as [t|].
  - unfold load_data at 2 3. unfold load_data at 2.
    destruct (loads t) as [v|] eqn:E; simpl; unfold load_data; rewrite E;
      reflexivity.
  - exact (@load_data_save_data get_default_data None
             (proj1 default_data_well_formed) default_data_encodable).
Qed.

Lemma load_dataset_file (fs fs' : FS) (d : Dataset) :
  load_dataset fs = Some (d, fs') -> fs' = snd (load_data fs).
Proof.
  unfold load_dataset. destruct (load_data fs) as [v fs1].
  destruct (as_dataset v); [|discriminate].
  intros H; inversion H; reflexivity.
Qed.

Lemma load_dataset_twice (fs fs' : FS) (d : Dataset) :
  load_dataset fs = Some (d, fs') -> load_dataset fs' = Some (d, fs').
Proof.
  intros H. pose proof (load_dataset_file _ H) as ->.
  unfold load_dataset in *. rewrite load_data_twice.
  destruct (load_data fs) as [v fs1]. simpl.
  destruct (as_dataset v); [|discriminate].
  inversion H; reflexivity.
Qed.

Lemma stored_some (fs : FS) (d : Dataset) :
  stored fs = Some d <-> exists fs', load_dataset fs = Some (d, fs').
Proof.
  unfold stored. destruct (load_dataset fs) as [[d' fs']|]; simpl.
  - split; [intros H; inversion H; eauto | intros [? H]; inversion H; auto].
  - split; [discriminate | intros [? H]; discriminate].
Qed.

Lemma stored_save_data (d : Dataset) (fs : FS) :
  is_mapping d -> encodable_data d = true -> stored (saved d fs) = Some d.
Proof.
  intros M E. unfold stored.
  rewrite (@load_dataset_save_data d fs M E). reflexivity.
Qed.

Lemma stored_unreadable (t : text) :
  loads t = None -> stored (Some t) = Some get_default_data.
Proof.
  intros E. unfold stored, load_dataset, load_data.
  rewrite E, as_dataset_to_json. reflexivity.
Qed.

Lemma stored_mapping (fs : FS) (d : Dataset) :
  stored fs = Some d -> is_mapping d.
Proof.
  intros H. apply stored_some in H. destruct H as [fs' H].
  eapply load_dataset_mapping. eassumption.
Qed.

End LoadFacts.
Import LoadFacts.

(* ------------------------------------------------------------------ *)
(** * Upserts and deletions on the stored dataset *)

Module DatasetFacts.

Lemma get_del_other {V} (k k0 : pystr) (d : Dict.dict V) :
  k0 <> k -> Dict.get k0 (Dict.del k d) = Dict.get k0 d.
Proof.
  intros N. induction d as [|[k' v'] d IH]; simpl; [reflexivity|].
  destruct (PyStr.eqb k k') eqn:E; simpl.
  - apply eqb_eq in E. subst k'.
    apply eqb_neq in N. rewrite N. reflexivity.
  - rewrite IH. reflexivity.
Qed.

Lemma set_same_value {V} (k : pystr) (v : V) (d : Dict.dict V) :
  Dict.get k d = Some v -> Dict.set k v d = d.
Proof.
  induction d as [|[k' v'] d IH]; simpl; [discriminate|].
  destruct (PyStr.eqb k k').
  - intros H. inversion H; subst. reflexivity.
  - intros H. rewrite (IH H). reflexivity.
Qed.

Lemma set_set {V} (k : pystr) (v1 v2 : V) (d : Dict.dict V) :
  Dict.set k v2 (Dict.set k v1 d) = Dict.set k v2 d.
Proof.
  induction d as [|[k' v'] d IH]; simpl.
  - rewrite eqb_refl. reflexivity.
  - destruct (PyStr.eqb k k') eqn:E; simpl; rewrite E; [reflexivity|].
    rewrite IH. reflexivity.
Qed.

Lemma del_set_fresh {V} (k : pystr) (v : V) (d : Dict.dict V) :
  Dict.get k d = None -> Dict.del k (Dict.set k v d) = d.
Proof.
  induction d as [|[k' v'] d IH]; simpl.
  - rewrite eqb_refl. reflexivity.
  - destruct (PyStr.eqb k k') eqn:E; [discriminate|].
    intros H. simpl. rewrite E, (IH H). reflexivity.
Qed.

Lemma del_absent {V} (k : pystr) (d : Dict.dict V) :
  Dict.get k d = None -> Dict.del k d = d.
Proof.
  induction d as [|[k' v'] d IH]; simpl; [reflexivity|].
  destruct (PyStr.eqb k k'); [discriminate|].
  intros H. rewrite (IH H). reflexivity.
Qed.

Lemma mem_get {V} (k : pystr) (d : Dict.dict V) :
  Dict.mem k d = true <-> exists v, Dict.get k d = Some v.
Proof.
  unfold Dict.mem. destruct (Dict.get k d) as [v|].
  - split; eauto.
  - split; [discriminate | intros [v H]; discriminate].
Qed.

Lemma get_in_keys {V} (k : pystr) (v : V) (d : Dict.dict V) :
  Dict.get k d = Some v -> In k (Dict.keys d).
Proof.
  intros H. destruct (in_dec (list_eq_dec N.eq_dec) k (Dict.keys d)) as [I|I];
    [exact I|].
  apply get_none_not_in in I. congruence.
Qed.

Lemma get_some_in {V} (k : pystr) (v : V) (d : Dict.dict V) :
  Dict.get k d = Some v -> In (k, v) d.
Proof.
  induction d as [|[k' v'] d IH]; simpl; [discriminate|].
  destruct (PyStr.eqb k k') eqn:E.
  - apply eqb_eq in E. intros H. inversion H; subst. left; reflexivity.
  - intros H. right. auto.
Qed.

(** ** Upserts *)

(** An upsert sets one key of the category's words and puts the words back
    under the category. *)
Lemma upserted_eq (category english russian : pystr) (d : Dataset) :
  upserted category english russian d
  = Dict.set category (Dict.set english russian (words_of category d)) d.
Proof.
  unfold upserted, ensure_category, set_word, words_of, Dict.mem.
  destruct (Dict.get category d) as [ws|] eqn:G; simpl.
  - rewrite G. reflexivity.
  - rewrite get_set_same, set_set. reflexivity.
Qed.

Lemma translation_of_upserted (category english russian : pystr)
    (d : Dataset) :
  translation_of category english (upserted category english russian d)
  = Some russian.
Proof.
  rewrite upserted_eq. unfold translation_of.
  rewrite get_set_same. apply get_set_same.
Qed.

Lemma translation_of_upserted_other (category english russian c0 e0 : pystr)
    (d : Dataset) :
  c0 <> category \/ e0 <> english ->
  translation_of c0 e0 (upserted category english russian d)
  = translation_of c0 e0 d.
Proof.
  intros N. rewrite upserted_eq. unfold translation_of.
  destruct (list_eq_dec N.eq_dec c0 category) as [->|Nc].
  - destruct N as [N|N]; [contradiction|].
    rewrite get_set_same, (get_set_other _ _ N).
    unfold words_of. destruct (Dict.get category d); reflexivity.
  - rewrite (get_set_other _ _ Nc). reflexivity.
Qed.

(** An upsert on top of an upsert of the same term: the last one stands. *)
Lemma upserted_upserted (category english r1 r2 : pystr) (d : Dataset) :
  upserted category english r2 (upserted category english r1 d)
  = upserted category english r2 d.
Proof.
  rewrite (upserted_eq category english r2 (upserted _ _ _ _)).
  rewrite !upserted_eq.
  unfold words_of at 1. rewrite get_set_same, !set_set. reflexivity.
Qed.

Lemma keys_upserted (category english russian : pystr) (d : Dataset) :
  Dict.keys (upserted category english russian d)
  = if Dict.mem category d then Dict.keys d else Dict.keys d ++ [category].
Proof. rewrite upserted_eq. apply keys_set. Qed.



(** ** Deletions *)

Lemma del_mapping (k : pystr) (d : Dataset) :
  is_mapping d -> is_mapping (Dict.del k d).
Proof.
  intros [ND NDw]. split; [apply keys_del_nodup; exact ND|].
  rewrite Forall_forall in *. intros kv H. apply NDw. eapply in_del. exact H.
Qed.

Lemma set_mapping (k : pystr) (ws : Words) (d : Dataset) :
  NoDup (Dict.keys ws) -> is_mapping d -> is_mapping (Dict.set k ws d).
Proof.
  intros NDk [ND NDw]. split; [apply keys_set_nodup; exact ND|].
  rewrite Forall_forall in *. intros kv H.
  destruct (in_set _ _ _ _ H) as [H1 | ->]; auto.
Qed.

Lemma words_nodup (category : pystr) (ws : Words) (d : Dataset) :
  is_mapping d -> Dict.get category d = Some ws -> NoDup (Dict.keys ws).
Proof.
  intros [_ NDw] G. rewrite Forall_forall in NDw.
  apply (NDw _ (@get_some_in _ _ _ _ G)).
Qed.

Lemma delete_word_mapping (category english : pystr) (d : Dataset) :
  is_mapping d -> is_mapping (delete_word category english d).
Proof.
  intros M. unfold delete_word.
  destruct (Dict.get category d) as [ws|] eqn:G; [|exact M].
  destruct (Dict.mem english ws); [|exact M].
  destruct (Dict.is_empty (Dict.del english ws)).
  - apply del_mapping. exact M.
  - apply set_mapping; [|exact M].
    apply keys_del_nodup. eapply words_nodup; eassumption.
Qed.

Lemma after_delete_mapping (category : pystr) (english : option pystr)
    (d : Dataset) :
  is_mapping d -> is_mapping (after_delete category english d).
Proof.
  intros M. unfold after_delete, delete_category.
  destruct (negb _); [apply delete_word_mapping; exact M|].
  destruct (Dict.mem category d); [apply del_mapping|]; exact M.
Qed.

(** After the deletion of a word the word has no translation. *)
Lemma translation_of_delete_word (category english : pystr) (d : Dataset) :
  is_mapping d ->
  translation_of category english (delete_word category english d) = None.
Proof.
  intros M. unfold delete_word, translation_of.
  destruct (Dict.get category d) as [ws|] eqn:G; [|rewrite G; reflexivity].
  unfold Dict.mem.
  destruct (Dict.get english ws) as [t|] eqn:Ge; [|rewrite G; exact Ge].
  destruct (Dict.is_empty (Dict.del english ws)).
  - rewrite (get_del_same category d (proj1 M)). reflexivity.
  - rewrite get_set_same. apply get_del_same.
    eapply words_nodup; eassumption.
Qed.

(** The deletion of a word changes the translation of no other word. *)
Lemma translation_of_delete_word_other (category english c0 e0 : pystr)
    (d : Dataset) :
  is_mapping d ->
  c0 <> category \/ e0 <> english ->
  translation_of c0 e0 (delete_word category english d)
  = translation_of c0 e0 d.
Proof.
  intros M N. unfold delete_word.
  destruct (Dict.get category d) as [ws|] eqn:G; [|reflexivity].
  destruct (Dict.mem english ws); [|reflexivity].
  unfold translation_of.
  destruct (list_eq_dec N.eq_dec c0 category) as [->|Nc].
  - destruct N as [N|N]; [contradiction|]. rewrite G.
    destruct (Dict.is_empty (Dict.del english ws)) eqn:E.
    + rewrite (get_del_same category d (proj1 M)).
      apply is_empty_nil in E.
      rewrite <- (@get_del_other _ english e0 ws N), E. reflexivity.
    + rewrite get_set_same. apply get_del_other. exact N.
  - destruct (Dict.is_empty (Dict.del english ws)).
    + rewrite (@get_del_other _ category c0 d Nc). reflexivity.
    + rewrite (@get_set_other _ category c0 _ d Nc). reflexivity.
Qed.

(** The deletion of a word that is not there changes nothing. *)
Lemma delete_word_absent (category english : pystr) (d : Dataset) :
  translation_of category english d = None ->
  delete_word category english d = d.
Proof.
  unfold translation_of, delete_word, Dict.mem.
  destruct (Dict.get category d) as [ws|]; [|reflexivity].
  intros ->. reflexivity.
Qed.

(** A new word that is upserted and then deleted leaves the dataset as it
    was. *)
Lemma delete_word_upserted (category english russian : pystr) (d : Dataset) :
  no_empty_category d ->
  translation_of category english d = None ->
  delete_word category english (upserted category english russian d) = d.
Proof.
  intros NE T. rewrite upserted_eq. unfold delete_word.
  rewrite get_set_same. unfold Dict.mem. rewrite get_set_same.
  assert (Hw : Dict.get english (words_of category d) = None).
  { unfold translation_of in T. unfold words_of.
    destruct (Dict.get category d); [exact T | reflexivity]. }
  rewrite (@del_set_fresh _ english russian _ Hw).
  unfold words_of in *.
  destruct (Dict.get category d) as [ws|] eqn:G.
  - destruct ws as [|w ws'].
    + exfalso. unfold no_empty_category in NE. rewrite Forall_forall in NE.
      apply (NE _ (@get_some_in _ _ _ _ G)). reflexivity.
    + cbn [Dict.is_empty]. rewrite set_set. apply set_same_value. exact G.
  - cbn [Dict.is_empty]. apply del_set_fresh. exact G.
Qed.

Lemma get_delete_category (category : pystr) (d : Dataset) :
  is_mapping d -> Dict.get category (delete_category category d) = None.
Proof.
  intros M. unfold delete_category, Dict.mem.
  destruct (Dict.get category d) eqn:G; [|exact G].
  apply get_del_same. apply M.
Qed.

Lemma get_delete_category_other (category c0 : pystr) (d : Dataset) :
  c0 <> category ->
  Dict.get c0 (delete_category category d) = Dict.get c0 d.
Proof.
  intros N. unfold delete_category.
  destruct (Dict.mem category d); [|reflexivity].
  apply get_del_other. exact N.
Qed.

End DatasetFacts.

(* ------------------------------------------------------------------ *)
(** * Trimming *)

Module StripFacts.

Lemma lstrip_clean (s : pystr) : starts_clean (lstrip s).
Proof.
  induction s as [|c r IH]; simpl; [exact I|].
  destruct (isspace c) eqn:E; [exact IH | exact E].
Qed.

Lemma clean_lstrip (s : pystr) : starts_clean s -> lstrip s = s.
Proof. destruct s as [|c r]; simpl; [reflexivity | intros ->; reflexivity]. Qed.

(** What [lstrip] removes is white space. *)
Lemma lstrip_split (s : pystr) :
  exists p, s = p ++ lstrip s /\ forallb isspace p = true.
Proof.
  induction s as [|c r [p [Hp Hs]]]; simpl.
  - exists []. split; reflexivity.
  - destruct (isspace c) eqn:E.
    + exists (c :: p). simpl. rewrite E, Hs. split; [f_equal; exact Hp | reflexivity].
    + exists []. split; reflexivity.
Qed.

Lemma lstrip_spaces (s : pystr) :
  lstrip s = [] <-> forallb isspace s = true.
Proof.
  induction s as [|c r IH]; simpl; [tauto|].
  destruct (isspace c); simpl; [exact IH | split; discriminate].
Qed.

Lemma rstrip_clean (u : pystr) : starts_clean u -> starts_clean (rstrip u).
Proof.
  intros Hu. unfold rstrip.
  destruct (lstrip_split (rev u)) as [p [Hp _]].
  apply (f_equal (@rev char)) in Hp.
  rewrite rev_involutive, rev_app_distr in Hp.
  destruct (rev (lstrip (rev u))) as [|c t]; [exact I|].
  rewrite Hp in Hu. exact Hu.
Qed.

(** A trimmed string starts and ends without white space. *)
Lemma strip_clean (s : pystr) :
  starts_clean (strip s) /\ starts_clean (rev (strip s)).
Proof.
  unfold strip. split.
  - apply rstrip_clean. apply lstrip_clean.
  - unfold rstrip. rewrite rev_involutive. apply lstrip_clean.
Qed.

Lemma clean_strip (x : pystr) :
  starts_clean x -> starts_clean (rev x) -> strip x = x.
Proof.
  intros H1 H2. unfold strip, rstrip.
  rewrite (clean_lstrip x H1), (clean_lstrip (rev x) H2).
  apply rev_involutive.
Qed.

(** Trimming twice is trimming once. *)
Lemma strip_strip (s : pystr) : strip (strip s) = strip s.
Proof. destruct (strip_clean s). apply clean_strip; assumption. Qed.

(** The strings that trim to nothing are the strings of white space. *)
Lemma strip_nil (s : pystr) : strip s = [] <-> forallb isspace s = true.
Proof.
  split.
  - intros H. unfold strip, rstrip in H.
    apply (f_equal (@rev char)) in H. rewrite rev_involutive in H.
    simpl in H. apply lstrip_spaces in H.
    rewrite forallb_forall in H.
    pose proof (lstrip_clean s) as Hc.
    destruct (lstrip s) as [|c t] eqn:E.
    + apply lstrip_spaces. exact E.
    + simpl in Hc. rewrite (H c) in Hc; [discriminate|].
      apply in_rev. rewrite rev_involutive. left. reflexivity.
  - intros H. apply lstrip_spaces in H. unfold strip. rewrite H. reflexivity.
Qed.

End StripFacts.

(* ------------------------------------------------------------------ *)
(** * Requests against any stored dataset *)

Module RequestFacts.
Import DatasetFacts StripFacts.

Lemma stored_load (fs : FS) (d : Dataset) :
  stored fs = Some d ->
  load_dataset fs = Some (d, snd (load_data fs))
  /\ stored (snd (load_data fs)) = Some d
  /\ is_mapping d.
Proof.
  intros H. pose proof (stored_mapping _ H) as M.
  apply stored_some in H. destruct H as [fs' H].
  pose proof (load_dataset_file _ H) as E. subst fs'.
  split; [exact H|]. split; [|exact M].
  apply stored_some. exists (snd (load_data fs)).
  eapply load_dataset_twice. exact H.
Qed.

Lemma api_words_get_stored (fs : FS) (d : Dataset) :
  stored fs = Some d ->
  api_words GET fs = Some (Ok (JsonData d), snd (load_data fs)).
Proof.
  intros H. destruct (stored_load _ H) as [L _].
  unfold api_words. rewrite L. reflexivity.
Qed.

Lemma api_words_post_stored (english russian category : pystr) (fs : FS)
    (d : Dataset) :
  stored fs = Some d ->
  encodable_data (upserted category english russian d) = true ->
  exists fs',
    api_words (POST english russian category) fs = Some (Ok JsonSuccess, fs')
    /\ stored fs' = Some (upserted category english russian d).
Proof.
  intros H E. destruct (stored_load _ H) as [L [_ M]].
  unfold api_words. rewrite L.
  change (set_word category english russian (ensure_category category d))
    with (upserted category english russian d).
  rewrite (@save_data_saved _ fs (snd (load_data fs)) E).
  eexists. split; [reflexivity|].
  apply stored_save_data; [apply upserted_mapping; exact M | exact E].
Qed.

(** A request that has to write a string with a lone surrogate raises, and
    the file it leaves is shorter than the document. *)
Lemma api_words_post_raises (english russian category : pystr) (fs : FS)
    (d : Dataset) :
  stored fs = Some d ->
  encodable_data (upserted category english russian d) = false ->
  write_failed (api_words (POST english russian category) fs).
Proof.
  intros H E. destruct (stored_load _ H) as [L [_ M]].
  unfold api_words. rewrite L.
  change (set_word category english russian (ensure_category category d))
    with (upserted category english russian d).
  destruct (@save_data_raises _ (snd (load_data fs)) E) as [w [S [_ Lw]]].
  rewrite S. exists w. split; [reflexivity|].
  split; [exact Lw | apply stored_unreadable; exact Lw].
Qed.

Lemma api_words_delete_stored (category : pystr) (english : option pystr)
    (fs : FS) (d : Dataset) :
  stored fs = Some d ->
  encodable_data (after_delete category english d) = true ->
  exists fs',
    api_words (DELETE category english) fs = Some (Ok JsonSuccess, fs')
    /\ stored fs' = Some (after_delete category english d).
Proof.
  intros H E'. destruct (stored_load _ H) as [L [_ M]].
  unfold api_words. rewrite L.
  change (if negb (is_empty_str (field english))
          then delete_word category (field english) d
          else delete_category category d)
    with (after_delete category english d).
  rewrite (@save_data_saved _ fs (snd (load_data fs)) E').
  eexists. split; [reflexivity|].
  apply stored_save_data; [apply after_delete_mapping; exact M | exact E'].
Qed.

Lemma api_words_delete_raises (category : pystr) (english : option pystr)
    (fs : FS) (d : Dataset) :
  stored fs = Some d ->
  encodable_data (after_delete category english d) = false ->
  write_failed (api_words (DELETE category english) fs).
Proof.
  intros H E. destruct (stored_load _ H) as [L [_ M]].
  unfold api_words. rewrite L.
  change (if negb (is_empty_str (field english))
          then delete_word category (field english) d
          else delete_category category d)
    with (after_delete category english d).
  destruct (@save_data_raises _ (snd (load_data fs)) E) as [w [S [_ Lw]]].
  rewrite S. exists w. split; [reflexivity|].
  split; [exact Lw | apply stored_unreadable; exact Lw].
Qed.

(** The two outcomes of a DELETE. *)
Lemma api_words_delete_outcome (category : pystr) (english : option pystr)
    (fs : FS) (d : Dataset) :
  stored fs = Some d ->
  if encodable_data (after_delete category english d)
  then exists fs',
      api_words (DELETE category english) fs = Some (Ok JsonSuccess, fs')
      /\ stored fs' = Some (after_delete category english d)
  else write_failed (api_words (DELETE category english) fs).
Proof.
  intros H.
  destruct (encodable_data (after_delete category english d)) eqn:E.
  - apply api_words_delete_stored; assumption.
  - apply (@api_words_delete_raises category english fs d H E).
Qed.

Lemma stored_absent : stored None = Some get_default_data.
Proof. vm_compute. reflexivity. Qed.

Section Form.

Context {CM : CaseMap}.

(** The category a form resolves to. *)
Lemma add_word_stored (form : AddWordForm) (fs : FS) (d : Dataset) :
  stored fs = Some d ->
  let english := lower (strip (field (form_english form))) in
  let russian := strip (field (form_russian form)) in
  let category := strip (field (form_category form)) in
  let new_category := strip (field (form_new_category form)) in
  let final_category :=
    if is_empty_str new_category then category else new_category in
  if is_empty_str english || is_empty_str russian
     || is_empty_str final_category
  then exists msg,
      add_word (Some form) fs
      = Some (Ok {| categories := Dict.keys d; error := Some msg;
                    success := None |}, snd (load_data fs))
  else if encodable_data (upserted final_category english russian d)
  then exists fs',
      add_word (Some form) fs
      = Some (Ok {| categories :=
                      Dict.keys (upserted final_category english russian d);
                    error := None;
                    success := Some (msg_added english final_category) |},
              fs')
      /\ stored fs'
         = Some (upserted final_category english russian d)
  else write_failed (add_word (Some form) fs).
Proof.
  intros H english russian category new_category final_category.
  destruct (stored_load _ H) as [L [_ M]].
  unfold add_word. rewrite L.
  fold english russian category new_category.
  destruct (is_empty_str english || is_empty_str russian) eqn:E1;
    cbn [orb]; [eauto|].
  replace (if negb (is_empty_str new_category) then new_category
           else category) with final_category
    by (unfold final_category; destruct (is_empty_str new_category);
        reflexivity).
  destruct (is_empty_str final_category) eqn:E2; [eauto|].
  change (set_word final_category english russian
            (ensure_category final_category d))
    with (upserted final_category english russian d).
  destruct (encodable_data (upserted final_category english russian d))
    eqn:E.
  - rewrite (@save_data_saved _ fs (snd (load_data fs)) E).
    eexists. split; [reflexivity|].
    apply stored_save_data; [apply upserted_mapping; exact M | exact E].
  - destruct (@save_data_raises _ (snd (load_data fs)) E) as [w [S [_ Lw]]].
    rewrite S. exists w. split; [reflexivity|].
    split; [exact Lw | apply stored_unreadable; exact Lw].
Qed.

End Form.

End RequestFacts.
Import DatasetFacts StripFacts RequestFacts.

(* ------------------------------------------------------------------ *)
(** * Further properties of the store and of the vocabulary *)

(** X1: loading twice is loading once: a second [load_data] returns the
    same value as the first and leaves the file as the first left it. *)
Theorem load_data_idempotent (fs : FS) :
  load_data (snd (load_data fs)) = load_data fs.
Proof.
  rewrite load_data_twice. destruct (load_data fs); reflexivity.
Qed.

(** X2: a dataset read from the file repeats no category and no term,
    whatever the file holds: of a key that the document repeats, one entry is
    kept.  When none of its strings holds a lone surrogate, what was read can
    be saved as it is and is then read again unchanged; when one does (the
    document can carry it as an escape), [save_data] raises. *)
Theorem loaded_dataset_repeats_no_key (fs fs' : FS) (d : Dataset) :
  load_dataset fs = Some (d, fs') ->
  is_mapping d
  /\ if encodable_data d
     then save_data d fs' = (Ok tt, saved d fs')
          /\ load_dataset (saved d fs') = Some (d, saved d fs')
     else fst (save_data d fs') = Raise UnicodeEncodeError.
Proof.
  intros H. pose proof (load_dataset_mapping _ H) as M.
  split; [exact M|].
  destruct (encodable_data d) eqn:E.
  - split; [apply save_data_saved; exact E|].
    apply load_dataset_save_data; assumption.
  - destruct (@save_data_raises d fs' E) as [w [S _]].
    rewrite S. reflexivity.
Qed.

Lemma loaded_dataset_repeats_no_key_witness :
  let fs := Some (dump [(py "Law", [(py "tort", py "деликт")]);
                        (py "Law", [(py "tort", py "вред")])]) in
  let d := [(py "Law", [(py "tort", py "вред")])] in
  is_mapping d
  /\ save_data d fs = (Ok tt, saved d fs)
  /\ load_dataset (saved d fs) = Some (d, saved d fs).
Proof.
  intros fs d.
  assert (L : load_dataset fs = Some (d, fs)) by (vm_compute; reflexivity).
  pose proof (@loaded_dataset_repeats_no_key fs fs d L) as [M R].
  replace (encodable_data d) with true in R by (vm_compute; reflexivity).
  split; [exact M | exact R].
Defined.

(** X3: the pages that only read show one and the same dataset: the
    encyclopedia, the edit page and GET [/api/words] show the stored dataset,
    the quiz list and the form show its category names in their stored order,
    and the dataset is stored unchanged afterwards. *)
Theorem reading_pages_agree {CM : CaseMap} (fs : FS) (d : Dataset) :
  stored fs = Some d ->
  let fs1 := snd (load_data fs) in
  encyclopedia fs = Some (d, fs1)
  /\ edit_words fs = Some (d, fs1)
  /\ api_words GET fs = Some (Ok (JsonData d), fs1)
  /\ testing fs = Some (Dict.keys d, fs1)
  /\ add_word None fs
     = Some (Ok {| categories := Dict.keys d; error := None;
                   success := None |}, fs1)
  /\ stored fs1 = Some d.
Proof.
  intros H fs1. destruct (stored_load _ H) as [L [S _]].
  unfold encyclopedia, edit_words, testing, add_word, api_words.
  rewrite L. repeat split; try reflexivity. exact S.
Qed.

Lemma reading_pages_agree_witness :
  let fs1 := snd (load_data None) in
  encyclopedia None = Some (get_default_data, fs1)
  /\ edit_words None = Some (get_default_data, fs1)
  /\ api_words GET None = Some (Ok (JsonData get_default_data), fs1)
  /\ testing None = Some (Dict.keys get_default_data, fs1)
  /\ add_word None None
     = Some (Ok {| categories := Dict.keys get_default_data; error := None;
                   success := None |}, fs1)
  /\ stored fs1 = Some get_default_data.
Proof.
  apply (@reading_pages_agree latin_cyrillic None get_default_data).
  exact stored_absent.
Defined.

(** X4: POST [/api/words] writes the dataset in which the term has the
    translation that was sent, in the category that was sent, and every other
    term of every category has the translation it had (or none, as before).
    When no string of that dataset holds a lone surrogate the request is
    answered with success and the following GET shows the dataset; otherwise
    the write raises and the file is left with an unfinished document. *)
Theorem api_post_sets_one_translation
    (english russian category : pystr) (fs : FS) (d : Dataset) :
  stored fs = Some d ->
  let d' := upserted category english russian d in
  translation_of category english d' = Some russian
  /\ (forall c0 e0,
        c0 <> category \/ e0 <> english ->
        translation_of c0 e0 d' = translation_of c0 e0 d)
  /\ if encodable_data d'
     then exists fs',
         api_words (POST english russian category) fs
         = Some (Ok JsonSuccess, fs')
         /\ api_words GET fs' = Some (Ok (JsonData d'), snd (load_data fs'))
     else write_failed (api_words (POST english russian category) fs).
Proof.
  intros H d'.
  split; [apply translation_of_upserted|].
  split; [intros c0 e0 N; apply translation_of_upserted_other; exact N|].
  destruct (encodable_data d') eqn:E.
  - destruct (@api_words_post_stored english russian category fs d H E)
      as [fs' [P S]].
    exists fs'. split; [exact P|].
    apply api_words_get_stored. exact S.
  - apply (@api_words_post_raises english russian category fs d H E).
Qed.

Lemma api_post_sets_one_translation_witness :
  let category := py "Гражданское право" in
  let d' := upserted category (py "tort") (py "деликт") get_default_data in
  translation_of category (py "tort") d' = Some (py "деликт")
  /\ (forall c0 e0,
        c0 <> category \/ e0 <> py "tort" ->
        translation_of c0 e0 d' = translation_of c0 e0 get_default_data)
  /\ exists fs',
       api_words (POST (py "tort") (py "деликт") category) None
       = Some (Ok JsonSuccess, fs')
       /\ api_words GET fs' = Some (Ok (JsonData d'), snd (load_data fs')).
Proof.
  intros category d'.
  pose proof (@api_post_sets_one_translation (py "tort") (py "деликт")
                category None get_default_data stored_absent) as [T [O R]].
  replace (encodable_data _) with true in R by (vm_compute; reflexivity).
  split; [exact T|]. split; [exact O | exact R].
Defined.

(** X5: of two POSTs of the same term in the same category the second
    stands: the stored dataset is the one the second POST alone would leave,
    entry for entry and in the same order.  With equal translations, the second
    POST changes nothing.  The strings written hold no lone surrogate. *)
Theorem api_post_twice (english r1 r2 category : pystr) (fs : FS)
    (d : Dataset) :
  stored fs = Some d ->
  encodable_data (upserted category english r1 d) = true ->
  encodable_data (upserted category english r2 d) = true ->
  exists fs1 fs2 fs2',
    api_words (POST english r1 category) fs = Some (Ok JsonSuccess, fs1)
    /\ api_words (POST english r2 category) fs1 = Some (Ok JsonSuccess, fs2)
    /\ api_words (POST english r2 category) fs = Some (Ok JsonSuccess, fs2')
    /\ stored fs2 = Some (upserted category english r2 d)
    /\ stored fs2 = stored fs2'
    /\ (r1 = r2 -> stored fs2 = stored fs1).
Proof.
  intros H E1 E2.
  destruct (@api_words_post_stored english r1 category fs d H E1)
    as [fs1 [P1 S1]].
  destruct (@api_words_post_stored english r2 category fs1 _ S1)
    as [fs2 [P2 S2]]; [rewrite upserted_upserted; exact E2|].
  destruct (@api_words_post_stored english r2 category fs d H E2)
    as [fs2' [P3 S3]].
  rewrite upserted_upserted in S2.
  exists fs1, fs2, fs2'. repeat split; try assumption.
  - rewrite S2, S3. reflexivity.
  - intros ->. rewrite S2, S1. reflexivity.
Qed.

Lemma api_post_twice_witness :
  exists fs1 fs2 fs2',
    api_words (POST (py "tort") (py "вред") (py "Law")) None
    = Some (Ok JsonSuccess, fs1)
    /\ api_words (POST (py "tort") (py "деликт") (py "Law")) fs1
       = Some (Ok JsonSuccess, fs2)
    /\ api_words (POST (py "tort") (py "деликт") (py "Law")) None
       = Some (Ok JsonSuccess, fs2')
    /\ stored fs2
       = Some (upserted (py "Law") (py "tort") (py "деликт") get_default_data)
    /\ stored fs2 = stored fs2'
    /\ (py "вред" = py "деликт" -> stored fs2 = stored fs1).
Proof.
  apply (@api_post_twice (py "tort") (py "вред") (py "деликт") (py "Law")
           None get_default_data).
  - exact stored_absent.
  - vm_compute. reflexivity.
  - vm_compute. reflexivity.
Defined.

(** X6: POST [/api/words] keeps the order of the categories that the quiz
    list shows: a category that was there stays in its place, a new one is
    listed last.  The strings written hold no lone surrogate. *)
Theorem api_post_category_order (english russian category : pystr) (fs : FS)
    (d : Dataset) :
  stored fs = Some d ->
  encodable_data (upserted category english russian d) = true ->
  exists fs',
    api_words (POST english russian category) fs = Some (Ok JsonSuccess, fs')
    /\ testing fs'
       = Some (if Dict.mem category d then Dict.keys d
               else Dict.keys d ++ [category],
               snd (load_data fs')).
Proof.
  intros H E.
  destruct (@api_words_post_stored english russian category fs d H E)
    as [fs' [P S]].
  exists fs'. split; [exact P|].
  destruct (stored_load _ S) as [L _].
  unfold testing. rewrite L, keys_upserted. reflexivity.
Qed.

Lemma api_post_category_order_witness :
  exists fs',
    api_words (POST (py "lien") (py "залог") (py "Law")) None
    = Some (Ok JsonSuccess, fs')
    /\ testing fs'
       = Some (if Dict.mem (py "Law") get_default_data
               then Dict.keys get_default_data
               else Dict.keys get_default_data ++ [py "Law"],
               snd (load_data fs')).
Proof.
  apply api_post_category_order; [exact stored_absent|].
  vm_compute. reflexivity.
Defined.

Lemma is_empty_strip (x : pystr) :
  is_empty_str (strip x) = forallb isspace x.
Proof.
  destruct (forallb isspace x) eqn:E.
  - apply strip_nil in E. rewrite E. reflexivity.
  - destruct (strip x) eqn:S; [|reflexivity].
    apply strip_nil in S. congruence.
Qed.

Lemma is_empty_str_false (x : pystr) : is_empty_str x = false -> x <> [].
Proof. destruct x; [discriminate | discriminate]. Qed.

Lemma add_word_accepted {CM : CaseMap} (form : AddWordForm) (fs : FS)
    (d : Dataset) :
  stored fs = Some d ->
  forallb isspace (field (form_english form)) = false ->
  forallb isspace (field (form_russian form)) = false ->
  forallb isspace (field (form_new_category form))
  && forallb isspace (field (form_category form)) = false ->
  let english := lower (strip (field (form_english form))) in
  let russian := strip (field (form_russian form)) in
  let final_category :=
    if forallb isspace (field (form_new_category form))
    then strip (field (form_category form))
    else strip (field (form_new_category form)) in
  is_empty_str final_category = false
  /\ if encodable_data (upserted final_category english russian d)
     then exists page fs',
         add_word (Some form) fs = Some (Ok page, fs')
         /\ error page = None
         /\ stored fs' = Some (upserted final_category english russian d)
     else write_failed (add_word (Some form) fs).
Proof.
  intros H He Hr Hc english russian final_category.
  pose proof (add_word_stored form _ H) as A. cbv zeta in A.
  rewrite lower_empty, !is_empty_strip, He, Hr in A. cbn [orb] in A.
  fold english russian final_category in A.
  assert (Ef : is_empty_str final_category = false).
  { unfold final_category.
    destruct (forallb isspace (field (form_new_category form))) eqn:E;
      rewrite is_empty_strip; [|exact E].
    simpl in Hc. exact Hc. }
  split; [exact Ef|].
  rewrite Ef in A.
  destruct (encodable_data (upserted final_category english russian d));
    [|exact A].
  destruct A as [fs' [A S]].
  eexists _, fs'. split; [exact A|]. split; [reflexivity | exact S].
Qed.

(** X7: the form stores an accepted word under its trimmed, lower-cased
    term with its trimmed translation, in the trimmed new category when one is
    given and in the trimmed selected category otherwise; what is stored is
    never empty and the translation and the category have no white space
    around them.  The word is stored when no string of the resulting dataset
    holds a lone surrogate, which a decoded form cannot send; otherwise the
    write raises. *)
Theorem add_word_stores_trimmed {CM : CaseMap} (form : AddWordForm) (fs : FS)
    (d : Dataset) :
  stored fs = Some d ->
  forallb isspace (field (form_english form)) = false ->
  forallb isspace (field (form_russian form)) = false ->
  forallb isspace (field (form_new_category form))
  && forallb isspace (field (form_category form)) = false ->
  let english := lower (strip (field (form_english form))) in
  let russian := strip (field (form_russian form)) in
  let final_category :=
    if forallb isspace (field (form_new_category form))
    then strip (field (form_category form))
    else strip (field (form_new_category form)) in
  let d' := upserted final_category english russian d in
  translation_of final_category english d' = Some russian
  /\ english <> [] /\ russian <> [] /\ final_category <> []
  /\ strip russian = russian
  /\ strip final_category = final_category
  /\ if encodable_data d'
     then exists page fs',
         add_word (Some form) fs = Some (Ok page, fs')
         /\ error page = None
         /\ stored fs' = Some d'
     else write_failed (add_word (Some form) fs).
Proof.
  intros H He Hr Hc english russian final_category d'.
  destruct (@add_word_accepted CM form fs d H He Hr Hc) as [Ef A].
  split; [apply translation_of_upserted|].
  split.
  { apply is_empty_str_false. unfold english.
    rewrite lower_empty, is_empty_strip. exact He. }
  split; [apply is_empty_str_false; unfold russian;
          rewrite is_empty_strip; exact Hr|].
  split; [apply is_empty_str_false; exact Ef|].
  split; [apply strip_strip|].
  split; [|exact A].
  unfold final_category.
  destruct (forallb isspace (field (form_new_category form)));
    apply strip_strip.
Qed.

Lemma add_word_stores_trimmed_witness :
  let d' := upserted (py "Деликты") (py "tort") (py "деликт")
              get_default_data in
  translation_of (py "Деликты") (py "tort") d' = Some (py "деликт")
  /\ py "tort" <> [] /\ py "деликт" <> [] /\ py "Деликты" <> []
  /\ strip (py "деликт") = py "деликт"
  /\ strip (py "Деликты") = py "Деликты"
  /\ exists page fs',
       add_word (Some padded_form) None = Some (Ok page, fs')
       /\ error page = None
       /\ stored fs' = Some d'.
Proof.
  intros d'.
  pose proof (@add_word_stores_trimmed latin_cyrillic padded_form None
                get_default_data stored_absent eq_refl eq_refl eq_refl) as R.
  cbv zeta in R. destruct R as [T [N1 [N2 [N3 [S1 [S2 R]]]]]].
  replace (encodable_data _) with true in R by (vm_compute; reflexivity).
  split; [exact T|]. split; [exact N1|]. split; [exact N2|].
  split; [exact N3|]. split; [exact S1|]. split; [exact S2 | exact R].
Defined.

(** X8: the form rejects a request exactly on blank fields: when the term
    or the translation is nothing but white space, or both category fields
    are, the page carries an error, no success, and the stored dataset is the
    one that was there. *)
Theorem add_word_rejects_blank {CM : CaseMap} (form : AddWordForm) (fs : FS)
    (d : Dataset) :
  stored fs = Some d ->
  forallb isspace (field (form_english form))
  || forallb isspace (field (form_russian form))
  || forallb isspace (field (form_new_category form))
     && forallb isspace (field (form_category form)) = true ->
  exists msg fs',
    add_word (Some form) fs
    = Some (Ok {| categories := Dict.keys d; error := Some msg;
                  success := None |}, fs')
    /\ stored fs' = Some d.
Proof.
  intros H B.
  pose proof (add_word_stored form _ H) as A. cbv zeta in A.
  rewrite lower_empty, !is_empty_strip in A.
  destruct (stored_load _ H) as [_ [S _]].
  assert (E : forallb isspace (field (form_english form))
              || forallb isspace (field (form_russian form))
              || is_empty_str
                   (if forallb isspace (field (form_new_category form))
                    then strip (field (form_category form))
                    else strip (field (form_new_category form))) = true).
  { destruct (forallb isspace (field (form_english form))); [reflexivity|].
    destruct (forallb isspace (field (form_russian form))); [reflexivity|].
    simpl in B |- *.
    destruct (forallb isspace (field (form_new_category form)));
      [|discriminate B].
    rewrite is_empty_strip. exact B. }
  rewrite E in A. destruct A as [msg A].
  exists msg, (snd (load_data fs)). split; [exact A | exact S].
Qed.

Lemma add_word_rejects_blank_witness :
  exists msg fs',
    add_word (Some {| form_english := Some (py "tort");
                      form_russian := Some (py "деликт");
                      form_category := Some (py "   ");
                      form_new_category := None |}) None
    = Some (Ok {| categories := Dict.keys get_default_data;
                  error := Some msg; success := None |}, fs')
    /\ stored fs' = Some get_default_data.
Proof.
  apply (@add_word_rejects_blank latin_cyrillic _ None get_default_data).
  - exact stored_absent.
  - reflexivity.
Defined.

(** X9: through the form a term is unique in its category whatever its
    capitals and padding: of two accepted submissions to the same category
    whose terms are equal after trimming and lower-casing, the second stands,
    and the stored dataset is the one the second alone would leave.  The
    strings written hold no lone surrogate, as is the case of a decoded
    form. *)
Theorem add_word_same_term_twice {CM : CaseMap}
    (e1 e2 r1 r2 : pystr) (category new_category : option pystr) (fs : FS)
    (d : Dataset) :
  stored fs = Some d ->
  lower (strip e1) = lower (strip e2) ->
  forallb isspace e1 = false ->
  forallb isspace r1 = false ->
  forallb isspace r2 = false ->
  forallb isspace (field new_category) && forallb isspace (field category)
  = false ->
  let final_category :=
    if forallb isspace (field new_category) then strip (field category)
    else strip (field new_category) in
  encodable_data (upserted final_category (lower (strip e1)) (strip r1) d)
  = true ->
  encodable_data (upserted final_category (lower (strip e2)) (strip r2) d)
  = true ->
  let form1 := {| form_english := Some e1; form_russian := Some r1;
                  form_category := category;
                  form_new_category := new_category |} in
  let form2 := {| form_english := Some e2; form_russian := Some r2;
                  form_category := category;
                  form_new_category := new_category |} in
  exists p1 fs1 p2 fs2 p2' fs2',
    add_word (Some form1) fs = Some (Ok p1, fs1)
    /\ add_word (Some form2) fs1 = Some (Ok p2, fs2)
    /\ add_word (Some form2) fs = Some (Ok p2', fs2')
    /\ error p1 = None /\ error p2 = None
    /\ stored fs2
       = Some (upserted final_category (lower (strip e2)) (strip r2) d)
    /\ stored fs2 = stored fs2'.
Proof.
  intros H E He1 Hr1 Hr2 Hc final_category W1 W2 form1 form2.
  assert (He2 : forallb isspace e2 = false).
  { rewrite <- is_empty_strip, <- lower_empty, <- E, lower_empty,
      is_empty_strip. exact He1. }
  destruct (@add_word_accepted CM form1 fs d H He1 Hr1 Hc) as [_ A1].
  cbn [form1 form_english form_russian form_category form_new_category
       field] in A1.
  fold final_category in A1. rewrite W1 in A1.
  destruct A1 as [p1 [fs1 [A1 [E1 S1]]]].
  destruct (@add_word_accepted CM form2 fs1 _ S1 He2 Hr2 Hc) as [_ A2].
  cbn [form2 form_english form_russian form_category form_new_category
       field] in A2.
  fold final_category in A2.
  rewrite E, upserted_upserted, W2 in A2.
  destruct A2 as [p2 [fs2 [A2 [E2 S2]]]].
  destruct (@add_word_accepted CM form2 fs d H He2 Hr2 Hc) as [_ A3].
  cbn [form2 form_english form_russian form_category form_new_category
       field] in A3.
  fold final_category in A3. rewrite W2 in A3.
  destruct A3 as [p2' [fs2' [A3 [E3 S3]]]].
  exists p1, fs1, p2, fs2, p2', fs2'.
  repeat split; try assumption.
  rewrite S2, S3. reflexivity.
Qed.

Lemma add_word_same_term_twice_witness :
  let form1 := {| form_english := Some (py "Contract");
                  form_russian := Some (py "x");
                  form_category := Some (py "Law");
                  form_new_category := None |} in
  let form2 := {| form_english := Some (py " CONTRACT ");
                  form_russian := Some (py "y");
                  form_category := Some (py "Law");
                  form_new_category := None |} in
  exists p1 fs1 p2 fs2 p2' fs2',
    add_word (Some form1) None = Some (Ok p1, fs1)
    /\ add_word (Some form2) fs1 = Some (Ok p2, fs2)
    /\ add_word (Some form2) None = Some (Ok p2', fs2')
    /\ error p1 = None /\ error p2 = None
    /\ stored fs2
       = Some (upserted (py "Law") (py "contract") (py "y") get_default_data)
    /\ stored fs2 = stored fs2'.
Proof.
  apply (@add_word_same_term_twice latin_cyrillic (py "Contract")
           (py " CONTRACT ") (py "x") (py "y") (Some (py "Law")) None None
           get_default_data).
  - exact stored_absent.
  - reflexivity.
  - reflexivity.
  - reflexivity.
  - reflexivity.
  - reflexivity.
  - vm_compute. reflexivity.
  - vm_compute. reflexivity.
Defined.

(* ------------------------------------------------------------------ *)
(** * The vocabulary: deletions on the store *)

Lemma after_deletes_preserve (reqs : list (pystr * option pystr))
    (d : Dataset) :
  well_formed d -> well_formed (after_deletes reqs d).
Proof.
  revert d. induction reqs as [|[category english] rest IH]; intros d WF.
  - exact WF.
  - apply (IH (after_delete category english d)).
    apply after_delete_preserves. exact WF.
Qed.

Lemma run_deletes_keep (reqs : list (pystr * option pystr)) (fs : FS)
    (d : Dataset) :
  stored fs = Some d -> well_formed d ->
  exists fs' d',
    run_deletes reqs fs = Some fs'
    /\ stored fs' = Some d' /\ well_formed d'.
Proof.
  revert fs d. induction reqs as [|[category english] rest IH];
    intros fs d H WF.
  - exists fs, d. auto.
  - cbn [run_deletes].
    pose proof (api_words_delete_outcome category english _ H) as R.
    destruct (encodable_data (after_delete category english d)).
    + destruct R as [fs1 [D S1]]. rewrite D.
      apply (IH fs1 _ S1). apply after_delete_preserves. exact WF.
    + destruct R as [w [D [_ S1]]]. rewrite D.
      apply (IH (Some w) _ S1). apply default_data_well_formed.
Qed.

(** C7: from a dataset without empty categories, any sequence of word and
    category deletions leaves a dataset without empty categories, and deleting
    the only word of a category removes the category.  On the store: from a
    stored dataset without empty categories any run of DELETE requests leaves
    a stored dataset without empty categories, which GET [/api/words] returns
    (a request whose write raises leaves the default data); and when the
    strings of the dataset hold no lone surrogate, every request of the run is
    answered with success and what is stored is exactly the dataset after the
    deletions. *)
Theorem deletes_leave_no_empty_category (d : Dataset) (fs : FS) :
  well_formed d ->
  (forall reqs, no_empty_category (after_deletes reqs d))
  /\ (forall category english translation,
        Dict.get category d = Some [(english, translation)] ->
        Dict.get category (after_delete category (Some english) d) = None)
  /\ (stored fs = Some d ->
      forall reqs, exists fs' d',
        run_deletes reqs fs = Some fs'
        /\ api_words GET fs' = Some (Ok (JsonData d'), snd (load_data fs'))
        /\ no_empty_category d')
  /\ (encodable_data d = true ->
      (forall reqs,
          let d' := after_deletes reqs d in
          run_deletes reqs (saved d fs) = Some (saved d' fs)
          /\ api_words GET (saved d' fs)
             = Some (Ok (JsonData d'), saved d' fs)
          /\ no_empty_category d')
      /\ (forall category english,
            let d' := after_delete category english d in
            api_words (DELETE category english) (saved d fs)
            = Some (Ok JsonSuccess, saved d' fs)
            /\ api_words GET (saved d' fs)
               = Some (Ok (JsonData d'), saved d' fs))).
Proof.
  intros WF. split; [|split; [|split]].
  - intros reqs. apply (after_deletes_preserve reqs WF).
  - intros category english translation G.
    apply (after_delete_sole_word _ (proj1 WF) G).
  - intros H reqs.
    destruct (@run_deletes_keep reqs fs d H WF) as [fs' [d' [R [S WF']]]].
    exists fs', d'. split; [exact R|].
    split; [apply api_words_get_stored; exact S | apply WF'].
  - intros E. split.
    + intros reqs. revert d WF E.
      induction reqs as [|[category english] rest IH]; intros d WF E.
      * cbn [after_deletes fold_left run_deletes]. split; [reflexivity|].
        split; [apply api_words_get; [apply WF | exact E] | apply WF].
      * cbn [run_deletes].
        rewrite (@api_words_delete category english d fs (proj1 WF) E).
        apply (IH (after_delete category english d)).
        -- apply after_delete_preserves. exact WF.
        -- apply encodable_after_delete. exact E.
    + intros category english d'. split.
      * apply api_words_delete; [apply WF | exact E].
      * apply api_words_get.
        -- apply (after_delete_preserves category english WF).
        -- apply encodable_after_delete. exact E.
Qed.

Lemma deletes_leave_no_empty_category_witness :
  (forall reqs, no_empty_category (after_deletes reqs get_default_data))
  /\ (forall category english translation,
        Dict.get category get_default_data = Some [(english, translation)] ->
        Dict.get category
          (after_delete category (Some english) get_default_data) = None)
  /\ (forall reqs, exists fs' d',
        run_deletes reqs None = Some fs'
        /\ api_words GET fs' = Some (Ok (JsonData d'), snd (load_data fs'))
        /\ no_empty_category d')
  /\ (forall reqs,
        let d' := after_deletes reqs get_default_data in
        run_deletes reqs (saved get_default_data None) = Some (saved d' None)
        /\ api_words GET (saved d' None)
           = Some (Ok (JsonData d'), saved d' None)
        /\ no_empty_category d')
  /\ (forall category english,
        let d' := after_delete category english get_default_data in
        api_words (DELETE category english) (saved get_default_data None)
        = Some (Ok JsonSuccess, saved d' None)
        /\ api_words GET (saved d' None)
           = Some (Ok (JsonData d'), saved d' None)).
Proof.
  destruct (@deletes_leave_no_empty_category get_default_data None)
    as [A [B [C D]]].
  - apply well_formedb_sound. vm_compute. reflexivity.
  - split; [exact A|]. split; [exact B|].
    split; [apply C; exact stored_absent|].
    apply D. exact default_data_encodable.
Defined.

(** Deleting the two words of a category one after the other removes the
    category from what GET returns. *)
Example delete_last_word_removes_category :
  let d := [(py "Law", [(py "tort", py "деликт"); (py "lien", py "залог")]);
            (py "Tax", [(py "levy", py "сбор")])] in
  match run_deletes [(py "Law", Some (py "tort")); (py "Law", Some (py "lien"))]
          (saved d None) with
  | Some fs => api_words GET fs
               = Some (Ok (JsonData [(py "Tax", [(py "levy", py "сбор")])]), fs)
  | None => False
  end.
Proof. vm_compute. reflexivity. Qed.

(* ------------------------------------------------------------------ *)
(** * Further properties of the deletions *)

Lemma after_delete_word (category english : pystr) (d : Dataset) :
  english <> [] ->
  after_delete category (Some english) d = delete_word category english d.
Proof.
  intros N. unfold after_delete. cbn [field].
  destruct english; [contradiction | reflexivity].
Qed.

(** X10: DELETE [/api/words] with a term removes that term from that
    category: in the dataset it writes the term has no translation there, and
    every other term of every category has the translation it had.  The
    request is answered with success and leaves that dataset stored when none
    of its strings holds a lone surrogate; otherwise the write raises. *)
Theorem api_delete_removes_one_word (category english : pystr) (fs : FS)
    (d : Dataset) :
  stored fs = Some d ->
  english <> [] ->
  let d' := delete_word category english d in
  translation_of category english d' = None
  /\ (forall c0 e0,
        c0 <> category \/ e0 <> english ->
        translation_of c0 e0 d' = translation_of c0 e0 d)
  /\ if encodable_data d'
     then exists fs',
         api_words (DELETE category (Some english)) fs
         = Some (Ok JsonSuccess, fs')
         /\ stored fs' = Some d'
     else write_failed (api_words (DELETE category (Some english)) fs).
Proof.
  intros H N d'. destruct (stored_load _ H) as [_ [_ M]].
  split; [apply translation_of_delete_word; exact M|].
  split.
  { intros c0 e0 N0. apply translation_of_delete_word_other; assumption. }
  pose proof (api_words_delete_outcome category (Some english) _ H) as R.
  rewrite (after_delete_word category d N) in R. exact R.
Qed.

Lemma api_delete_removes_one_word_witness :
  let category := py "Уголовное право" in
  let d' := delete_word category (py "crime") get_default_data in
  translation_of category (py "crime") d' = None
  /\ (forall c0 e0,
        c0 <> category \/ e0 <> py "crime" ->
        translation_of c0 e0 d' = translation_of c0 e0 get_default_data)
  /\ exists fs',
       api_words (DELETE category (Some (py "crime"))) None
       = Some (Ok JsonSuccess, fs')
       /\ stored fs' = Some d'.
Proof.
  intros category d'.
  assert (N : py "crime" <> []) by discriminate.
  pose proof (@api_delete_removes_one_word category (py "crime") None
                get_default_data stored_absent N) as [T [O R]].
  replace (encodable_data _) with true in R by (vm_compute; reflexivity).
  split; [exact T|]. split; [exact O | exact R].
Defined.

(** X11: DELETE [/api/words] of a non-empty term that is not stored, in a
    category that is there or not, writes the stored dataset again as it was:
    it is answered with success and the dataset is stored unchanged when none
    of its strings holds a lone surrogate; otherwise the write raises. *)
Theorem api_delete_absent_word (category english : pystr) (fs : FS)
    (d : Dataset) :
  stored fs = Some d ->
  english <> [] ->
  translation_of category english d = None ->
  delete_word category english d = d
  /\ if encodable_data d
     then exists fs',
         api_words (DELETE category (Some english)) fs
         = Some (Ok JsonSuccess, fs')
         /\ stored fs' = Some d
     else write_failed (api_words (DELETE category (Some english)) fs).
Proof.
  intros H N T.
  split; [apply delete_word_absent; exact T|].
  pose proof (api_words_delete_outcome category (Some english) _ H) as R.
  rewrite (after_delete_word category d N), (delete_word_absent _ _ _ T) in R.
  exact R.
Qed.

Lemma api_delete_absent_word_witness :
  delete_word (py "Налоговое право") (py "levy") get_default_data
  = get_default_data
  /\ exists fs',
       api_words (DELETE (py "Налоговое право") (Some (py "levy"))) None
       = Some (Ok JsonSuccess, fs')
       /\ stored fs' = Some get_default_data.
Proof.
  assert (N : py "levy" <> []) by discriminate.
  pose proof (@api_delete_absent_word (py "Налоговое право") (py "levy") None
                get_default_data stored_absent N eq_refl) as [A R].
  rewrite default_data_encodable in R.
  split; [exact A | exact R].
Defined.

(** X12: DELETE [/api/words] without a term, or with the empty string as
    term, removes the whole category, whatever it holds, and nothing else:
    in the dataset it writes the category is gone and every other category
    has the words it had.  The request is answered with success and leaves
    that dataset stored when none of its strings holds a lone surrogate;
    otherwise the write raises. *)
Theorem api_delete_category (category : pystr) (english : option pystr)
    (fs : FS) (d : Dataset) :
  stored fs = Some d ->
  english = None \/ english = Some [] ->
  let d' := delete_category category d in
  Dict.get category d' = None
  /\ (forall c0, c0 <> category -> Dict.get c0 d' = Dict.get c0 d)
  /\ if encodable_data d'
     then exists fs',
         api_words (DELETE category english) fs = Some (Ok JsonSuccess, fs')
         /\ stored fs' = Some d'
     else write_failed (api_words (DELETE category english) fs).
Proof.
  intros H E d'. destruct (stored_load _ H) as [_ [_ M]].
  split; [apply get_delete_category; exact M|].
  split; [intros c0 N; apply get_delete_category_other; exact N|].
  pose proof (api_words_delete_outcome category english _ H) as R.
  assert (A : after_delete category english d = delete_category category d)
    by (destruct E as [-> | ->]; reflexivity).
  rewrite A in R. exact R.
Qed.

Lemma api_delete_category_witness :
  let category := py "Уголовное право" in
  let d' := delete_category category get_default_data in
  Dict.get category d' = None
  /\ (forall c0, c0 <> category ->
                 Dict.get c0 d' = Dict.get c0 get_default_data)
  /\ exists fs',
       api_words (DELETE category (Some [])) None = Some (Ok JsonSuccess, fs')
       /\ stored fs' = Some d'.
Proof.
  intros category d'.
  pose proof (@api_delete_category category (Some []) None get_default_data
                stored_absent (or_intror eq_refl)) as [G [O R]].
  replace (encodable_data _) with true in R by (vm_compute; reflexivity).
  split; [exact G|]. split; [exact O | exact R].
Defined.

(** X13: a POST of a non-empty term that is not stored, followed by the
    DELETE of that term, gives back the stored dataset as it was, a category
    created by the POST included, when no category was empty and the strings
    written hold no lone surrogate. *)
Theorem api_post_then_delete (english russian category : pystr) (fs : FS)
    (d : Dataset) :
  stored fs = Some d ->
  no_empty_category d ->
  english <> [] ->
  translation_of category english d = None ->
  encodable_data (upserted category english russian d) = true ->
  exists fs1 fs2,
    api_words (POST english russian category) fs = Some (Ok JsonSuccess, fs1)
    /\ stored fs1 = Some (upserted category english russian d)
    /\ api_words (DELETE category (Some english)) fs1
       = Some (Ok JsonSuccess, fs2)
    /\ stored fs2 = Some d.
Proof.
  intros H NE N T E.
  destruct (@api_words_post_stored english russian category fs d H E)
    as [fs1 [P S1]].
  pose proof (encodable_after_delete category (Some english) _ E) as E'.
  destruct (@api_words_delete_stored category (Some english) fs1 _ S1 E')
    as [fs2 [D S2]].
  rewrite (after_delete_word category _ N) in S2.
  rewrite (@delete_word_upserted category english russian d NE T) in S2.
  exists fs1, fs2. repeat split; assumption.
Qed.

Lemma api_post_then_delete_witness :
  exists fs1 fs2,
    api_words (POST (py "levy") (py "сбор") (py "Налоговое право")) None
    = Some (Ok JsonSuccess, fs1)
    /\ stored fs1
       = Some (upserted (py "Налоговое право") (py "levy") (py "сбор")
                 get_default_data)
    /\ api_words (DELETE (py "Налоговое право") (Some (py "levy"))) fs1
       = Some (Ok JsonSuccess, fs2)
    /\ stored fs2 = Some get_default_data.
Proof.
  apply api_post_then_delete.
  - exact stored_absent.
  - apply default_data_well_formed.
  - discriminate.
  - reflexivity.
  - vm_compute. reflexivity.
Defined.

(* ------------------------------------------------------------------ *)
(** * Further properties of the quiz *)

(** X14: on a store without empty categories the quiz list shows exactly
    the categories for which the view function starts a quiz.  A request for
    [/test/<category>] reaches the view function when the name is one path
    segment (not empty, no slash): it then starts a quiz for a listed category
    and redirects to the list for any other name, leaving the session as it
    is.  For a name that is not a path segment, listed or not, the request is
    answered with 404 and neither the session nor the file is touched. *)
Theorem testing_lists_the_quizzes (category : pystr) (fs : FS)
    (s : Session.state) (d : Dataset) :
  stored fs = Some d ->
  no_empty_category d ->
  exists cats fs1,
    testing fs = Some (cats, fs1)
    /\ (is_segment category = true -> In category cats ->
        exists n s',
          route_test category fs s
          = Some (Handled (RenderTest category n 1), fs1, s')
          /\ Session.items s' = words_of category d
          /\ n = List.length (words_of category d) /\ 0 < n
          /\ Session.position s' = 0%Z /\ Session.points s' = 0%Z)
    /\ (is_segment category = true -> ~ In category cats ->
        route_test category fs s = Some (Handled RedirectTesting, fs1, s))
    /\ (is_segment category = false ->
        route_test category fs s = Some (NotFound, fs, s)).
Proof.
  intros H NE. destruct (stored_load _ H) as [L _].
  exists (Dict.keys d), (snd (load_data fs)).
  unfold testing, route_test, test. rewrite L. split; [reflexivity|].
  unfold words_of.
  destruct (is_segment category);
    [|split; [discriminate|]; split; [discriminate | reflexivity]].
  destruct (Dict.get category d) as [ws|] eqn:G.
  - split; [|split; [|discriminate]].
    + intros _ _. destruct ws as [|w ws].
      * exfalso. unfold no_empty_category in NE.
        rewrite Forall_forall in NE.
        apply (NE _ (@get_some_in _ _ _ _ G)). reflexivity.
      * cbn [Dict.is_empty]. eexists _, _. split; [reflexivity|].
        repeat split. simpl. lia.
    + intros _ N. exfalso. apply N. eapply get_in_keys. exact G.
  - split; [|split; [reflexivity | discriminate]].
    intros _ I. apply get_none_not_in in G. contradiction.
Qed.

Lemma testing_lists_the_quizzes_witness :
  exists cats fs1,
    testing None = Some (cats, fs1)
    /\ (is_segment (py "Уголовное право") = true ->
        In (py "Уголовное право") cats ->
        exists n s',
          route_test (py "Уголовное право") None (quiz_at 1 1)
          = Some (Handled (RenderTest (py "Уголовное право") n 1), fs1, s')
          /\ Session.items s'
             = words_of (py "Уголовное право") get_default_data
          /\ n = List.length (words_of (py "Уголовное право") get_default_data)
          /\ 0 < n
          /\ Session.position s' = 0%Z /\ Session.points s' = 0%Z)
    /\ (is_segment (py "Уголовное право") = true ->
        ~ In (py "Уголовное право") cats ->
        route_test (py "Уголовное право") None (quiz_at 1 1)
        = Some (Handled RedirectTesting, fs1, quiz_at 1 1))
    /\ (is_segment (py "Уголовное право") = false ->
        route_test (py "Уголовное право") None (quiz_at 1 1)
        = Some (NotFound, None, quiz_at 1 1)).
Proof.
  apply testing_lists_the_quizzes.
  - exact stored_absent.
  - apply default_data_well_formed.
Defined.

(** A category that the API or the form stores under a name with a slash is
    listed on the quiz page, and its quiz cannot be reached. *)
Example listed_category_without_a_route :
  match api_words (POST (py "writ") (py "приказ") (py "civil/criminal")) None
  with
  | Some (Ok JsonSuccess, fs) =>
    option_map (fun r => In (py "civil/criminal") (fst r)) (testing fs)
    = Some (In (py "civil/criminal")
              (Dict.keys get_default_data ++ [py "civil/criminal"]))
    /\ route_test (py "civil/criminal") fs Session.empty
       = Some (NotFound, fs, Session.empty)
    /\ option_map (fun r => fst (fst r))
         (test (py "civil/criminal") fs Session.empty)
       = Some (RenderTest (py "civil/criminal") 1 1)
  | _ => False
  end.
Proof. vm_compute. repeat split. Qed.

Lemma skipn_nth_error {A} (l : list A) (n : nat) (a : A) :
  nth_error l n = Some a -> skipn n l = a :: skipn (S n) l.
Proof.
  revert n. induction l as [|x l IH]; intros [|n] H; simpl in *;
    try discriminate.
  - inversion H; reflexivity.
  - apply IH. exact H.
Qed.

Lemma submit_all_fields {CM : CaseMap}
    (answers : list (option pystr)) (fs : FS) (s : Session.state) :
  (0 <= Session.position s)%Z ->
  let rest := skipn (Z.to_nat (Session.position s)) (Session.items s) in
  let s' := submit_all answers fs s in
  Session.items s' = Session.items s
  /\ Session.position s'
     = (Session.position s
        + Z.of_nat (Nat.min (List.length answers) (List.length rest)))%Z
  /\ Session.points s' = (Session.points s + count_right answers rest)%Z.
Proof.
  revert fs s. induction answers as [|a answers IH]; intros fs s H0.
  - simpl. repeat split; lia.
  - cbn zeta. cbn [submit_all].
    destruct (Z.le_gt_cases (Z.of_nat (List.length (Session.items s)))
                (Session.position s)) as [H | H].
    + rewrite (check_answer_finished a fs s H).
      destruct (IH (snd (load_data fs)) s H0) as [I1 [I2 I3]].
      assert (E : skipn (Z.to_nat (Session.position s)) (Session.items s) = []).
      { apply skipn_all2. lia. }
      rewrite E in *. cbn [List.length count_right] in *.
      rewrite Nat.min_0_r in *.
      assert (C : count_right answers [] = 0%Z) by (destruct answers; reflexivity).
      rewrite C in I3. repeat split; assumption.
    + destruct (py_index_in_range (Session.items s) (conj H0 H))
        as [[term translation] [Hi Hn]].
      rewrite (check_answer_in_progress a fs s H Hi).
      set (b := PyStr.eqb _ _).
      destruct (answered_fields b s) as [Hitems [Hpos [Hpts _]]].
      assert (H0' : (0 <= Session.position (answered b s))%Z) by lia.
      destruct (IH (snd (load_data fs)) (answered b s) H0') as [I1 [I2 I3]].
      rewrite Hitems, Hpos in *. rewrite Hpts in I3.
      rewrite (skipn_nth_error _ _ Hn).
      replace (Z.to_nat (Session.position s + 1))
        with (S (Z.to_nat (Session.position s))) in * by lia.
      cbn [List.length count_right Nat.min].
      change (is_right a (term, translation)) with b.
      repeat split; [exact I1 | rewrite I2; lia | rewrite I3].
      destruct b; lia.
Qed.

(** X15: a run of answers moves the cursor by the number of answers, up to
    the end of the list, and adds to the score the number of answers that are
    right for the words from the cursor on, taken in order; the list of words
    is not changed.  Answers beyond the end count for nothing, and once there
    are as many answers as words left the next submission is answered with
    [finished]. *)
Theorem submit_all_counts_right_answers {CM : CaseMap}
    (answers : list (option pystr)) (fs : FS) (s : Session.state) :
  (0 <= Session.position s)%Z ->
  let rest := skipn (Z.to_nat (Session.position s)) (Session.items s) in
  let s' := submit_all answers fs s in
  Session.items s' = Session.items s
  /\ Session.position s'
     = (Session.position s
        + Z.of_nat (Nat.min (List.length answers) (List.length rest)))%Z
  /\ Session.points s' = (Session.points s + count_right answers rest)%Z
  /\ (List.length rest <= List.length answers ->
      forall a fs0, fst (fst (check_answer a fs0 s')) = Ok Finished).
Proof.
  intros H0 rest s'.
  destruct (@submit_all_fields CM answers fs s H0) as [I1 [I2 I3]].
  fold rest s' in I1, I2, I3.
  split; [exact I1|]. split; [exact I2|]. split; [exact I3|].
  intros Hl a fs0. rewrite check_answer_finished; [reflexivity|].
  rewrite I1, I2, Nat.min_r by exact Hl.
  unfold rest. rewrite length_skipn. lia.
Qed.

Lemma submit_all_counts_right_answers_witness :
  let answers := [Some (py " Преступление"); Some (py "штраф"); None] in
  let rest := skipn (Z.to_nat (Session.position (quiz_at 0 0)))
                (Session.items (quiz_at 0 0)) in
  let s' := submit_all answers None (quiz_at 0 0) in
  Session.items s' = Session.items (quiz_at 0 0)
  /\ Session.position s'
     = (Session.position (quiz_at 0 0)
        + Z.of_nat (Nat.min (List.length answers) (List.length rest)))%Z
  /\ Session.points s'
     = (Session.points (quiz_at 0 0) + count_right answers rest)%Z
  /\ (List.length rest <= List.length answers ->
      forall a fs0, fst (fst (check_answer a fs0 s')) = Ok Finished).
Proof.
  apply (@submit_all_counts_right_answers latin_cyrillic).
  session_fields. lia.
Defined.

Lemma count_right_all {CM : CaseMap} (ws : list (pystr * pystr)) :
  Forall (fun w => strip (snd w) = snd w) ws ->
  count_right (map (fun w => Some (snd w)) ws) ws = Z.of_nat (List.length ws).
Proof.
  induction 1 as [|w ws Hw HF IH]; [reflexivity|].
  cbn [map count_right List.length]. rewrite IH.
  unfold is_right. cbn [field]. rewrite Hw, eqb_refl. lia.
Qed.

(** X16: a quiz answered word by word with the stored translations gets
    full marks, when the translations are stored trimmed (as the form stores
    them): the score and the cursor both reach the number of words, the next
    submission is answered with [finished], and the results page shows the
    score equal to the total. *)
Theorem full_marks {CM : CaseMap} (category : pystr) (fs fs' : FS)
    (s s0 : Session.state) (n current : nat) :
  test category fs s = Some (RenderTest category n current, fs', s0) ->
  Forall (fun w => strip (snd w) = snd w) (Session.items s0) ->
  let s' := submit_all (map (fun w => Some (snd w)) (Session.items s0))
              fs' s0 in
  List.length (Session.items s0) = n
  /\ Session.points s' = Z.of_nat n
  /\ Session.position s' = Z.of_nat n
  /\ fst (fst (check_answer None fs' s')) = Ok Finished
  /\ page_score (fst (results s')) = page_total (fst (results s')).
Proof.
  intros T HF s'.
  assert (S0 : List.length (Session.items s0) = n
               /\ Session.position s0 = 0%Z /\ Session.points s0 = 0%Z).
  { unfold test in T.
    destruct (load_dataset fs) as [[data fs1]|]; [|discriminate].
    destruct (Dict.get category data) as [ws|]; [|discriminate].
    destruct (Dict.is_empty ws); [discriminate|].
    inversion T; subst. repeat split. }
  destruct S0 as [Hn [Hp Hs]].
  destruct (@submit_all_fields CM
              (map (fun w => Some (snd w)) (Session.items s0)) fs' s0)
    as [I1 [I2 I3]]; [lia|].
  fold s' in I1, I2, I3.
  rewrite Hp in I2, I3. cbn [Z.to_nat skipn] in I2, I3.
  rewrite length_map, Nat.min_id, Hn in I2.
  rewrite (count_right_all HF), Hs, Hn in I3.
  split; [exact Hn|]. split; [lia|]. split; [lia|].
  split.
  - rewrite check_answer_finished; [reflexivity|]. rewrite I1, Hn. lia.
  - unfold results. cbn [fst page_score page_total].
    fold (Session.points s'). fold (Session.items s').
    rewrite I1, Hn. lia.
Qed.

Lemma full_marks_witness :
  let s0 := quiz_at 0 0 in
  let s' := submit_all (map (fun w => Some (snd w)) (Session.items s0))
              (saved [(py "Уголовное право", two_words)] None) s0 in
  List.length (Session.items s0) = 2
  /\ Session.points s' = Z.of_nat 2
  /\ Session.position s' = Z.of_nat 2
  /\ fst (fst (check_answer None
                 (saved [(py "Уголовное право", two_words)] None) s'))
     = Ok Finished
  /\ page_score (fst (results s')) = page_total (fst (results s')).
Proof.
  apply (@full_marks latin_cyrillic (py "Уголовное право")
           (saved [(py "Уголовное право", two_words)] None)
           (saved [(py "Уголовное право", two_words)] None)
           Session.empty (quiz_at 0 0) 2 1).
  - vm_compute. reflexivity.
  - repeat constructor.
Defined.

(* ------------------------------------------------------------------ *)
(** * Any run of requests *)













(** A POST on [/api/words] with a lone surrogate in the term is answered
    with status 500, and the vocabulary that was stored is lost: the file is
    left with an unfinished document, and the next request reads the default
    data. *)
Example lone_surrogate_destroys_the_file :
  let d := upserted (py "Law") (py "tort") (py "деликт") get_default_data in
  stored (saved d None) = Some d
  /\ match api_words (POST [55357%N] (py "x") (py "Law")) (saved d None) with
     | Some (Raise UnicodeEncodeError, fs') =>
       stored fs' = Some get_default_data
       /\ loads (match fs' with Some t => t | None => [] end) = None
     | _ => False
     end.
Proof. vm_compute. repeat split. Qed.

(* ------------------------------------------------------------------ *)
(** * An unreadable file, and the order of what is stored *)

(** X18: a file that does not parse is read as the default data and left
    alone by the reading, but the first POST, of strings without a lone
    surrogate, writes the default data with the new entry over it: what the
    file held is gone and the file parses again. *)
Theorem unreadable_file_is_overwritten (english russian category : pystr)
    (t : text) :
  loads t = None ->
  encodable english = true -> encodable russian = true ->
  encodable category = true ->
  stored (Some t) = Some get_default_data
  /\ snd (load_data (Some t)) = Some t
  /\ exists fs',
      api_words (POST english russian category) (Some t)
      = Some (Ok JsonSuccess, fs')
      /\ fs' = Some (dump (upserted category english russian
                             get_default_data))
      /\ stored fs'
         = Some (upserted category english russian get_default_data).
Proof.
  intros E Ee Er Ec.
  assert (S : stored (Some t) = Some get_default_data).
  { unfold stored, load_dataset, load_data. rewrite E, as_dataset_to_json.
    reflexivity. }
  split; [exact S|].
  split; [unfold load_data; rewrite E; reflexivity|].
  pose proof (encodable_upserted category english russian get_default_data
                default_data_encodable Ec Ee Er) as E2.
  destruct (stored_load _ S) as [L _].
  exists (saved (upserted category english russian get_default_data) None).
  split.
  { unfold api_words. rewrite L.
    change (set_word category english russian
              (ensure_category category get_default_data))
      with (upserted category english russian get_default_data).
    rewrite (@save_data_saved _ None (snd (load_data (Some t))) E2).
    reflexivity. }
  split; [apply saved_ok; exact E2|].
  apply stored_save_data; [|exact E2].
  apply upserted_mapping. apply default_data_well_formed.
Qed.

Lemma unreadable_file_is_overwritten_witness :
  stored corrupt_file = Some get_default_data
  /\ snd (load_data corrupt_file) = corrupt_file
  /\ exists fs',
      api_words (POST (py "tort") (py "деликт") (py "Law")) corrupt_file
      = Some (Ok JsonSuccess, fs')
      /\ fs' = Some (dump (upserted (py "Law") (py "tort") (py "деликт")
                             get_default_data))
      /\ stored fs'
         = Some (upserted (py "Law") (py "tort") (py "деликт")
                   get_default_data).
Proof.
  apply (@unreadable_file_is_overwritten (py "tort") (py "деликт") (py "Law")
           (py "{")); vm_compute; reflexivity.
Defined.

(** X19: POST [/api/words], of strings that leave no lone surrogate in the
    dataset, keeps the order of the words of the category, which is the order
    of the quiz: a term that was there keeps its place, a new term comes last;
    the words of the other categories are untouched. *)
Theorem api_post_word_order (english russian category : pystr) (fs : FS)
    (d : Dataset) :
  stored fs = Some d ->
  encodable_data (upserted category english russian d) = true ->
  exists fs' d',
    api_words (POST english russian category) fs = Some (Ok JsonSuccess, fs')
    /\ stored fs' = Some d'
    /\ Dict.keys (words_of category d')
       = (if Dict.mem english (words_of category d)
          then Dict.keys (words_of category d)
          else Dict.keys (words_of category d) ++ [english])
    /\ forall c0, c0 <> category -> words_of c0 d' = words_of c0 d.
Proof.
  intros H E.
  destruct (@api_words_post_stored english russian category fs d H E)
    as [fs' [P S]].
  exists fs', (upserted category english russian d).
  split; [exact P|]. split; [exact S|].
  rewrite upserted_eq. split.
  - unfold words_of at 1. rewrite get_set_same. apply keys_set.
  - intros c0 N. unfold words_of.
    rewrite (@get_set_other _ category c0 _ d N). reflexivity.
Qed.

Lemma api_post_word_order_witness :
  exists fs' d',
    api_words (POST (py "penalty") (py "штраф") (py "Уголовное право")) None
    = Some (Ok JsonSuccess, fs')
    /\ stored fs' = Some d'
    /\ Dict.keys (words_of (py "Уголовное право") d')
       = (if Dict.mem (py "penalty")
               (words_of (py "Уголовное право") get_default_data)
          then Dict.keys (words_of (py "Уголовное право") get_default_data)
          else Dict.keys (words_of (py "Уголовное право") get_default_data)
               ++ [py "penalty"])
    /\ forall c0, c0 <> py "Уголовное право" ->
                  words_of c0 d' = words_of c0 get_default_data.
Proof.
  apply api_post_word_order; [exact stored_absent|].
  vm_compute. reflexivity.
Defined.

Lemma keys_del {V} (k : pystr) (d : Dict.dict V) :
  NoDup (Dict.keys d) ->
  Dict.keys (Dict.del k d)
  = filter (fun k0 => negb (PyStr.eqb k k0)) (Dict.keys d).
Proof.
  induction d as [|[k' v'] d IH]; simpl; intros ND; [reflexivity|].
  inversion ND as [|? ? Hn ND']; subst.
  destruct (PyStr.eqb k k') eqn:E; simpl.
  - apply eqb_eq in E. subst k'.
    symmetry. apply forallb_filter_id. apply forallb_forall.
    intros x Hx. apply negb_true_iff. apply eqb_neq.
    intros <-. contradiction.
  - rewrite (IH ND'). reflexivity.
Qed.

(** X20: a DELETE never reorders what remains: in the dataset it writes,
    the categories are the earlier categories without the one that went (if
    one went), in the earlier order, and the terms of the category are its
    earlier terms without the deleted one, in the earlier order.  The request
    is answered with success and leaves that dataset stored when none of its
    strings holds a lone surrogate; otherwise the write raises. *)
Theorem api_delete_keeps_order (category : pystr) (english : option pystr)
    (fs : FS) (d : Dataset) :
  stored fs = Some d ->
  let d' := after_delete category english d in
  Dict.keys d'
  = (if Dict.mem category d'
     then Dict.keys d
     else filter (fun c0 => negb (PyStr.eqb category c0)) (Dict.keys d))
  /\ Dict.keys (words_of category d')
     = (if Dict.mem category d'
        then filter (fun e0 => negb (PyStr.eqb (field english) e0))
               (Dict.keys (words_of category d))
        else [])
  /\ if encodable_data d'
     then exists fs',
         api_words (DELETE category english) fs = Some (Ok JsonSuccess, fs')
         /\ stored fs' = Some d'
     else write_failed (api_words (DELETE category english) fs).
Proof.
  intros H d'. destruct (stored_load _ H) as [_ [_ M]].
  apply (proj1 (and_assoc _ _ _)).
  split; [|exact (api_words_delete_outcome category english _ H)].
  subst d'.
  assert (Gone : Dict.mem category (Dict.del category d) = false
                 /\ words_of category (Dict.del category d) = []).
  { unfold Dict.mem, words_of.
    rewrite (get_del_same category d (proj1 M)). split; reflexivity. }
  destruct Gone as [Gone1 Gone2].
  assert (Absent : Dict.get category d = None ->
             Dict.keys d
             = filter (fun c0 => negb (PyStr.eqb category c0)) (Dict.keys d)).
  { intros G. symmetry. apply forallb_filter_id. apply forallb_forall.
    intros x Hx. apply negb_true_iff. apply eqb_neq. intros <-.
    apply get_none_not_in in G. contradiction. }
  unfold after_delete, delete_word, delete_category.
  destruct (negb (is_empty_str (field english))) eqn:Ne.
  - destruct (Dict.get category d) as [ws|] eqn:G.
    + destruct (Dict.mem (field english) ws) eqn:Me.
      * destruct (Dict.is_empty (Dict.del (field english) ws)) eqn:Ee.
        -- rewrite Gone1, Gone2.
           split; [apply keys_del; apply M | reflexivity].
        -- unfold Dict.mem, words_of. rewrite get_set_same, G.
           split.
           ++ rewrite keys_set. unfold Dict.mem. rewrite G. reflexivity.
           ++ apply keys_del. eapply words_nodup; eassumption.
      * unfold Dict.mem, words_of. rewrite G. split; [reflexivity|].
        symmetry. apply forallb_filter_id. apply forallb_forall.
        intros x Hx. apply negb_true_iff. apply eqb_neq. intros <-.
        unfold Dict.mem in Me.
        destruct (Dict.get (field english) ws) eqn:Ge; [discriminate|].
        apply get_none_not_in in Ge. contradiction.
    + unfold Dict.mem, words_of. rewrite G.
      split; [apply Absent; reflexivity | reflexivity].
  - destruct (Dict.mem category d) eqn:Mc.
    + rewrite Gone1, Gone2.
      split; [apply keys_del; apply M | reflexivity].
    + rewrite Mc. unfold Dict.mem in Mc. unfold words_of.
      destruct (Dict.get category d) eqn:G; [discriminate|].
      split; [apply Absent; reflexivity | reflexivity].
Qed.

Lemma api_delete_keeps_order_witness :
  let category := py "Уголовное право" in
  let d' := after_delete category (Some (py "penalty")) get_default_data in
  Dict.keys d'
  = (if Dict.mem category d'
     then Dict.keys get_default_data
     else filter (fun c0 => negb (PyStr.eqb category c0))
            (Dict.keys get_default_data))
  /\ Dict.keys (words_of category d')
     = (if Dict.mem category d'
        then filter (fun e0 => negb (PyStr.eqb (field (Some (py "penalty")))
                                       e0))
               (Dict.keys (words_of category get_default_data))
        else [])
  /\ exists fs',
       api_words (DELETE category (Some (py "penalty"))) None
       = Some (Ok JsonSuccess, fs')
       /\ stored fs' = Some d'.
Proof.
  intros category d'.
  pose proof (@api_delete_keeps_order category (Some (py "penalty")) None
                get_default_data stored_absent) as [K [W R]].
  replace (encodable_data _) with true in R by (vm_compute; reflexivity).
  split; [exact K|]. split; [exact W | exact R].
Defined.
